(** * The HubSpot source connector: API client and stream reader

    A shallow embedding of [source_hubspot/api.py]: the credential store and
    HTTP client of class [API], the retry decorator [retry_after_handler]
    and the pagination and time-chunking engine of class [StreamAPI].

    Python values are embedded as they appear in the code: parsed JSON as
    the inductive [json] (objects keep their insertion order, as Python
    dicts do), request parameters as finite maps, and the effects of the
    code (HTTP requests, sleeps, log lines, generator yields) as a trace of
    [event]s produced by a state-and-exception monad over a [world]. *)

From Stdlib Require Import ZArith Lia Ascii String DecimalString.
From stdpp Require Import gmap strings list fin_maps.

Set Warnings "-register-all".
Local Open Scope string_scope.
Local Open Scope list_scope.

(** ** Python values *)

(** Parsed JSON, the result of [response.json()].  Numbers are the integers
    (the fields the connector inspects carry no fractions); strings are byte
    strings. *)
Inductive json : Type :=
| JNull
| JBool (b : bool)
| JNum (n : Z)
| JStr (s : string)
| JArr (items : list json)
| JObj (fields : list (string * json)).

(** [d.get(k)] and [k in d] on a dict in insertion order. *)
Fixpoint assoc {A : Type} (k : string) (d : list (string * A)) : option A :=
  match d with
  | [] => None
  | (k', v) :: d' => if String.eqb k k' then Some v else assoc k d'
  end.

Definition keys {A : Type} (d : list (string * A)) : list string := d.*1.

(** Python truthiness, as used by [not x] and [if x]. *)
Definition truthy (j : json) : bool :=
  match j with
  | JNull => false
  | JBool b => b
  | JNum n => negb (n =? 0)%Z
  | JStr s => negb (String.eqb s "")
  | JArr l => match l with [] => false | _ => true end
  | JObj d => match d with [] => false | _ => true end
  end.

(** [needle in hay] on two strings: the substring test. *)
Fixpoint is_substring (needle hay : string) : bool :=
  String.prefix needle hay ||
  match hay with
  | EmptyString => false
  | String _ hay' => is_substring needle hay'
  end.

Definition is_str (s : string) (j : json) : bool :=
  match j with JStr s' => String.eqb s s' | _ => false end.

(** The characters of a string, each as a one-character string. *)
Fixpoint chars (s : string) : list string :=
  match s with
  | EmptyString => []
  | String c s' => String c EmptyString :: chars s'
  end.

(** ** Exceptions and responses *)

(** An HTTP response as the [requests] library hands it over: the status
    code, the headers, the raw content and the outcome of [response.json()]
    ([None] when the body does not parse). *)
Record http_response : Type := {
  status_code : Z;
  headers : list (string * string);
  content : string;
  json_body : option json
}.

(** Modelled from the spec: the error classes of [source_hubspot/errors.py]
    ([HubspotInvalidAuth], [HubspotSourceUnavailable], [HubspotRateLimited]),
    three distinct failure kinds of which none is a subclass of another;
    the other constructors are the Python and [requests] exceptions the
    code can raise. *)
Inductive exn : Type :=
| RuntimeError (msg : string)
| AttributeError
| TypeError
| KeyError (key : string)
| ValueError
| OverflowError
| JSONDecodeError
| ConnectionError
| HTTPError (status : Z)
| HubspotInvalidAuth (body : string)
| HubspotSourceUnavailable (body : string)
| HubspotRateLimited (msg : string) (response : http_response).

(** The outcome of running a piece of the program: a value, a raised
    exception, or [OutOfFuel] when a loop was cut by the model's fuel. *)
Inductive result (A : Type) : Type :=
| Ok (a : A)
| Raise (e : exn)
| OutOfFuel.
Arguments Ok {A} a.
Arguments Raise {A} e.
Arguments OutOfFuel {A}.

Definition rbind {A B : Type} (r : result A) (f : A -> result B) : result B :=
  match r with
  | Ok a => f a
  | Raise e => Raise e
  | OutOfFuel => OutOfFuel
  end.

(** [obj.get(key)] for a string key: only dicts have [get]. *)
Definition py_get (obj : json) (key : string) : result (option json) :=
  match obj with
  | JObj d => Ok (assoc key d)
  | _ => Raise AttributeError
  end.

(** [key in obj]: key membership on a dict, element membership on a list,
    substring on a string, [TypeError] on anything else. *)
Definition py_contains (key : string) (obj : json) : result bool :=
  match obj with
  | JObj d => Ok (bool_decide (is_Some (assoc key d)))
  | JArr l => Ok (existsb (is_str key) l)
  | JStr s => Ok (is_substring key s)
  | _ => Raise TypeError
  end.

(** [obj[key]] for a string key. *)
Definition py_getitem (obj : json) (key : string) : result json :=
  match obj with
  | JObj d => match assoc key d with
              | Some v => Ok v
              | None => Raise (KeyError key)
              end
  | _ => Raise TypeError
  end.

(** [for row in obj]: the items of a list, the keys of a dict, the
    characters of a string. *)
Definition py_iter (obj : json) : result (list json) :=
  match obj with
  | JArr l => Ok l
  | JObj d => Ok (JStr <$> keys d)
  | JStr s => Ok (JStr <$> chars s)
  | _ => Raise TypeError
  end.

(** ** Strings: header names, [int(...)] and [repr(...)] *)

Definition code (c : ascii) : nat := nat_of_ascii c.

Definition lower_char (c : ascii) : ascii :=
  if (65 <=? code c)%nat && (code c <=? 90)%nat
  then ascii_of_nat (code c + 32) else c.

(** [s.lower()], on which the case-insensitive header dict of [requests]
    keys its entries. *)
Fixpoint lower (s : string) : string :=
  match s with
  | EmptyString => EmptyString
  | String c s' => String (lower_char c) (lower s')
  end.

(** [response.headers.get(name)]. *)
Fixpoint header (name : string) (hs : list (string * string)) : option string :=
  match hs with
  | [] => None
  | (k, v) :: hs' =>
      if String.eqb (lower k) (lower name) then Some v else header name hs'
  end.

(** The characters [int] strips: a header value is the latin-1 decoding of
    the header's bytes, and among the characters up to 255 those are the
    ASCII blanks 9 to 13 and 32 and the two blanks 133 and 160 (the
    separators 28 to 31, which [str.strip] removes, are not among them). *)
Definition is_space (c : ascii) : bool :=
  (code c =? 32)%nat || ((9 <=? code c)%nat && (code c <=? 13)%nat)
  || (code c =? 133)%nat || (code c =? 160)%nat.

Definition is_digit (c : ascii) : bool :=
  (48 <=? code c)%nat && (code c <=? 57)%nat.

Definition digit (c : ascii) : Z := Z.of_nat (code c - 48).

Fixpoint lstrip (s : string) : string :=
  match s with
  | EmptyString => EmptyString
  | String c s' => if is_space c then lstrip s' else s
  end.

Fixpoint rstrip (s : string) : string :=
  match s with
  | EmptyString => EmptyString
  | String c s' =>
      let r := rstrip s' in
      if is_space c && String.eqb r "" then "" else String c r
  end.

(** The digits after a first digit; single underscores may separate them. *)
Fixpoint digits_value (s : string) (acc : Z) : option Z :=
  match s with
  | EmptyString => Some acc
  | String c s' =>
      if is_digit c then digits_value s' (acc * 10 + digit c)%Z
      else if Ascii.eqb c "_" then
        match s' with
        | String d s'' =>
            if is_digit d then digits_value s'' (acc * 10 + digit d)%Z else None
        | EmptyString => None
        end
      else None
  end.

Fixpoint count_digits (s : string) : nat :=
  match s with
  | EmptyString => 0
  | String c s' => (if is_digit c then 1 else 0) + count_digits s'
  end.

(** [sys.get_int_max_str_digits()], as CPython sets it: a longer numeral is
    refused with [ValueError]. *)
Definition int_max_str_digits : nat := 4300.

Definition unsigned_value (s : string) : option Z :=
  if (int_max_str_digits <? count_digits s)%nat then None
  else
    match s with
    | String d s' => if is_digit d then digits_value s' (digit d) else None
    | EmptyString => None
    end.

(** [int(s)] on a string: surrounding whitespace, an optional sign, decimal
    digits; [None] stands for the [ValueError]. *)
Definition py_int (s : string) : option Z :=
  match rstrip (lstrip s) with
  | String "-" s' => Z.opp <$> unsigned_value s'
  | String "+" s' => unsigned_value s'
  | s' => unsigned_value s'
  end.

Definition dquote : ascii := ascii_of_nat 34.
Definition squote : ascii := ascii_of_nat 39.
Definition backslash : ascii := ascii_of_nat 92.

Fixpoint has_char (c : ascii) (s : string) : bool :=
  match s with
  | EmptyString => false
  | String c' s' => Ascii.eqb c c' || has_char c s'
  end.

Definition hex_digit (n : nat) : ascii :=
  if (n <? 10)%nat then ascii_of_nat (48 + n) else ascii_of_nat (87 + n).

Definition escape_char (quote c : ascii) : string :=
  if Ascii.eqb c quote || Ascii.eqb c backslash then String backslash (String c "")
  else if (code c =? 9)%nat then String backslash "t"
  else if (code c =? 10)%nat then String backslash "n"
  else if (code c =? 13)%nat then String backslash "r"
  else if (code c <? 32)%nat || (code c =? 127)%nat then
    String backslash
      (String "x" (String (hex_digit (code c / 16)) (String (hex_digit (code c mod 16)) "")))
  else String c "".

Fixpoint escape (quote : ascii) (s : string) : string :=
  match s with
  | EmptyString => EmptyString
  | String c s' => escape_char quote c +:+ escape quote s'
  end.

(** [repr(s)] of a string: single quotes unless the string holds a single
    quote and no double quote; bytes above 127 (UTF-8 text) are kept. *)
Definition py_repr (s : string) : string :=
  let quote := if has_char squote s && negb (has_char dquote s) then dquote else squote in
  String quote (escape quote s +:+ String quote "").

Fixpoint join (sep : string) (l : list string) : string :=
  match l with
  | [] => ""
  | [x] => x
  | x :: l' => x +:+ sep +:+ join sep l'
  end.

(** [str(d.keys())], as [format] prints it. *)
Definition repr_keys (ks : list string) : string :=
  "dict_keys([" +:+ join ", " (py_repr <$> ks) +:+ "])".

(** ** The world: server, clock, credentials *)

(** The entry [token_expires] of the credentials dict: a JSON value when it
    comes from the configuration, the [datetime] (microseconds since the
    epoch) that a refresh stores. *)
Inductive expiry : Type :=
| ExpJson (j : json)
| ExpTime (t : Z).

(** The state the program runs against: the responses the API server will
    give to the session's requests and the token endpoint to refreshes, in
    order; the clock ([datetime.utcnow()], in microseconds); the
    [_credentials] dict of the [API] object, its entry [token_expires] kept
    apart because it alone holds a [datetime] ([None]: no such key); and the
    [Authorization] header of the session (the value interpolated after
    [Bearer], once set). *)
Record world : Type := {
  script : list http_response;
  token_script : list http_response;
  clock : Z;
  creds : gmap string json;
  token_expires : option expiry;
  authorization : option (option json)
}.

Definition with_script (sc : list http_response) (w : world) : world :=
  {| script := sc; token_script := token_script w; clock := clock w;
     creds := creds w; token_expires := token_expires w;
     authorization := authorization w |}.

Definition with_token_script (sc : list http_response) (w : world) : world :=
  {| script := script w; token_script := sc; clock := clock w;
     creds := creds w; token_expires := token_expires w;
     authorization := authorization w |}.

Definition with_clock (t : Z) (w : world) : world :=
  {| script := script w; token_script := token_script w; clock := t;
     creds := creds w; token_expires := token_expires w;
     authorization := authorization w |}.

Definition with_creds (c : gmap string json) (w : world) : world :=
  {| script := script w; token_script := token_script w; clock := clock w;
     creds := c; token_expires := token_expires w;
     authorization := authorization w |}.

Definition with_token_expires (e : option expiry) (w : world) : world :=
  {| script := script w; token_script := token_script w; clock := clock w;
     creds := creds w; token_expires := e;
     authorization := authorization w |}.

Definition with_authorization (a : option (option json)) (w : world) : world :=
  {| script := script w; token_script := token_script w; clock := clock w;
     creds := creds w; token_expires := token_expires w;
     authorization := a |}.

Inductive method : Type := GET | POST.

Inductive log_line : Type :=
| RateLimitSleep (retry_after : Z)
| MaxRetryReached
| TokenRefreshed (expires : Z)
| ReadingChunk (ts end_ts : Z).

(** What the program does to the outside, in order. *)
Inductive event : Type :=
| Request (m : method) (url : string) (params : gmap string json)
    (data : option json) (auth : option (option json))
| TokenRequest (url : string) (payload : gmap string json)
| Sleep (seconds : Z)
| Log (line : log_line)
| Call (params : gmap string json)
| Yield (row : json).

(** ** The monad: state, exceptions and a trace of events *)

Definition M (A : Type) : Type := world -> list event * result A * world.

Definition ret {A : Type} (a : A) : M A := fun w => ([], Ok a, w).

Definition raise {A : Type} (e : exn) : M A := fun w => ([], Raise e, w).

Definition lift {A : Type} (r : result A) : M A := fun w => ([], r, w).

Definition bind {A B : Type} (m : M A) (f : A -> M B) : M B := fun w =>
  match m w with
  | (t, Ok a, w1) => let '(t', r, w2) := f a w1 in (t ++ t', r, w2)
  | (t, Raise e, w1) => (t, Raise e, w1)
  | (t, OutOfFuel, w1) => (t, OutOfFuel, w1)
  end.

Declare Scope m_scope.
Delimit Scope m_scope with M.
Bind Scope m_scope with M.
Notation "x <- m ;; k" := (bind m (fun x => k))
  (at level 100, m at next level, right associativity) : m_scope.
Notation "m ;; k" := (bind m (fun _ => k))
  (at level 100, right associativity) : m_scope.
Local Open Scope m_scope.

Definition emit (e : event) : M unit := fun w => ([e], Ok tt, w).

(** The [Authorization] header of the session, if set. *)
Definition session_authorization : M (option (option json)) := fun w =>
  ([], Ok (authorization w), w).

Definition trace_of {A : Type} (x : list event * result A * world) : list event := x.1.1.
Definition result_of {A : Type} (x : list event * result A * world) : result A := x.1.2.
Definition world_of {A : Type} (x : list event * result A * world) : world := x.2.

(** The rows a run yielded, the parameters of its getter calls, the URLs of
    its session requests and the seconds it slept. *)
Definition yielded (t : list event) : list json :=
  omap (fun e => match e with Yield r => Some r | _ => None end) t.

Definition calls (t : list event) : list (gmap string json) :=
  omap (fun e => match e with Call p => Some p | _ => None end) t.

Definition requests (t : list event) : list (method * string) :=
  omap (fun e => match e with Request m u _ _ _ => Some (m, u) | _ => None end) t.

Definition sleeps (t : list event) : list Z :=
  omap (fun e => match e with Sleep s => Some s | _ => None end) t.

(** [datetime.utcnow()]. *)
Definition utcnow : M Z := fun w => ([], Ok (clock w), w).

(** The longest sleep: [time.sleep] turns the seconds into a signed 64-bit
    count of nanoseconds. *)
Definition sleep_max : Z := 9223372036.

(** [time.sleep(seconds)] for an [int]: a length that does not fit the
    64-bit count is an [OverflowError], a negative one that fits is refused
    with [ValueError], any other blocks for that long. *)
Definition time_sleep (seconds : Z) : M unit :=
  if (seconds <? - sleep_max)%Z || (sleep_max <? seconds)%Z then raise OverflowError
  else if (seconds <? 0)%Z then raise ValueError
  else fun w => ([Sleep seconds], Ok tt, with_clock (clock w + seconds * 1000000) w).

(** ** Dates and floats *)

(** [datetime.min] and [datetime.max], in microseconds since the epoch. *)
Definition datetime_min : Z := -62135596800000000.
Definition datetime_max : Z := 253402300799999999.

(** [timedelta(seconds=n)] for an [int], in microseconds: the days may
    not exceed 999999999 in magnitude. *)
Definition timedelta_seconds (n : Z) : result Z :=
  if (n / 86400 <? -999999999)%Z || (999999999 <? n / 86400)%Z then Raise OverflowError
  else Ok (n * 1000000)%Z.

(** [t + d] of a [datetime] and a [timedelta]: the sum has to be a date. *)
Definition datetime_add (t d : Z) : result Z :=
  if (t + d <? datetime_min)%Z || (datetime_max <? t + d)%Z then Raise OverflowError
  else Ok (t + d)%Z.

(** The integer nearest to [num / den], the even one of two equally near
    ([0 <= num], [0 < den]). *)
Definition round_half_even (num den : Z) : Z :=
  let q := (num / den)%Z in
  let r := (num mod den)%Z in
  if (2 * r <? den)%Z then q
  else if (den <? 2 * r)%Z then (q + 1)%Z
  else if Z.even q then q else (q + 1)%Z.

(** The binary64 float nearest to [num / den] ([0 < num], [0 < den]), as a
    mantissa [m] of 53 bits and an exponent [e]: the float is [m * 2 ^ e].
    The quotient is scaled to 53 bits before the point and rounded there;
    the magnitudes of dates stay far inside the range of normal floats. *)
Definition to_double (num den : Z) : Z * Z :=
  let scaled (e : Z) : Z * Z :=
    if (0 <=? e)%Z then (num, den * 2 ^ e)%Z else (num * 2 ^ (- e), den)%Z in
  let e0 := (Z.log2 num - Z.log2 den - 52)%Z in
  let e := if ((scaled e0).1 / (scaled e0).2 <? 2 ^ 52)%Z then (e0 - 1)%Z else e0 in
  (round_half_even (scaled e).1 (scaled e).2, e).

(** [int(t.timestamp() * 1000)] for a [datetime] with a time zone, [t] in
    microseconds since the epoch: [timestamp()] is the float nearest to the
    seconds, the product with 1000 is rounded to a float again, and [int]
    cuts the fraction off. *)
Definition timestamp_ms (t : Z) : Z :=
  if (t =? 0)%Z then 0%Z
  else
    let seconds := to_double (Z.abs t) 1000000 in
    let millis :=
      if (0 <=? seconds.2)%Z then to_double (seconds.1 * 1000 * 2 ^ seconds.2) 1
      else to_double (seconds.1 * 1000) (2 ^ (- seconds.2)) in
    (Z.sgn t
     * (if (0 <=? millis.2)%Z then millis.1 * 2 ^ millis.2
        else millis.1 / 2 ^ (- millis.2)))%Z.

Definition set_cred (key : string) (v : json) : M unit := fun w =>
  ([], Ok tt, with_creds (<[key := v]> (creds w)) w).

Definition set_token_expires (t : Z) : M unit := fun w =>
  ([], Ok tt, with_token_expires (Some (ExpTime t)) w).

Definition set_authorization (a : option json) : M unit := fun w =>
  ([], Ok tt, with_authorization (Some a) w).

(** One exchange with the API server; a server that has nothing left to say
    is a dropped connection. *)
Definition session_send : M http_response := fun w =>
  match script w with
  | [] => ([], Raise ConnectionError, w)
  | r :: rest => ([], Ok r, with_script rest w)
  end.

(** One exchange with the token endpoint. *)
Definition token_send : M http_response := fun w =>
  match token_script w with
  | [] => ([], Raise ConnectionError, w)
  | r :: rest => ([], Ok r, with_token_script rest w)
  end.

(** [try: m  except E as e: h(e)], [handles] telling the instances of [E]. *)
Definition catch {A : Type} (m : M A) (handles : exn -> bool) (h : exn -> M A) : M A :=
  fun w =>
    match m w with
    | (t, Raise e, w1) =>
        if handles e then let '(t', r, w2) := h e w1 in (t ++ t', r, w2)
        else (t, Raise e, w1)
    | x => x
    end.

(** ** The retry decorator *)

Definition is_rate_limited (e : exn) : bool :=
  match e with HubspotRateLimited _ _ => true | _ => false end.

(** The [on_backoff] handler: sleep for what the server asked, plus one
    second. *)
Definition sleep_on_ratelimit (e : exn) : M unit :=
  match e with
  | HubspotRateLimited _ resp =>
      match header "Retry-After" (headers resp) with
      | None => raise (KeyError "retry-after")
      | Some v =>
          match py_int v with
          | None => raise ValueError
          | Some retry_after =>
              emit (Log (RateLimitSleep retry_after));;
              time_sleep (retry_after + 1)
          end
      end
  | _ => ret tt
  end.

(** The [on_giveup] handler. *)
Definition log_giveup : M unit := emit (Log MaxRetryReached).

(** [backoff.on_exception(backoff.constant, HubspotRateLimited, jitter=None,
    interval=..., max_tries=...)], the retry loop of the [backoff] library:
    attempt number [tries] of the target; a rate-limit failure on attempt
    [max_tries] calls the give-up handler and is raised again, an earlier one
    calls the backoff handler, sleeps for the constant interval and tries
    again; any other exception leaves the loop at once.  The library's own
    log lines are left out. *)
Fixpoint on_exception {A : Type} (fuel : nat) (interval : Z) (max_tries tries : nat)
    (target : M A) : M A :=
  catch target is_rate_limited (fun e =>
    if (tries =? max_tries)%nat then log_giveup;; raise e
    else
      sleep_on_ratelimit e;;
      time_sleep interval;;
      match fuel with
      | O => lift OutOfFuel
      | S fuel' => on_exception fuel' interval max_tries (S tries) target
      end).

(** [retry_after_handler(max_tries=n)]: the interval is zero, the waiting is
    done in the backoff handler. *)
Definition retry_after_handler {A : Type} (max_tries : nat) (target : M A) : M A :=
  on_exception max_tries 0 max_tries 1 target.

(** ** Class [API] *)

Module API.

Definition BASE_URL : string := "https://api.hubapi.com".

(** [self._credentials[key]]. *)
Definition cred_item (key : string) : M json := fun w =>
  match creds w !! key with
  | Some v => ([], Ok v, w)
  | None => ([], Raise (KeyError key), w)
  end.

(** [self._credentials.get(key)]. *)
Definition cred_get (key : string) : M (option json) := fun w =>
  ([], Ok (creds w !! key), w).

Definition opt_truthy (v : option json) : bool :=
  match v with Some j => truthy j | None => false end.

(** [resp.raise_for_status()]. *)
Definition raise_for_status (r : http_response) : result unit :=
  if (400 <=? status_code r)%Z && (status_code r <? 600)%Z
  then Raise (HTTPError (status_code r)) else Ok tt.

Definition response_json (r : http_response) : result json :=
  match json_body r with
  | Some j => Ok j
  | None => Raise JSONDecodeError
  end.

(** [auth["expires_in"] - 600]: an int (or a bool, which Python counts as
    one) minus 600. *)
Definition minus_600 (j : json) : result Z :=
  match j with
  | JNum n => Ok (n - 600)%Z
  | JBool b => Ok ((if b then 1 else 0) - 600)%Z
  | _ => Raise TypeError
  end.

Definition _acquire_access_token_from_refresh_token : M unit :=
  redirect_uri <- cred_item "redirect_uri";;
  refresh_token <- cred_item "refresh_token";;
  client_id <- cred_item "client_id";;
  client_secret <- cred_item "client_secret";;
  let payload : gmap string json :=
    <["client_secret" := client_secret]>
      (<["client_id" := client_id]>
         (<["refresh_token" := refresh_token]>
            (<["redirect_uri" := redirect_uri]>
               {["grant_type" := JStr "refresh_token"]}))) in
  emit (TokenRequest (BASE_URL +:+ "/oauth/v1/token") payload);;
  resp <- token_send;;
  if (status_code resp =? 403)%Z then raise (HubspotInvalidAuth (content resp))
  else
    lift (raise_for_status resp);;
    auth <- lift (response_json resp);;
    tok <- lift (py_getitem auth "access_token");;
    set_cred "access_token" tok;;
    rtok <- lift (py_getitem auth "refresh_token");;
    set_cred "refresh_token" rtok;;
    now <- utcnow;;
    secs <- lift (rbind (py_getitem auth "expires_in") minus_600);;
    expires <- lift (rbind (timedelta_seconds secs) (datetime_add now));;
    set_token_expires expires;;
    emit (Log (TokenRefreshed expires)).

(** The property [api_key]. *)
Definition api_key : M (option json) := cred_get "api_key".

(** The test of line 106 on the stored expiry: [None] or earlier than now. *)
Definition refresh_due : M bool := fun w =>
  match token_expires w with
  | None => ([], Raise (KeyError "token_expires"), w)
  | Some (ExpJson JNull) => ([], Ok true, w)
  | Some (ExpJson _) => ([], Raise TypeError, w)
  | Some (ExpTime t) => ([], Ok (t <? clock w)%Z, w)
  end.

(** The property [access_token]. *)
Definition access_token : M (option json) :=
  tok <- cred_get "access_token";;
  if negb (opt_truthy tok) then ret None
  else
    due <- refresh_due;;
    (if due then _acquire_access_token_from_refresh_token else ret tt);;
    cred_get "access_token".

(** [_add_auth(params)]: the params to send.  With a static key the key goes
    into them, otherwise the bearer header of the session is set. *)
Definition _add_auth (params : gmap string json) : M (gmap string json) :=
  key <- api_key;;
  if opt_truthy key then
    key' <- api_key;;
    ret (match key' with Some k => <["hapikey" := k]> params | None => params end)
  else
    tok <- access_token;;
    set_authorization tok;;
    ret params.

Definition rate_limit_message (r : http_response) : string :=
  "429 Rate Limit Exceeded: API rate-limit has been reached until "
  +:+ default "None" (header "Retry-After" (headers r))
  +:+ " seconds. See https://developers.hubspot.com/docs/api/usage-details".

Definition _parse_and_handle_errors (r : http_response) : result json :=
  if (status_code r =? 403)%Z then Raise (HubspotSourceUnavailable (content r))
  else if (status_code r =? 429)%Z then Raise (HubspotRateLimited (rate_limit_message r) r)
  else rbind (raise_for_status r) (fun _ => response_json r).

(** One HTTP exchange of the session: auth, request, classification.  The
    caller's dict is the one [_add_auth] writes into unless it was empty
    ([params or {}] then makes a new one), so the dict is handed back next to
    the parsed body. *)
Definition exchange (m : method) (url : string) (data : option json)
    (params : gmap string json) : M (gmap string json * json) :=
  sent <- _add_auth params;;
  auth <- session_authorization;;
  emit (Request m (BASE_URL +:+ url) sent data auth);;
  resp <- session_send;;
  body <- lift (_parse_and_handle_errors resp);;
  ret (if decide (params = ∅) then params else sent, body).

(** [get], under [@retry_after_handler(max_tries=3)]. *)
Definition get (url : string) (params : gmap string json) : M (gmap string json * json) :=
  retry_after_handler 3 (exchange GET url None params).

(** [post], undecorated. *)
Definition post (url : string) (data : json) (params : gmap string json)
  : M (gmap string json * json) :=
  exchange POST url (Some data) params.

End API.

(** ** Class [StreamAPI] *)

Module StreamAPI.

(** The class attributes a stream class sets, and the start date given to
    the constructor (microseconds since the epoch). *)
Record stream : Type := {
  entity : option string;
  more_key : option string;
  data_path : string;
  page_filter : string;
  page_field : string;
  chunk_size : Z;
  limit : Z;
  start_date : Z
}.

(** A getter: the callable handed to [read], called as [getter(params=params)].
    It returns the parsed response; the dict it was given is shared with the
    caller, so the dict as the call leaves it is returned too. *)
Definition getter : Type := gmap string json -> M (gmap string json * json).

(** [partial(self._api.get, url=url)]. *)
Definition api_getter (url : string) : getter := fun params => API.get url params.

(** Equality of two hashable JSON values as dict keys ([True == 1]). *)
Definition key_eqb (a b : json) : bool :=
  match a, b with
  | JNull, JNull => true
  | JStr x, JStr y => String.eqb x y
  | JBool x, JBool y => Bool.eqb x y
  | JNum x, JNum y => (x =? y)%Z
  | JBool x, JNum y | JNum y, JBool x => ((if x then 1 else 0) =? y)%Z
  | _, _ => false
  end.

(** [props[k] = v]: a known key keeps its place. *)
Fixpoint dict_set (k v : json) (d : list (json * json)) : list (json * json) :=
  match d with
  | [] => [(k, v)]
  | (k', v') :: d' => if key_eqb k k' then (k', v) :: d' else (k', v') :: dict_set k v d'
  end.

Definition hashable (j : json) : bool :=
  match j with JArr _ | JObj _ => false | _ => true end.

(** The loop of [properties] over the rows of the metadata response. *)
Fixpoint collect_properties (rows : list json) (props : list (json * json))
  : result (list (json * json)) :=
  match rows with
  | [] => Ok props
  | row :: rows' =>
      rbind (py_getitem row "type") (fun ty =>
      rbind (py_getitem row "name") (fun name =>
      if hashable name
      then collect_properties rows' (dict_set name (JObj [("type", ty)]) props)
      else Raise TypeError))
  end.

(** The property [properties]: nothing for a stream without entity, else the
    property schema of the entity, fetched from the metadata endpoint. *)
Definition properties (s : stream) : M (list (json * json)) :=
  match entity s with
  | None => ret []
  | Some "" => ret []
  | Some e =>
      r <- API.get ("/properties/v2/" +:+ e +:+ "/properties") ∅;;
      rows <- lift (py_iter r.2);;
      lift (collect_properties rows [])
  end.

(** [",".join(d.keys())]: every key has to be a string. *)
Fixpoint str_keys (d : list (json * json)) : result (list string) :=
  match d with
  | [] => Ok []
  | (JStr k, _) :: d' => rbind (str_keys d') (fun ks => Ok (k :: ks))
  | _ => Raise TypeError
  end.

Definition default_params (s : stream) : M (gmap string json) :=
  props <- properties s;;
  names <- lift (str_keys props);;
  ret (<["properties" := JStr (join "," names)]> {["limit" := JNum (limit s)]}).

(** The message of the [RuntimeError] of line 176. *)
Definition unexpected_response (s : stream) (fields : list (string * json)) : string :=
  "Unexpected API response: " +:+ data_path s +:+ " not in " +:+ repr_keys (keys fields).

(** [response.get(self.more_key, False)]: [more_key] may be [None], which is
    no key of a parsed response. *)
Definition more_flag (s : stream) (fields : list (string * json)) : json :=
  match more_key s with
  | Some k => default (JBool false) (assoc k fields)
  | None => JBool false
  end.

(** The pagination block of [read] (lines 182 to 191): [None] is [break],
    [Some p] the params of the next round of the loop. *)
Definition paginate (s : stream) (params : gmap string json) (fields : list (string * json))
  : result (option (gmap string json)) :=
  match assoc "paging" fields with
  | Some paging =>
      rbind (py_contains "next" paging) (fun has_next =>
      if has_next then
        rbind (py_getitem paging "next") (fun next =>
        rbind (py_getitem next "after") (fun after =>
        Ok (Some (<["after" := after]> params))))
      else Ok None)
  | None =>
      if negb (truthy (more_flag s fields)) then Ok None
      else
        match assoc (page_field s) fields with
        | Some v => Ok (Some (<[page_filter s := v]> params))
        | None => Ok (Some params)
        end
  end.

(** [for row in rows: yield row]. *)
Definition yield_all (rows : list json) : M unit := fun w => (Yield <$> rows, Ok tt, w).

(** The records container of a response (lines 175 to 178): the rows to
    yield, or the exception raised instead. *)
Definition container (s : stream) (response : json) : result (list json) :=
  match response with
  | JObj fields =>
      match assoc (data_path s) fields with
      | None | Some JNull => Raise (RuntimeError (unexpected_response s fields))
      | Some c => py_iter c
      end
  | _ => Raise AttributeError
  end.

(** One round of the loop of [read]: the request, the rows, and the decision
    of the pagination block. *)
Definition round (s : stream) (g : getter) (params : gmap string json)
  : M (option (gmap string json)) :=
  emit (Call params);;
  r <- g params;;
  rows <- lift (container s r.2);;
  yield_all rows;;
  lift (match r.2 with
        | JObj fields => paginate s r.1 fields
        | _ => Raise AttributeError
        end).

(** The [while True] loop of [read], cut after [fuel] rounds. *)
Fixpoint read_loop (fuel : nat) (s : stream) (g : getter) (params : gmap string json)
  : M unit :=
  match fuel with
  | O => lift OutOfFuel
  | S fuel' =>
      next <- round s g params;;
      match next with
      | None => ret tt
      | Some params' => read_loop fuel' s g params'
      end
  end.

(** [{**default_params, **params} if params else {**default_params}]. *)
Definition merge_params (params : option (gmap string json)) (dp : gmap string json)
  : gmap string json :=
  match params with
  | Some p => if decide (p = ∅) then dp else p ∪ dp
  | None => dp
  end.

(** [read(getter, params)], drained by its consumer. *)
Definition read (fuel : nat) (s : stream) (g : getter) (params : option (gmap string json))
  : M unit :=
  dp <- default_params s;;
  read_loop fuel s g (merge_params params dp).

(** [range(start, stop, step)]. *)
Definition py_range (start stop step : Z) : result (list Z) :=
  if (step =? 0)%Z then Raise ValueError
  else if (0 <? step)%Z then
    Ok ((fun i => start + Z.of_nat i * step)%Z <$> seq 0 (Z.to_nat ((stop - start + step - 1) / step)))
  else
    Ok ((fun i => start + Z.of_nat i * step)%Z <$> seq 0 (Z.to_nat ((start - stop - step - 1) / - step))).


(** The [for] loop of [read_chunked] over the window starts. *)
Fixpoint read_windows (fuel : nat) (s : stream) (g : getter) (params : gmap string json)
    (starts : list Z) : M unit :=
  match starts with
  | [] => ret tt
  | ts :: starts' =>
      let end_ts := (ts + chunk_size s)%Z in
      let params := <["endTimestamp" := JNum end_ts]> (<["startTimestamp" := JNum ts]> params) in
      emit (Log (ReadingChunk ts end_ts));;
      read fuel s g (Some params);;
      read_windows fuel s g params starts'
  end.

(** [read_chunked(getter, params)], drained by its consumer; each window's
    [read] gets [fuel] rounds. *)
Definition read_chunked (fuel : nat) (s : stream) (g : getter)
    (params : option (gmap string json)) : M unit :=
  let params := default ∅ params in
  now <- utcnow;;
  let now_ts := timestamp_ms now in
  let start_ts := timestamp_ms (start_date s) in
  starts <- lift (py_range start_ts now_ts (chunk_size s));;
  read_windows fuel s g params starts.

(** The windows [read_chunked] walks: the [startTimestamp] and
    [endTimestamp] of each. *)
Definition windows (start_ts now_ts chunk : Z) : result (list (Z * Z)) :=
  rbind (py_range start_ts now_ts chunk) (fun starts =>
  Ok ((fun ts => (ts, ts + chunk)%Z) <$> starts)).

(** *** The stream classes *)

Definition StreamAPI (start : Z) : stream :=
  {| entity := None; more_key := None; data_path := "results";
     page_filter := "offset"; page_field := "offset";
     chunk_size := 1000 * 60 * 60 * 24; limit := 100; start_date := start |}.

Definition with_entity (e : string) (s : stream) : stream :=
  {| entity := Some e; more_key := more_key s; data_path := data_path s;
     page_filter := page_filter s; page_field := page_field s;
     chunk_size := chunk_size s; limit := limit s; start_date := start_date s |}.

Definition legacy (path : string) (lim : Z) (s : stream) : stream :=
  {| entity := entity s; more_key := Some "hasMore"; data_path := path;
     page_filter := page_filter s; page_field := page_field s;
     chunk_size := chunk_size s; limit := lim; start_date := start_date s |}.

Definition ContactsAPI (start : Z) : stream := with_entity "contact" (StreamAPI start).
Definition OwnersAPI (start : Z) : stream := StreamAPI start.
Definition CampaignsAPI (start : Z) : stream :=
  with_entity "campaign" (legacy "campaigns" 500 (StreamAPI start)).
Definition EmailEventsAPI (start : Z) : stream := legacy "events" 1000 (StreamAPI start).
Definition EngagementsAPI (start : Z) : stream :=
  with_entity "engagement" (legacy "results" 250 (StreamAPI start)).

(** [CRMObjectsAPI.list], for a stream class with the given endpoint. *)
Definition crm_list (fuel : nat) (s : stream) (url : string) (include_archived_only : bool)
  : M unit :=
  read fuel s (api_getter url)
    (Some {["archived" := JStr (if include_archived_only then "true" else "false")]}).

End StreamAPI.



(** ** The stream classes and their [list] methods *)

Module Streams.
Import StreamAPI.

(** [repr(x)] of a parsed JSON value. *)
Fixpoint repr_json (j : json) : string :=
  match j with
  | JNull => "None"
  | JBool b => if b then "True" else "False"
  | JNum n => NilZero.string_of_int (Z.to_int n)
  | JStr s => py_repr s
  | JArr l => "[" +:+ join ", " (map repr_json l) +:+ "]"
  | JObj d =>
      "{" +:+ join ", " (map (fun kv => py_repr kv.1 +:+ ": " +:+ repr_json kv.2) d) +:+ "}"
  end.

(** [str(x)], what an f-string and [format] put in place of [{x}]. *)
Definition py_str (j : json) : string :=
  match j with
  | JStr s => s
  | _ => repr_json j
  end.

(** [d[k] = v] on a dict whose keys are strings: a known key keeps its
    place. *)
Fixpoint obj_set (k : string) (v : json) (d : list (string * json)) : list (string * json) :=
  match d with
  | [] => [(k, v)]
  | (k', v') :: d' => if String.eqb k k' then (k', v) :: d' else (k', v') :: obj_set k v d'
  end.

(** [for row in rows: body(row)]. *)
Fixpoint for_each (rows : list json) (body : json -> M unit) : M unit :=
  match rows with
  | [] => ret tt
  | row :: rows' => body row;; for_each rows' body
  end.

(** The loop of [read] as a consumer drives it: the generator is suspended
    at every [yield], and [body] is what the consumer's [for] loop does with
    the row before it asks for the next one. *)
Fixpoint consume_loop (fuel : nat) (s : stream) (g : getter) (params : gmap string json)
    (body : json -> M unit) : M unit :=
  match fuel with
  | O => lift OutOfFuel
  | S fuel' =>
      emit (Call params);;
      r <- g params;;
      rows <- lift (container s r.2);;
      for_each rows body;;
      next <- lift (match r.2 with
                    | JObj fields => paginate s r.1 fields
                    | _ => Raise AttributeError
                    end);;
      match next with
      | None => ret tt
      | Some params' => consume_loop fuel' s g params' body
      end
  end.

(** [for row in self.read(getter, params): body(row)]. *)
Definition consume (fuel : nat) (s : stream) (g : getter) (params : option (gmap string json))
    (body : json -> M unit) : M unit :=
  dp <- default_params s;;
  consume_loop fuel s g (merge_params params dp) body.

Definition yield (row : json) : M unit := emit (Yield row).

Definition CompaniesAPI (start : Z) : stream := with_entity "company" (StreamAPI start).
Definition SubscriptionChangesAPI (start : Z) : stream :=
  legacy "timeline" 1000 (StreamAPI start).

(** [CampaignsAPI.list]: every row of the campaign index is looked up by its
    id, and the record of the lookup is what is yielded. *)
Definition campaigns_list (fuel : nat) (start : Z) : M unit :=
  consume fuel (CampaignsAPI start) (api_getter "/email/public/v1/campaigns/by-id") None
    (fun row =>
       id <- lift (py_getitem row "id");;
       record <- API.get ("/email/public/v1/campaigns/" +:+ py_str id) ∅;;
       yield record.2).

(** The body of the loop of [EngagementsAPI.list]:
    [record["engagement_id"] = record["engagement"]["id"]]. *)
Definition with_engagement_id (record : json) : result json :=
  rbind (py_getitem record "engagement") (fun engagement =>
  rbind (py_getitem engagement "id") (fun id =>
  match record with
  | JObj fields => Ok (JObj (obj_set "engagement_id" id fields))
  | _ => Raise TypeError
  end)).

Definition engagements_list (fuel : nat) (start : Z) : M unit :=
  consume fuel (EngagementsAPI start) (api_getter "/engagements/v1/engagements/paged") None
    (fun record =>
       record' <- lift (with_engagement_id record);;
       yield record').

(** [ContactsByCompanyAPI._contacts_by_company]. *)
Definition _contacts_by_company (company_id : json) : M unit :=
  let url := "/companies/v2/companies/" +:+ py_str company_id +:+ "/vids" in
  r <- API.get url {["count" := JNum 100]};;
  match r.2 with
  | JObj fields =>
      match assoc "vids" fields with
      | None | Some JNull =>
          raise (RuntimeError ("Unexpected API response: vids not in "
                               +:+ repr_keys (keys fields)))
      | Some vids =>
          rows <- lift (py_iter vids);;
          for_each rows (fun row =>
            yield (JObj [("company-id", company_id); ("contact-id", row)]))
      end
  | _ => raise AttributeError
  end.

(** [ContactsByCompanyAPI.list]: the contacts of every company of
    [CompaniesAPI.list]. *)
Definition contacts_by_company_list (fuel : nat) (start : Z) : M unit :=
  consume fuel (CompaniesAPI start) (api_getter "/crm/v3/objects/companies")
    (Some {["archived" := JStr "false"]})
    (fun company =>
       id <- lift (py_getitem company "id");;
       _contacts_by_company id).

(** [DealPipelinesAPI.list] and [FormsAPI.list]: the items of the response,
    as they come. *)
Definition items_list (url : string) : M unit :=
  r <- API.get url ∅;;
  rows <- lift (py_iter r.2);;
  for_each rows yield.

Definition deal_pipelines_list : M unit := items_list "/deals/v1/pipelines".
Definition forms_list : M unit := items_list "/forms/v2/forms".

(** [WorkflowsAPI.list]. *)
Definition workflows_list : M unit :=
  r <- API.get "/automation/v3/workflows" ∅;;
  workflows <- lift (py_getitem r.2 "workflows");;
  rows <- lift (py_iter workflows);;
  for_each rows yield.

(** [OwnersAPI.list], [EmailEventsAPI.list], [SubscriptionChangesAPI.list]. *)
Definition owners_list (fuel : nat) (start : Z) : M unit :=
  read fuel (OwnersAPI start) (api_getter "/crm/v3/owners") None.

Definition email_events_list (fuel : nat) (start : Z) : M unit :=
  read_chunked fuel (EmailEventsAPI start) (api_getter "/email/public/v1/events") None.

Definition subscription_changes_list (fuel : nat) (start : Z) : M unit :=
  read_chunked fuel (SubscriptionChangesAPI start)
    (api_getter "/email/public/v1/subscriptions/timeline") None.

End Streams.

(** * Observations

    What the statements below speak about: the kinds of events in a trace,
    the worlds in which authentication needs no refresh, and the windows and
    refreshes a run made. *)

(** ** Input and output events

    The client and the decorator talk to the network, the clock and the log;
    only the stream reader calls getters and yields rows. *)

Definition io_event (e : event) : bool :=
  match e with Call _ | Yield _ => false | _ => true end.

Definition Quiet {A : Type} (m : M A) : Prop :=
  forall w, forallb io_event (trace_of (m w)) = true.

(** ** Authentication without refresh *)

(** The connector sends a static key. *)
Definition static_key (w : world) : bool := API.opt_truthy (creds w !! "api_key").

(** Up to [deadline] no refresh is due: a static key is configured, or no
    access token is stored, or the stored token expires at [deadline] or
    later. *)
Definition settled (deadline : Z) (w : world) : bool :=
  static_key w
  || negb (API.opt_truthy (creds w !! "access_token"))
  || match token_expires w with
     | Some (ExpTime e) => (deadline <=? e)%Z
     | _ => false
     end.

(** At no time a refresh is due: a static key, or no stored access token. *)
Definition timeless (w : world) : bool :=
  static_key w || negb (API.opt_truthy (creds w !! "access_token")).

(** What [_add_auth] then sends and leaves behind. *)
Definition bearer (w : world) : option json :=
  if API.opt_truthy (creds w !! "access_token") then creds w !! "access_token" else None.

Definition sent_params (w : world) (params : gmap string json) : gmap string json :=
  if static_key w then
    match creds w !! "api_key" with
    | Some k => <["hapikey" := k]> params
    | None => params
    end
  else params.

Definition sent_header (w : world) : option (option json) :=
  if static_key w then authorization w else Some (bearer w).

Definition sent_request (w : world) (m : method) (url : string) (data : option json)
    (params : gmap string json) : event :=
  Request m (API.BASE_URL +:+ url) (sent_params w params) data (sent_header w).

(** The world of a call in progress: [w] after authentication, with the
    server left to say [sc], at time [t]. *)
Definition during (w : world) (sc : list http_response) (t : Z) : world :=
  {| script := sc; token_script := token_script w; clock := t;
     creds := creds w; token_expires := token_expires w;
     authorization := sent_header w |}.

Definition slept (seconds : Z) (w : world) : world :=
  with_clock (clock w + seconds * 1000000) w.

(** The outcome of one exchange, given the response that comes back. *)
Definition classified (w : world) (params : gmap string json) (r : http_response)
  : result (gmap string json * json) :=
  rbind (API._parse_and_handle_errors r) (fun body =>
  Ok (if decide (params = ∅) then params else sent_params w params, body)).

(** A computation that does not depend on the time: started at another time
    against the same server, it makes the same trace, has the same outcome
    and takes as long. *)
Definition Timeless {A : Type} (w : world) (m : M A) : Prop :=
  forall sc t t', exists tr res sc' d,
    m (during w sc t) = (tr, res, during w sc' (t + d)%Z) /\
    m (during w sc t') = (tr, res, during w sc' (t' + d)%Z).

(** What a round of [read] does once the getter has answered. *)
Definition after_response (fuel : nat) (s : StreamAPI.stream) (g : StreamAPI.getter)
    (r : gmap string json * json) : M unit :=
  rows <- lift (StreamAPI.container s r.2);;
  StreamAPI.yield_all rows;;
  next <- lift (match r.2 with
                | JObj fields => StreamAPI.paginate s r.1 fields
                | _ => Raise AttributeError
                end);;
  match next with
  | None => ret tt
  | Some params' => StreamAPI.read_loop fuel s g params'
  end.

(** ** Refreshes *)

Definition is_token_request (e : event) : bool :=
  match e with TokenRequest _ _ => true | _ => false end.

(** The run asked the token endpoint for a new token. *)
Definition refreshes (t : list event) : bool := existsb is_token_request t.

(** The credentials hold what a refresh sends. *)
Definition oauth_configured (w : world) : Prop :=
  is_Some (creds w !! "redirect_uri") /\ is_Some (creds w !! "refresh_token")
  /\ is_Some (creds w !! "client_id") /\ is_Some (creds w !! "client_secret").

(** The condition of the code: a token is stored, and its expiry is [None]
    or earlier than now. *)
Definition refresh_condition (w : world) : Prop :=
  API.opt_truthy (creds w !! "access_token") = true
  /\ (token_expires w = Some (ExpJson JNull)
      \/ exists e, token_expires w = Some (ExpTime e) /\ (e < clock w)%Z).

(** The condition in the words of the specification: the token is missing,
    or its expiry is not in the future. *)
Definition expires_in_future (w : world) : Prop :=
  exists e, token_expires w = Some (ExpTime e) /\ (clock w < e)%Z.

Definition spec_refresh_condition (w : world) : Prop :=
  API.opt_truthy (creds w !! "access_token") = false \/ ~ expires_in_future w.

(** ** Windows *)

(** The window a request asks for: its [startTimestamp] and [endTimestamp]. *)
Definition window_of (params : gmap string json) : option (Z * Z) :=
  match params !! "startTimestamp", params !! "endTimestamp" with
  | Some (JNum a), Some (JNum b) => Some (a, b)
  | _, _ => None
  end.

Definition issued_windows (t : list event) : list (Z * Z) := omap window_of (calls t).

(** The params of a window, on top of the caller's. *)
Definition in_window (ts end_ts : Z) (params : gmap string json) : gmap string json :=
  <["endTimestamp" := JNum end_ts]> (<["startTimestamp" := JNum ts]> params).

(** ** The refresh request *)

Definition token_url : string := API.BASE_URL +:+ "/oauth/v1/token".

(** The form a refresh posts. *)
Definition refresh_payload (redirect_uri refresh_token client_id client_secret : json)
  : gmap string json :=
  <["client_secret" := client_secret]>
    (<["client_id" := client_id]>
       (<["refresh_token" := refresh_token]>
          (<["redirect_uri" := redirect_uri]>
             {["grant_type" := JStr "refresh_token"]}))).

(** The credentials hold the four values a refresh sends. *)
Definition refresh_fields (w : world) (redirect_uri refresh_token client_id client_secret : json)
  : Prop :=
  creds w !! "redirect_uri" = Some redirect_uri
  /\ creds w !! "refresh_token" = Some refresh_token
  /\ creds w !! "client_id" = Some client_id
  /\ creds w !! "client_secret" = Some client_secret.

(** [t] is a time a [datetime] can hold. *)
Definition is_datetime (t : Z) : Prop := (datetime_min <= t <= datetime_max)%Z.

(** The world after a refresh that was granted. *)
Definition refreshed (w : world) (rest : list http_response) (tok rtok : json) (expires : Z)
  : world :=
  {| script := script w; token_script := rest; clock := clock w;
     creds := <["refresh_token" := rtok]> (<["access_token" := tok]> (creds w));
     token_expires := Some (ExpTime expires);
     authorization := authorization w |}.

(** The world after a refresh that stored both tokens and failed on the
    expiry. *)
Definition half_refreshed (w : world) (rest : list http_response) (tok rtok : json) : world :=
  with_creds (<["refresh_token" := rtok]> (<["access_token" := tok]> (creds w)))
    (with_token_script rest w).

(** The error of a token endpoint that answers with a 4xx or 5xx status. *)
Definition refresh_error (r : http_response) : exn :=
  if (status_code r =? 403)%Z then HubspotInvalidAuth (content r)
  else HTTPError (status_code r).

(** ** Invariants of a run *)

(** [m] keeps the invariant [I] of the world and emits only events that
    satisfy [P], from every world that satisfies [I]. *)
Definition Keeps {A : Type} (I : world -> Prop) (P : event -> bool) (m : M A) : Prop :=
  forall u, I u -> forallb P (trace_of (m u)) = true /\ I (world_of (m u)).

Definition is_request (e : event) : bool :=
  match e with Request _ _ _ _ _ => true | _ => false end.

Definition is_sleep (e : event) : bool :=
  match e with Sleep _ => true | _ => false end.

(** The world [u] has the credentials, the expiry, the [Authorization]
    header and the token endpoint of [w], and a static key. *)
Definition same_credentials (w u : world) : Prop :=
  static_key u = true /\ creds u = creds w /\ token_expires u = token_expires w
  /\ authorization u = authorization w /\ token_script u = token_script w.

(** The stored expiry asks for a refresh. *)
Definition expiry_due (w : world) : Prop :=
  token_expires w = Some (ExpJson JNull)
  \/ exists e, token_expires w = Some (ExpTime e) /\ (e < clock w)%Z.

Definition no_token_request (e : event) : bool := negb (is_token_request e).

Definition no_request (e : event) : bool := negb (is_request e).

(** Running [m] from [w] asks for no refresh and leaves the credentials,
    the expiry, the header and the token endpoint as they are. *)
Definition untouched {A : Type} (w : world) (m : M A) : Prop :=
  refreshes (trace_of (m w)) = false /\ same_credentials w (world_of (m w)).

(** The dict the caller gets back from a call: [_add_auth] writes into the
    caller's dict unless that is empty. *)
Definition kept_params (w : world) (params : gmap string json) : gmap string json :=
  if decide (params = ∅) then params else sent_params w params.

(** ** Pages *)

(** The worlds of a run that started in [w] and has not refreshed: [w]
    itself, and [w] in the course of its calls. *)
Inductive in_call (w : world) : world -> Prop :=
| in_call_start : in_call w w
| in_call_during sc t : in_call w (during w sc t).

(** A page as [read] sees it: the fields of the response, the rows it
    holds, and what the pagination block makes of the params when the page
    is not the last. *)
Record page : Type := {
  page_fields : list (string * json);
  page_rows : list json;
  page_next : gmap string json -> gmap string json
}.

(** The page has the rows, and [read] goes on after it, with the params
    [page_next] gives. *)
Definition continues (s : StreamAPI.stream) (pg : page) : Prop :=
  StreamAPI.container s (JObj (page_fields pg)) = Ok (page_rows pg)
  /\ forall params,
      StreamAPI.paginate s params (page_fields pg) = Ok (Some (page_next pg params)).

(** The page has the rows, and [read] stops after it. *)
Definition stops (s : StreamAPI.stream) (fields : list (string * json)) (rows : list json)
  : Prop :=
  StreamAPI.container s (JObj fields) = Ok rows
  /\ forall params, StreamAPI.paginate s params fields = Ok None.

(** The params of the requests for a sequence of pages, and the params left
    for the request after them. *)
Fixpoint page_calls (w : world) (pages : list page) (params : gmap string json)
  : list (gmap string json) :=
  match pages with
  | [] => []
  | pg :: pages' => params :: page_calls w pages' (page_next pg (kept_params w params))
  end.

Fixpoint after_pages (w : world) (pages : list page) (params : gmap string json)
  : gmap string json :=
  match pages with
  | [] => params
  | pg :: pages' => after_pages w pages' (page_next pg (kept_params w params))
  end.

(** The server's answers that carry the pages. *)
Definition page_responses (pages : list page) : list http_response :=
  (fun pg => {| status_code := 200; headers := [];
                content := ""; json_body := Some (JObj (page_fields pg)) |}) <$> pages.

(** A page of the cursor protocol, and one of the legacy protocol. *)
Definition cursor_page (fields : list (string * json)) (rows : list json) (after : json)
  : page :=
  {| page_fields := fields; page_rows := rows; page_next := insert "after" after |}.

Definition legacy_page (s : StreamAPI.stream) (fields : list (string * json))
    (rows : list json) (offset : json) : page :=
  {| page_fields := fields; page_rows := rows;
     page_next := insert (StreamAPI.page_filter s) offset |}.

Definition has_after (fields : list (string * json)) (after : json) : Prop :=
  exists paging next,
    assoc "paging" fields = Some (JObj paging)
    /\ assoc "next" paging = Some (JObj next)
    /\ assoc "after" next = Some after.

Definition has_more (s : StreamAPI.stream) (fields : list (string * json)) (offset : json)
  : Prop :=
  assoc "paging" fields = None
  /\ truthy (StreamAPI.more_flag s fields) = true
  /\ assoc (StreamAPI.page_field s) fields = Some offset.

(** Pages given by their fields, their rows and their continuation value. *)
Definition cursor_pages (l : list (list (string * json) * list json * json)) : list page :=
  (fun x => cursor_page x.1.1 x.1.2 x.2) <$> l.

Definition legacy_pages (s : StreamAPI.stream)
    (l : list (list (string * json) * list json * json)) : list page :=
  (fun x => legacy_page s x.1.1 x.1.2 x.2) <$> l.

(** ** The property schema *)

(** A row of the schema as [properties] reads it: an object with a string
    under [name] and something under [type]. *)
Definition schema_row (row : json) (name : string) : Prop :=
  exists fields ty,
    row = JObj fields /\ assoc "name" fields = Some (JStr name)
    /\ assoc "type" fields = Some ty.

(** The names of a list in the order of their first occurrence. *)
Definition add_name (ks : list string) (n : string) : list string :=
  if bool_decide (n ∈ ks) then ks else ks ++ [n].

Definition first_occurrences (names : list string) : list string :=
  foldl add_name [] names.

(** A dict of the schema whose keys are the strings [ks]. *)
Definition string_keyed (props : list (json * json)) (ks : list string) : Prop :=
  props.*1 = JStr <$> ks.

Definition properties_url (e : string) : string := "/properties/v2/" +:+ e +:+ "/properties".

(** ** The windows of [read_chunked] *)

(** The windows [read_chunked] announces in its log, in order. *)
Definition logged_chunks (t : list event) : list (Z * Z) :=
  omap (fun e => match e with Log (ReadingChunk a b) => Some (a, b) | _ => None end) t.

Definition no_chunk (e : event) : bool :=
  match e with Log (ReadingChunk _ _) => false | _ => true end.

(** The [i]-th window of [c] milliseconds from [a] on. *)
Definition nth_window (a c : Z) (i : nat) : Z * Z :=
  (a + Z.of_nat i * c, a + Z.of_nat i * c + c)%Z.

(** ** The [list] methods *)

(** The endpoints the [list] methods compute from a record. *)
Definition campaign_url (id : json) : string :=
  "/email/public/v1/campaigns/" +:+ Streams.py_str id.

Definition vids_url (company_id : json) : string :=
  "/companies/v2/companies/" +:+ Streams.py_str company_id +:+ "/vids".

(** The record [_contacts_by_company] makes of a contact of a company. *)
Definition contact_of (company_id row : json) : json :=
  JObj [("company-id", company_id); ("contact-id", row)].

(** [row] is an object whose [engagement] has the id [id]. *)
Definition engagement (row id : json) : Prop :=
  exists fields e,
    row = JObj fields /\ assoc "engagement" fields = Some e /\ py_getitem e "id" = Ok id.

(** [row'] is [row] with the id of its engagement under [engagement_id],
    and every other field as it was. *)
Definition tagged (row row' : json) : Prop :=
  exists fields fields' id,
    row = JObj fields /\ row' = JObj fields' /\ engagement row id
    /\ assoc "engagement_id" fields' = Some id
    /\ forall k, k <> "engagement_id" -> assoc k fields' = assoc k fields.

(** * Concrete inputs *)

(** A success response carrying a parsed body, a rate-limit response asking
    to retry after the given header value, and a bare response of any other
    status. *)
Definition ok_response (body : json) : http_response :=
  {| status_code := 200; headers := [("Content-Type", "application/json")];
     content := ""; json_body := Some body |}.

Definition rate_limited_response (retry_after : string) : http_response :=
  {| status_code := 429; headers := [("Retry-After", retry_after)];
     content := ""; json_body := None |}.

Definition status_response (status : Z) : http_response :=
  {| status_code := status; headers := []; content := "denied"; json_body := None |}.

(** A connector configured with a static API key, facing a server that will
    answer with [answers]. *)
Definition keyed_world (answers : list http_response) : world :=
  {| script := answers; token_script := []; clock := 1600000000000000;
     creds := {["api_key" := JStr "secret"]};
     token_expires := None; authorization := None |}.

(** A connector configured for OAuth. *)
Definition oauth_creds (access : option json) : gmap string json :=
  let c : gmap string json :=
    <["client_id" := JStr "id"]>
      (<["client_secret" := JStr "cs"]>
         (<["redirect_uri" := JStr "https://example.com"]>
            {["refresh_token" := JStr "r0"]})) in
  match access with
  | Some a => <["access_token" := a]> c
  | None => c
  end.

Definition oauth_world (access : option json) (expires : option expiry)
    (answers tokens : list http_response) : world :=
  {| script := answers; token_script := tokens; clock := 1600000000000000;
     creds := oauth_creds access; token_expires := expires; authorization := None |}.

(** A getter whose server gives the same answer to every request. *)
Definition repeating_getter (answer : json) : StreamAPI.getter :=
  fun params w => ([], Ok (params, answer), w).

(** Pages: the last one of a legacy endpoint, with a false "more" flag and a
    continuation field; one without the records container; one of a cursor
    endpoint that also carries legacy fields; a legacy one whose "more" flag
    is true and which has no continuation field; an empty one. *)
Definition last_legacy_page : json :=
  JObj [("campaigns", JArr [JNum 1; JNum 2]); ("hasMore", JBool false); ("offset", JNum 7)].

Definition page_without_container : json :=
  JObj [("status", JStr "error"); ("message", JStr "it's broken")].

Definition mixed_page : json :=
  JObj [("results", JArr [JNum 1]); ("hasMore", JBool false); ("offset", JNum 7);
        ("paging", JObj [("next", JObj [("after", JStr "X")])])].

Definition page_more_without_offset : json :=
  JObj [("campaigns", JArr [JNum 1]); ("hasMore", JBool true)].

Definition empty_events_page : json := JObj [("events", JArr [])].

Definition first_params : gmap string json :=
  <["properties" := JStr ""]> {["limit" := JNum 100]}.

(** The contacts stream, end to end: the server answers the schema lookup,
    then gives two pages. *)
Definition contacts_url : string := "/crm/v3/objects/contacts".

Definition contacts_server : list http_response :=
  [ok_response (JArr [JObj [("name", JStr "email"); ("type", JStr "string")];
                      JObj [("name", JStr "age"); ("type", JStr "number")]]);
   ok_response (JObj [("results", JArr [JStr "a"; JStr "b"]);
                      ("paging", JObj [("next", JObj [("after", JStr "X")])])]);
   ok_response (JObj [("results", JArr [JStr "c"])])].

Definition contacts_defaults : gmap string json :=
  <["properties" := JStr "email,age"]> {["limit" := JNum 100]}.

Definition contacts_params : gmap string json :=
  <["hapikey" := JStr "secret"]> ({["archived" := JStr "false"]} ∪ contacts_defaults).

(** A stored token that expired long ago, and a token endpoint that grants a
    new one. *)
Definition granted_token : http_response :=
  ok_response (JObj [("access_token", JStr "t1"); ("refresh_token", JStr "r1");
                     ("expires_in", JNum 21600)]).

Definition expired_world : world :=
  oauth_world (Some (JStr "t0")) (Some (ExpTime 1500000000000000)) [] [granted_token].

(** A server that answers 429 three times before it would answer 200, one
    that denies access, and one that answers 429 once. *)
Definition overloaded_server : list http_response :=
  [rate_limited_response "5"; rate_limited_response "2"; rate_limited_response "1";
   ok_response (JObj [("results", JArr [])])].

Definition denying_server : list http_response :=
  [status_response 403; ok_response (JObj [("results", JArr [])])].

Definition busy_server : list http_response :=
  [rate_limited_response "5"; ok_response (JObj [("results", JArr [JNum 1; JNum 2])])].

(** A token endpoint that refuses, and one that grants a token without a
    new refresh token. *)
Definition refused_world : world :=
  oauth_world (Some (JStr "t0")) (Some (ExpTime 1500000000000000)) [] [status_response 403].

Definition token_without_refresh : http_response :=
  ok_response (JObj [("access_token", JStr "t1"); ("expires_in", JNum 21600)]).

Definition torn_world : world :=
  oauth_world (Some (JStr "t0")) (Some (ExpTime 1500000000000000)) []
    [token_without_refresh].

(** A stored token that expired, and a token endpoint that grants one for
    300 seconds only. *)
Definition short_lived_token : http_response :=
  ok_response (JObj [("access_token", JStr "t1"); ("refresh_token", JStr "r1");
                     ("expires_in", JNum 300)]).

Definition short_lived_world : world :=
  oauth_world (Some (JStr "t0")) (Some (ExpTime 1500000000000000)) []
    [short_lived_token; granted_token].

(** A server that answers 429 twice and then 200. *)
Definition recovering_server : list http_response :=
  [rate_limited_response "5"; rate_limited_response "2";
   ok_response (JObj [("results", JArr [JNum 1])])].

(** Two pages of a cursor endpoint and two of a legacy endpoint, the second
    of each being the last. *)
Definition cursor_fields : list (string * json) :=
  [("results", JArr [JStr "a"; JStr "b"]);
   ("paging", JObj [("next", JObj [("after", JStr "X")])])].

Definition first_cursor_page : page :=
  cursor_page cursor_fields [JStr "a"; JStr "b"] (JStr "X").

Definition last_cursor_page : page :=
  {| page_fields := [("results", JArr [JStr "c"])]; page_rows := [JStr "c"];
     page_next := fun params => params |}.

Definition legacy_fields : list (string * json) :=
  [("campaigns", JArr [JNum 0]); ("hasMore", JBool true); ("offset", JNum 7)].

Definition last_campaigns_page : page :=
  {| page_fields := [("campaigns", JArr [JNum 1; JNum 2]); ("hasMore", JBool false);
                     ("offset", JNum 9)];
     page_rows := [JNum 1; JNum 2];
     page_next := fun params => params |}.

(** Pages at the edges of the pagination block. *)
Definition fields_with_empty_paging : list (string * json) :=
  [("events", JArr [JNum 1]); ("hasMore", JBool true); ("offset", JNum 7);
   ("paging", JObj [])].

Definition fields_with_empty_next : list (string * json) :=
  [("results", JArr [JNum 1]); ("paging", JObj [("next", JObj [])])].

Definition fields_with_null_container : list (string * json) :=
  [("status", JStr "ok"); ("results", JNull)].

(** Property schemas: a good one, and one whose second row has no type. *)
Definition contact_schema : list json :=
  [JObj [("name", JStr "email"); ("type", JStr "string")];
   JObj [("name", JStr "age"); ("type", JStr "number")]].

Definition broken_schema_row : list (string * json) := [("name", JStr "age")].

Definition broken_schema_server : list http_response :=
  [ok_response (JArr [JObj [("name", JStr "email"); ("type", JStr "string")];
                      JObj broken_schema_row])].

(** The servers of the [list] methods: forms, the contacts of a company,
    campaigns with their lookups, and engagements. *)
Definition forms_server : list http_response :=
  [ok_response (JArr [JObj [("guid", JStr "f1")]; JObj [("guid", JStr "f2")]])].

Definition vids_fields : list (string * json) := [("vids", JArr [JNum 5; JNum 6])].

Definition campaign_rows : list json := [JObj [("id", JNum 1)]; JObj [("id", JNum 2)]].

Definition campaign_index : list (string * json) :=
  [("campaigns", JArr campaign_rows); ("hasMore", JBool false)].

Definition campaign_lookups : list json :=
  [JObj [("id", JNum 1); ("name", JStr "spring")];
   JObj [("id", JNum 2); ("name", JStr "autumn")]].

Definition campaign_answers : list http_response := ok_response <$> campaign_lookups.

Definition campaigns_server : list http_response :=
  ok_response (JArr contact_schema) :: ok_response (JObj campaign_index) :: campaign_answers.

Definition engagement_rows_page : list json :=
  [JObj [("engagement", JObj [("id", JNum 11)]); ("note", JStr "call")]].

Definition engagements_page : list (string * json) :=
  [("results", JArr engagement_rows_page); ("hasMore", JBool false)].

Definition engagements_server : list http_response :=
  [ok_response (JArr contact_schema); ok_response (JObj engagements_page)].

(** A server that answers 429 once and then gives the two cursor pages; and
    servers whose 429 asks for a wait that [time.sleep] does not take. *)
Definition busy_pages_server : list http_response :=
  rate_limited_response "5" :: page_responses [first_cursor_page; last_cursor_page].

Definition impatient_server (retry_after : string) : list http_response :=
  [rate_limited_response retry_after; ok_response (JObj [("results", JArr [JNum 1; JNum 2])])].

(** * Properties *)

Import StreamAPI.

(** ** The Python primitives on small inputs *)

Example py_int_examples :
  py_int " 12_0 " = Some 120%Z /\ py_int "-7" = Some (-7)%Z /\ py_int "+3" = Some 3%Z
  /\ py_int "1__0" = None /\ py_int "" = None /\ py_int "Wed, 21 Oct 2015" = None.
Proof. repeat split; reflexivity. Qed.

Example py_int_blanks :
  py_int (String (ascii_of_nat 160) "5") = Some 5%Z
  /\ py_int (String "5" (String (ascii_of_nat 133) "")) = Some 5%Z
  /\ py_int (String (ascii_of_nat 28) "5") = None
  /\ py_int "- 5" = None /\ py_int "_5" = None /\ py_int "007" = Some 7%Z.
Proof. repeat split; reflexivity. Qed.

Example timestamp_ms_examples :
  timestamp_ms 1001000 = 1000%Z /\ timestamp_ms 1002000 = 1002%Z
  /\ timestamp_ms (-1001000) = (-1000)%Z /\ timestamp_ms 999 = 0%Z
  /\ timestamp_ms 1600000000123456 = 1600000000123%Z
  /\ timestamp_ms 253402300799999999 = 253402300800000%Z
  /\ timestamp_ms (-62135596800000000) = (-62135596800000)%Z.
Proof. repeat split; vm_compute; reflexivity. Qed.

Example time_sleep_examples :
  result_of (time_sleep 9223372036 (keyed_world [])) = Ok tt
  /\ result_of (time_sleep 9223372037 (keyed_world [])) = Raise OverflowError
  /\ result_of (time_sleep (-1) (keyed_world [])) = Raise ValueError
  /\ result_of (time_sleep (-9223372036) (keyed_world [])) = Raise ValueError
  /\ result_of (time_sleep (-9223372037) (keyed_world [])) = Raise OverflowError.
Proof. repeat split; reflexivity. Qed.

Example repr_keys_example :
  repr_keys ["results"; "paging"] = "dict_keys(['results', 'paging'])".
Proof. reflexivity. Qed.

Example header_is_case_insensitive :
  header "Retry-After" [("content-type", "text/html"); ("retry-after", "5")] = Some "5".
Proof. reflexivity. Qed.

Example py_range_examples :
  py_range 0 10 3 = Ok [0; 3; 6; 9]%Z /\ py_range 0 9 3 = Ok [0; 3; 6]%Z
  /\ py_range 5 5 1 = Ok [] /\ py_range 10 0 (-3) = Ok [10; 7; 4; 1]%Z
  /\ py_range 0 10 0 = Raise ValueError.
Proof. repeat split; reflexivity. Qed.

Example truthy_examples :
  truthy (JBool false) = false /\ truthy JNull = false /\ truthy (JNum 0) = false
  /\ truthy (JStr "") = false /\ truthy (JArr []) = false /\ truthy (JNum 7) = true.
Proof. repeat split; reflexivity. Qed.

(** The contacts stream against its server: the schema lookup and the two
    pages are three requests of the session; the rows come out in order. *)
Example contacts_end_to_end :
  let run := crm_list 2 (ContactsAPI 0) contacts_url false (keyed_world contacts_server) in
  requests (trace_of run)
  = [(GET, "https://api.hubapi.com/properties/v2/contact/properties");
     (GET, "https://api.hubapi.com/crm/v3/objects/contacts");
     (GET, "https://api.hubapi.com/crm/v3/objects/contacts")]
  /\ yielded (trace_of run) = [JStr "a"; JStr "b"; JStr "c"]
  /\ result_of run = Ok tt.
Proof. vm_compute. repeat split; reflexivity. Qed.

(** ** Running the monad *)

Lemma bind_ok {A B : Type} (m : M A) (f : A -> M B) w t a w1 :
  m w = (t, Ok a, w1) ->
  bind m f w = (t ++ trace_of (f a w1), result_of (f a w1), world_of (f a w1)).
Proof.
  intros Hm. unfold bind, trace_of, result_of, world_of. rewrite Hm.
  destruct (f a w1) as [[t' r] w2]. reflexivity.
Qed.

Lemma bind_raise {A B : Type} (m : M A) (f : A -> M B) w t e w1 :
  m w = (t, Raise e, w1) -> bind m f w = (t, Raise e, w1).
Proof. intros Hm. unfold bind. rewrite Hm. reflexivity. Qed.

Lemma run_eta {A : Type} (x : list event * result A * world) :
  x = (trace_of x, result_of x, world_of x).
Proof. destruct x as [[t r] w]. reflexivity. Qed.

(** ** The client makes no calls of getters and yields nothing *)

Lemma quiet_yielded t : forallb io_event t = true -> yielded t = [].
Proof.
  induction t as [|e t IH]; [reflexivity|]. cbn. intros [He Ht]%andb_prop.
  destruct e; try discriminate; cbn; auto.
Qed.

Lemma quiet_calls t : forallb io_event t = true -> calls t = [].
Proof.
  induction t as [|e t IH]; [reflexivity|]. cbn. intros [He Ht]%andb_prop.
  destruct e; try discriminate; cbn; auto.
Qed.

Lemma yielded_app t1 t2 : yielded (t1 ++ t2) = yielded t1 ++ yielded t2.
Proof. apply omap_app. Qed.

Lemma calls_app t1 t2 : calls (t1 ++ t2) = calls t1 ++ calls t2.
Proof. apply omap_app. Qed.

Lemma quiet_silent {A : Type} (f : world -> result A * world) :
  Quiet (fun w => ([], (f w).1, (f w).2)).
Proof. intros w. reflexivity. Qed.

Lemma quiet_ret {A : Type} (a : A) : Quiet (ret a).
Proof. intros w. reflexivity. Qed.

Lemma quiet_raise {A : Type} (e : exn) : Quiet (@raise A e).
Proof. intros w. reflexivity. Qed.

Lemma quiet_lift {A : Type} (r : result A) : Quiet (lift r).
Proof. intros w. reflexivity. Qed.

Lemma quiet_emit e : io_event e = true -> Quiet (emit e).
Proof. intros He w. cbn. rewrite He. reflexivity. Qed.

Lemma quiet_bind {A B : Type} (m : M A) (f : A -> M B) :
  Quiet m -> (forall a, Quiet (f a)) -> Quiet (bind m f).
Proof.
  intros Hm Hf w. specialize (Hm w). unfold bind.
  destruct (m w) as [[t r] w1]. cbn in Hm. destruct r as [a| |]; cbn; auto.
  specialize (Hf a w1). destruct (f a w1) as [[t' r'] w2]. cbn in *.
  rewrite forallb_app, Hm, Hf. reflexivity.
Qed.

Lemma quiet_catch {A : Type} (m : M A) handles (h : exn -> M A) :
  Quiet m -> (forall e, Quiet (h e)) -> Quiet (catch m handles h).
Proof.
  intros Hm Hh w. specialize (Hm w). unfold catch.
  destruct (m w) as [[t r] w1]. cbn in Hm. destruct r as [a|e|]; cbn; auto.
  destruct (handles e); cbn; auto.
  specialize (Hh e w1). destruct (h e w1) as [[t' r'] w2]. cbn in *.
  rewrite forallb_app, Hm, Hh. reflexivity.
Qed.

Lemma quiet_time_sleep secs : Quiet (time_sleep secs).
Proof.
  intros w. unfold time_sleep.
  destruct (_ || _); [reflexivity|]. destruct (secs <? 0)%Z; reflexivity.
Qed.

Lemma quiet_session_send : Quiet session_send.
Proof. intros w. unfold session_send. destruct (script w); reflexivity. Qed.

Lemma quiet_token_send : Quiet token_send.
Proof. intros w. unfold token_send. destruct (token_script w); reflexivity. Qed.

Lemma quiet_cred_item k : Quiet (API.cred_item k).
Proof. intros w. unfold API.cred_item. destruct (creds w !! k); reflexivity. Qed.

Lemma quiet_refresh_due : Quiet API.refresh_due.
Proof.
  intros w. unfold API.refresh_due.
  destruct (token_expires w) as [[[]|]|]; reflexivity.
Qed.

Create HintDb quiet.

#[local] Hint Resolve quiet_ret quiet_raise quiet_lift quiet_time_sleep
  quiet_session_send quiet_token_send quiet_cred_item quiet_refresh_due : quiet.

Ltac quiet_step :=
  lazymatch goal with
  | |- Quiet (bind _ _) => apply quiet_bind; [|intros ?]
  | |- Quiet (catch _ _ _) => apply quiet_catch; [|intros ?]
  | |- Quiet (emit _) => apply quiet_emit; reflexivity
  | |- Quiet (if ?b then _ else _) => destruct b
  | |- Quiet (match ?x with _ => _ end) => destruct x
  | |- _ => first [solve [auto with quiet] | solve [intros ?; reflexivity]]
  end.

Ltac quiet := repeat quiet_step.

Lemma quiet_acquire : Quiet API._acquire_access_token_from_refresh_token.
Proof. unfold API._acquire_access_token_from_refresh_token. quiet. Qed.

Lemma quiet_access_token : Quiet API.access_token.
Proof.
  unfold API.access_token, API.cred_get. pose proof quiet_acquire. quiet.
Qed.

Lemma quiet_add_auth params : Quiet (API._add_auth params).
Proof.
  unfold API._add_auth, API.api_key, API.cred_get, set_authorization.
  pose proof quiet_access_token. quiet.
Qed.

Lemma quiet_exchange m url data params : Quiet (API.exchange m url data params).
Proof.
  unfold API.exchange, session_authorization. pose proof (quiet_add_auth params). quiet.
Qed.

Lemma quiet_sleep_on_ratelimit e : Quiet (sleep_on_ratelimit e).
Proof. unfold sleep_on_ratelimit. quiet. Qed.

Lemma quiet_on_exception {A : Type} fuel interval max_tries tries (target : M A) :
  Quiet target -> Quiet (on_exception fuel interval max_tries tries target).
Proof.
  intros Ht. revert tries.
  induction fuel as [|fuel IH]; intros tries; cbn [on_exception];
    pose proof quiet_sleep_on_ratelimit; unfold log_giveup; quiet.
Qed.

Lemma quiet_get url params : Quiet (API.get url params).
Proof. apply quiet_on_exception, quiet_exchange. Qed.

Lemma quiet_post url data params : Quiet (API.post url data params).
Proof. apply quiet_exchange. Qed.

Lemma quiet_default_params s : Quiet (default_params s).
Proof.
  unfold default_params, properties. pose proof quiet_get. quiet.
Qed.

Lemma default_params_without_entity s w :
  entity s = None ->
  default_params s w
  = ([], Ok (<["properties" := JStr ""]> {["limit" := JNum (limit s)]}), w).
Proof. intros He. unfold default_params, properties. rewrite He. reflexivity. Qed.

(** ** The loop of [read] *)

Section Round.
Context (s : stream) (g : getter).

(** A round whose response passes the container check and whose pagination
    block decides [next]. *)
Lemma round_ok params w t1 params' fields w1 rows next :
  g params w = (t1, Ok (params', JObj fields), w1) ->
  container s (JObj fields) = Ok rows ->
  paginate s params' fields = Ok next ->
  round s g params w = (Call params :: t1 ++ (Yield <$> rows), Ok next, w1).
Proof.
  intros Hg Hc Hp. unfold round.
  rewrite (bind_ok _ _ w [Call params] tt w) by reflexivity.
  rewrite (bind_ok _ _ w t1 (params', JObj fields) w1) by exact Hg.
  cbn [fst snd]. rewrite Hc, Hp. cbn.
  rewrite app_nil_r. reflexivity.
Qed.

Lemma read_loop_stop fuel params w t w1 :
  round s g params w = (t, Ok None, w1) ->
  read_loop (S fuel) s g params w = (t, Ok tt, w1).
Proof.
  intros Hr. cbn [read_loop]. rewrite (bind_ok _ _ _ _ _ _ Hr). cbn.
  rewrite app_nil_r. reflexivity.
Qed.

Lemma read_loop_continue fuel params w t params' w1 :
  round s g params w = (t, Ok (Some params'), w1) ->
  read_loop (S fuel) s g params w =
    (t ++ trace_of (read_loop fuel s g params' w1),
     result_of (read_loop fuel s g params' w1),
     world_of (read_loop fuel s g params' w1)).
Proof. intros Hr. cbn [read_loop]. rewrite (bind_ok _ _ _ _ _ _ Hr). reflexivity. Qed.

Lemma read_loop_raise fuel params w t e w1 :
  round s g params w = (t, Raise e, w1) ->
  read_loop (S fuel) s g params w = (t, Raise e, w1).
Proof. intros Hr. cbn [read_loop]. apply bind_raise, Hr. Qed.

(** The last round of a legacy endpoint. *)
Lemma legacy_last_round fuel params w t1 params' fields w1 rows :
  g params w = (t1, Ok (params', JObj fields), w1) ->
  container s (JObj fields) = Ok rows ->
  assoc "paging" fields = None ->
  truthy (more_flag s fields) = false ->
  read_loop (S fuel) s g params w = (Call params :: t1 ++ (Yield <$> rows), Ok tt, w1).
Proof.
  intros Hg Hc Hpaging Hmore.
  apply read_loop_stop, (round_ok _ _ _ _ _ _ _ None Hg Hc).
  unfold paginate. rewrite Hpaging, Hmore. reflexivity.
Qed.

(** Every round opens with one call of the getter, on the params of the
    round. *)
Lemma round_calls_first params w :
  exists rest, trace_of (round s g params w) = Call params :: rest.
Proof.
  unfold round. rewrite (bind_ok _ _ w [Call params] tt w) by reflexivity.
  eexists. reflexivity.
Qed.
End Round.

(** ** The pagination engine *)

Section Pagination.
Context (s : stream) (g : getter).

(** C8: under the legacy protocol (a response without [paging]) a false or
    absent "more" flag ends the read after the rows of that page, whatever
    else the response holds, a continuation field included. *)
Theorem C8_legacy_more_false_stops fuel params w t1 params' fields w1 rows :
  g params w = (t1, Ok (params', JObj fields), w1) ->
  container s (JObj fields) = Ok rows ->
  assoc "paging" fields = None ->
  truthy (more_flag s fields) = false ->
  read_loop (S fuel) s g params w = (Call params :: t1 ++ (Yield <$> rows), Ok tt, w1).
Proof.
  intros Hg Hc Hpaging Hmore.
  exact (legacy_last_round s g fuel _ _ _ _ _ _ _ Hg Hc Hpaging Hmore).
Qed.

(** C9: a response without the records container makes [read] raise the
    [RuntimeError] whose message names the missing key and lists the keys
    the response has; nothing of that response is yielded. *)
Theorem C9_missing_container_raises fuel params w t1 params' fields w1 :
  g params w = (t1, Ok (params', JObj fields), w1) ->
  assoc (data_path s) fields = None ->
  read_loop (S fuel) s g params w =
    (Call params :: t1,
     Raise (RuntimeError ("Unexpected API response: " +:+ data_path s +:+ " not in "
                          +:+ "dict_keys([" +:+ join ", " (py_repr <$> keys fields) +:+ "])")),
     w1).
Proof.
  intros Hg Hmissing. apply read_loop_raise. unfold round.
  rewrite (bind_ok _ _ w [Call params] tt w) by reflexivity.
  rewrite (bind_ok _ _ w t1 (params', JObj fields) w1) by exact Hg.
  cbn [fst snd container]. rewrite Hmissing. cbn. rewrite app_nil_r. reflexivity.
Qed.

(** C2: a response with [paging.next.after] makes the engine put that value
    under [after] and go round once more, whatever legacy fields the
    response also carries: the pagination block decides to continue with
    the updated params, the run goes on as the loop on those params, and
    that loop opens with one request carrying them. *)
Theorem C2_cursor_after_continues fuel params w t1 params' fields w1 rows
    paging next after :
  g params w = (t1, Ok (params', JObj fields), w1) ->
  container s (JObj fields) = Ok rows ->
  assoc "paging" fields = Some (JObj paging) ->
  assoc "next" paging = Some (JObj next) ->
  assoc "after" next = Some after ->
  paginate s params' fields = Ok (Some (<["after" := after]> params')) /\
  read_loop (S fuel) s g params w =
    ((Call params :: t1 ++ (Yield <$> rows))
       ++ trace_of (read_loop fuel s g (<["after" := after]> params') w1),
     result_of (read_loop fuel s g (<["after" := after]> params') w1),
     world_of (read_loop fuel s g (<["after" := after]> params') w1)) /\
  (forall n, exists rest,
      trace_of (read_loop (S n) s g (<["after" := after]> params') w1)
      = Call (<["after" := after]> params') :: rest).
Proof.
  intros Hg Hc Hpaging Hnext Hafter.
  assert (Hp : paginate s params' fields = Ok (Some (<["after" := after]> params'))).
  { unfold paginate. rewrite Hpaging. cbn. rewrite Hnext. cbn. rewrite Hafter.
    reflexivity. }
  split; [exact Hp|]. split.
  - apply read_loop_continue, (round_ok s g _ _ _ _ _ _ _ _ Hg Hc Hp).
  - intros n. cbn [read_loop].
    destruct (round_calls_first s g (<["after" := after]> params') w1) as [rest Hrest].
    destruct (round s g (<["after" := after]> params') w1) as [[t r] w2] eqn:Hround.
    cbn in Hrest. subst t. destruct r as [next'| |].
    + rewrite (bind_ok _ _ _ _ _ _ Hround). eexists. reflexivity.
    + rewrite (bind_raise _ _ _ _ _ _ Hround). eexists. reflexivity.
    + unfold bind. rewrite Hround. eexists. reflexivity.
Qed.

(** The legacy branch with a true "more" flag and no continuation field:
    the pagination block does not break, it goes round again on the params
    as they are. *)
Lemma legacy_more_without_continuation fuel params w t1 params' fields w1 rows :
  g params w = (t1, Ok (params', JObj fields), w1) ->
  container s (JObj fields) = Ok rows ->
  assoc "paging" fields = None ->
  truthy (more_flag s fields) = true ->
  assoc (page_field s) fields = None ->
  read_loop (S fuel) s g params w =
    ((Call params :: t1 ++ (Yield <$> rows)) ++ trace_of (read_loop fuel s g params' w1),
     result_of (read_loop fuel s g params' w1),
     world_of (read_loop fuel s g params' w1)).
Proof.
  intros Hg Hc Hpaging Hmore Hfield.
  apply read_loop_continue, (round_ok s g _ _ _ _ _ _ _ _ Hg Hc).
  unfold paginate. rewrite Hpaging, Hmore, Hfield. reflexivity.
Qed.
End Pagination.

Lemma C8_legacy_more_false_stops_witness :
  read_loop 1 (CampaignsAPI 0) (repeating_getter last_legacy_page) first_params (keyed_world [])
  = ([Call first_params; Yield (JNum 1); Yield (JNum 2)], Ok tt, keyed_world []).
Proof.
  apply (C8_legacy_more_false_stops (CampaignsAPI 0) (repeating_getter last_legacy_page)
           0 first_params (keyed_world []) [] first_params
           [("campaigns", JArr [JNum 1; JNum 2]); ("hasMore", JBool false); ("offset", JNum 7)]
           (keyed_world []) [JNum 1; JNum 2]); reflexivity.
Defined.

Lemma C9_missing_container_raises_witness :
  read_loop 1 (CampaignsAPI 0) (repeating_getter page_without_container) first_params
    (keyed_world [])
  = ([Call first_params],
     Raise (RuntimeError
              ("Unexpected API response: campaigns not in dict_keys(['status', 'message'])")),
     keyed_world []).
Proof.
  apply (C9_missing_container_raises (CampaignsAPI 0) (repeating_getter page_without_container)
           0 first_params (keyed_world []) [] first_params
           [("status", JStr "error"); ("message", JStr "it's broken")]
           (keyed_world [])); reflexivity.
Defined.

Lemma C2_cursor_after_continues_witness :
  paginate (EngagementsAPI 0) first_params
    [("results", JArr [JNum 1]); ("hasMore", JBool false); ("offset", JNum 7);
     ("paging", JObj [("next", JObj [("after", JStr "X")])])]
  = Ok (Some (<["after" := JStr "X"]> first_params)).
Proof.
  apply (C2_cursor_after_continues (EngagementsAPI 0) (repeating_getter mixed_page)
           0 first_params (keyed_world []) [] first_params
           [("results", JArr [JNum 1]); ("hasMore", JBool false); ("offset", JNum 7);
            ("paging", JObj [("next", JObj [("after", JStr "X")])])]
           (keyed_world []) [JNum 1]
           [("next", JObj [("after", JStr "X")])] [("after", JStr "X")] (JStr "X"));
    reflexivity.
Defined.

(** C1: a legacy page whose "more" flag is true and which has no
    continuation field does not stop [read].  Against a server that keeps
    giving that page, [read] asks again with the same params in every round
    and never leaves the loop: whatever the number of rounds granted, it has
    used them all, each on the same request. *)
Theorem C1_more_without_continuation_never_stops (rounds : nat) params w :
  read_loop rounds (CampaignsAPI 0) (repeating_getter page_more_without_offset) params w
  = (concat (replicate rounds [Call params; Yield (JNum 1)]), OutOfFuel, w).
Proof.
  induction rounds as [|rounds IH]; [reflexivity|].
  rewrite (legacy_more_without_continuation (CampaignsAPI 0) _ rounds params w [] params
             [("campaigns", JArr [JNum 1]); ("hasMore", JBool true)] w [JNum 1]);
    try reflexivity.
  rewrite IH. reflexivity.
Qed.

(** Two pages under the cursor protocol, for any getter: the first response
    holds rows [a], [b] and [paging.next.after = X], the response to the
    call with [after = X] holds row [c] and no [paging]. *)
Lemma two_cursor_pages (s : stream) (g : getter) fuel params w
    a b c X t0 dp w0 t1 p1 w1 t2 p2 w2 :
  data_path s = "results" ->
  more_key s = None ->
  default_params s w = (t0, Ok dp, w0) ->
  g (merge_params params dp) w0
    = (t1, Ok (p1, JObj [("results", JArr [a; b]);
                         ("paging", JObj [("next", JObj [("after", X)])])]), w1) ->
  g (<["after" := X]> p1) w1 = (t2, Ok (p2, JObj [("results", JArr [c])]), w2) ->
  forallb io_event (t1 ++ t2) = true ->
  read (S (S fuel)) s g params w
    = (t0 ++ (Call (merge_params params dp) :: t1 ++ [Yield a; Yield b])
          ++ (Call (<["after" := X]> p1) :: t2 ++ [Yield c]),
       Ok tt, w2)
  /\ yielded (trace_of (read (S (S fuel)) s g params w)) = [a; b; c]
  /\ calls (trace_of (read (S (S fuel)) s g params w))
     = [merge_params params dp; <["after" := X]> p1]
  /\ (entity s = None -> t0 = []).
Proof.
  intros Hpath Hmore Hdp Hg1 Hg2 Hio.
  rewrite forallb_app in Hio. apply andb_prop in Hio as [Hio1 Hio2].
  pose proof (quiet_default_params s w) as Hio0. rewrite Hdp in Hio0. cbn in Hio0.
  assert (Hrun : read (S (S fuel)) s g params w
    = (t0 ++ (Call (merge_params params dp) :: t1 ++ [Yield a; Yield b])
          ++ (Call (<["after" := X]> p1) :: t2 ++ [Yield c]),
       Ok tt, w2)).
  { unfold read. rewrite (bind_ok _ _ _ _ _ _ Hdp).
    assert (H2 : read_loop (S fuel) s g (<["after" := X]> p1) w1
                 = (Call (<["after" := X]> p1) :: t2 ++ (Yield <$> [c]), Ok tt, w2)).
    { apply (legacy_last_round s g fuel _ _ _ _ _ _ _ Hg2).
      - unfold container. cbn. rewrite Hpath. reflexivity.
      - reflexivity.
      - unfold more_flag. rewrite Hmore. reflexivity. }
    rewrite (read_loop_continue s g (S fuel) _ _
               (Call (merge_params params dp) :: t1 ++ (Yield <$> [a; b]))
               (<["after" := X]> p1) w1).
    - rewrite H2. reflexivity.
    - apply (round_ok s g _ _ _ _ _ _ _ _ Hg1).
      + unfold container. cbn. rewrite Hpath. reflexivity.
      + reflexivity. }
  split; [exact Hrun|]. rewrite Hrun. unfold trace_of. cbn [fst].
  split.
  - rewrite !yielded_app. cbn. rewrite !yielded_app.
    rewrite (quiet_yielded _ Hio0), (quiet_yielded _ Hio1), (quiet_yielded _ Hio2).
    reflexivity.
  - split.
    + rewrite !calls_app. cbn. rewrite !calls_app.
      rewrite (quiet_calls _ Hio0), (quiet_calls _ Hio1), (quiet_calls _ Hio2).
      reflexivity.
    + intros Hentity. rewrite (default_params_without_entity s w Hentity) in Hdp.
      congruence.
Qed.

(** ** Authentication without refresh *)

Lemma add_auth_settled deadline w params :
  settled deadline w = true -> (clock w <= deadline)%Z ->
  API._add_auth params w
  = ([], Ok (sent_params w params), during w (script w) (clock w)).
Proof.
  intros Hs Hc. destruct w as [sc tsc clk c te au].
  unfold during, sent_params, sent_header, settled, bearer, static_key in *. cbn in *.
  unfold API._add_auth, API.api_key, API.cred_get, bind. cbn.
  destruct (API.opt_truthy (c !! "api_key")) eqn:Hk; cbn.
  - reflexivity.
  - unfold API.access_token, API.cred_get, bind. cbn.
    destruct (API.opt_truthy (c !! "access_token")) eqn:Ht; cbn; [|reflexivity].
    destruct te as [[j|e]|]; try discriminate. cbn in *.
    apply Z.leb_le in Hs.
    replace (e <? clk)%Z with false by (symmetry; apply Z.ltb_ge; lia).
    cbn. reflexivity.
Qed.

Lemma add_auth_during deadline w sc t params :
  settled deadline w = true -> (t <= deadline)%Z ->
  API._add_auth params (during w sc t) = ([], Ok (sent_params w params), during w sc t).
Proof.
  intros Hs Hc.
  rewrite (add_auth_settled deadline) by (try exact Hc; exact Hs).
  unfold during, sent_params, sent_header, bearer, static_key. cbn.
  destruct (API.opt_truthy (creds w !! "api_key")); reflexivity.
Qed.

Lemma exchange_with_auth m url data params u sent u1 r rest :
  API._add_auth params u = ([], Ok sent, u1) ->
  script u1 = r :: rest ->
  API.exchange m url data params u
  = ([Request m (API.BASE_URL +:+ url) sent data (authorization u1)],
     rbind (API._parse_and_handle_errors r) (fun body =>
       Ok (if decide (params = ∅) then params else sent, body)),
     with_script rest u1).
Proof.
  intros Ha Hsc. unfold API.exchange.
  rewrite (bind_ok _ _ _ _ _ _ Ha). cbn [app].
  unfold session_authorization, emit, session_send, bind. rewrite Hsc.
  destruct (API._parse_and_handle_errors r) as [body|e|]; reflexivity.
Qed.

Lemma exchange_first deadline m url data params w r rest :
  settled deadline w = true -> (clock w <= deadline)%Z ->
  script w = r :: rest ->
  API.exchange m url data params w
  = ([sent_request w m url data params], classified w params r, during w rest (clock w)).
Proof.
  intros Hs Hc Hsc.
  rewrite (exchange_with_auth m url data params w _ _ r rest
             (add_auth_settled deadline w params Hs Hc)) by exact Hsc.
  reflexivity.
Qed.

Lemma exchange_during deadline m url data params w t r rest :
  settled deadline w = true -> (t <= deadline)%Z ->
  API.exchange m url data params (during w (r :: rest) t)
  = ([sent_request w m url data params], classified w params r, during w rest t).
Proof.
  intros Hs Hc.
  rewrite (exchange_with_auth m url data params _ _ _ r rest
             (add_auth_during deadline w (r :: rest) t params Hs Hc)) by reflexivity.
  reflexivity.
Qed.

Lemma slept_during s w sc t : slept s (during w sc t) = during w sc (t + s * 1000000).
Proof. reflexivity. Qed.

(** ** The retry loop *)

(** A sleep of a length [time.sleep] takes. *)
Lemma time_sleep_ok secs u :
  (0 <= secs <= sleep_max)%Z ->
  time_sleep secs u = ([Sleep secs], Ok tt, with_clock (clock u + secs * 1000000) u).
Proof.
  intros Hsecs. unfold time_sleep.
  destruct (Z.ltb_spec secs (- sleep_max)); [unfold sleep_max in *; lia|].
  destruct (Z.ltb_spec sleep_max secs); [lia|].
  destruct (Z.ltb_spec secs 0); [lia|]. reflexivity.
Qed.

Section Retry.
Context {A : Type} (target : M A).

(** An outcome other than a rate-limit failure leaves the loop at once. *)
Lemma on_exception_pass fuel interval max_tries tries w t r w1 :
  target w = (t, r, w1) ->
  (forall e, r = Raise e -> is_rate_limited e = false) ->
  on_exception fuel interval max_tries tries target w = (t, r, w1).
Proof.
  intros Ht Hr. destruct fuel; cbn [on_exception]; unfold catch; rewrite Ht;
    (destruct r as [a|e|]; [reflexivity| |reflexivity]);
    rewrite (Hr e eq_refl); reflexivity.
Qed.

(** A rate-limit failure on the last attempt: the give-up handler, then
    the failure itself. *)
Lemma on_exception_giveup fuel interval max_tries w t msg resp w1 :
  target w = (t, Raise (HubspotRateLimited msg resp), w1) ->
  on_exception fuel interval max_tries max_tries target w
  = (t ++ [Log MaxRetryReached], Raise (HubspotRateLimited msg resp), w1).
Proof.
  intros Ht. destruct fuel; cbn [on_exception]; unfold catch; rewrite Ht;
    cbn [is_rate_limited]; rewrite Nat.eqb_refl; reflexivity.
Qed.

(** A rate-limit failure on an earlier attempt: sleep one second more than
    the server asked, then the interval, then try again. *)
Lemma on_exception_again fuel interval max_tries tries w t msg resp w1 v retry_after :
  target w = (t, Raise (HubspotRateLimited msg resp), w1) ->
  tries <> max_tries ->
  header "Retry-After" (headers resp) = Some v ->
  py_int v = Some retry_after ->
  (0 <= retry_after + 1 <= sleep_max)%Z -> (0 <= interval <= sleep_max)%Z ->
  let w2 := slept interval (slept (retry_after + 1) w1) in
  on_exception (S fuel) interval max_tries tries target w
  = (t ++ [Log (RateLimitSleep retry_after); Sleep (retry_after + 1); Sleep interval]
       ++ trace_of (on_exception fuel interval max_tries (S tries) target w2),
     result_of (on_exception fuel interval max_tries (S tries) target w2),
     world_of (on_exception fuel interval max_tries (S tries) target w2)).
Proof.
  intros Ht Hne Hh Hv Hra Hi w2. cbn [on_exception]. unfold catch. rewrite Ht.
  cbn [is_rate_limited]. apply Nat.eqb_neq in Hne. rewrite Hne.
  unfold sleep_on_ratelimit. rewrite Hh, Hv.
  unfold bind, emit. rewrite !time_sleep_ok by assumption.
  subst w2. unfold slept.
  match goal with
  | |- context [on_exception fuel interval max_tries (S tries) target ?u] =>
      destruct (on_exception fuel interval max_tries (S tries) target u) as [[t' r'] w3]
  end.
  reflexivity.
Qed.
End Retry.

(** ** Classification of responses *)

Lemma parse_429 r :
  status_code r = 429%Z ->
  API._parse_and_handle_errors r = Raise (HubspotRateLimited (API.rate_limit_message r) r).
Proof. intros H. unfold API._parse_and_handle_errors. rewrite H. reflexivity. Qed.

Lemma parse_403 r :
  status_code r = 403%Z ->
  API._parse_and_handle_errors r = Raise (HubspotSourceUnavailable (content r)).
Proof. intros H. unfold API._parse_and_handle_errors. rewrite H. reflexivity. Qed.

Lemma parse_other_error r :
  status_code r <> 403%Z -> status_code r <> 429%Z ->
  (400 <= status_code r < 600)%Z ->
  API._parse_and_handle_errors r = Raise (HTTPError (status_code r)).
Proof.
  intros H1 H2 H3. unfold API._parse_and_handle_errors, API.raise_for_status.
  apply Z.eqb_neq in H1, H2. rewrite H1, H2.
  replace (400 <=? status_code r)%Z with true by (symmetry; apply Z.leb_le; lia).
  replace (status_code r <? 600)%Z with true by (symmetry; apply Z.ltb_lt; lia).
  reflexivity.
Qed.

Lemma parse_200 r body :
  status_code r = 200%Z -> json_body r = Some body ->
  API._parse_and_handle_errors r = Ok body.
Proof.
  intros H Hb. unfold API._parse_and_handle_errors, API.raise_for_status, API.response_json.
  rewrite H, Hb. reflexivity.
Qed.

(** Only a 429 is classified as a rate-limit failure. *)
Lemma rate_limited_only_429 r e :
  status_code r <> 429%Z ->
  API._parse_and_handle_errors r = Raise e -> is_rate_limited e = false.
Proof.
  intros H. unfold API._parse_and_handle_errors, API.raise_for_status, API.response_json.
  apply Z.eqb_neq in H. rewrite H.
  destruct (status_code r =? 403)%Z; [intros [= <-]; reflexivity|].
  destruct ((400 <=? status_code r)%Z && (status_code r <? 600)%Z); cbn.
  - intros [= <-]. reflexivity.
  - destruct (json_body r); [discriminate|]. intros [= <-]. reflexivity.
Qed.

Lemma classified_raise w params r e :
  API._parse_and_handle_errors r = Raise e -> classified w params r = Raise e.
Proof. intros H. unfold classified. rewrite H. reflexivity. Qed.

(** ** The backoff controller on [get] and [post] *)

(** C6, as the code has it: a GET that is answered 429 on every attempt,
    the first two carrying a [Retry-After] that [int] reads as [n] with
    [n + 1] a length [time.sleep] takes, fails with the rate-limit error of
    the third response after exactly three requests, and the server is not
    asked again.  A first response with status 403 raises
    [HubspotSourceUnavailable], one with another status from 400 to 599 the
    HTTP error of [raise_for_status], and so does any other failure of the
    first response: after that one request, without sleep or retry. *)
Theorem C6_budget_of_three_with_retry_after url params w deadline r1 rest1 :
  settled deadline w = true ->
  (clock w <= deadline)%Z ->
  script w = r1 :: rest1 ->
  (forall r2 r3 rest v1 v2 n1 n2,
      rest1 = r2 :: r3 :: rest ->
      status_code r1 = 429%Z -> status_code r2 = 429%Z -> status_code r3 = 429%Z ->
      header "Retry-After" (headers r1) = Some v1 -> py_int v1 = Some n1 ->
      header "Retry-After" (headers r2) = Some v2 -> py_int v2 = Some n2 ->
      (0 <= n1 + 1 <= sleep_max)%Z -> (0 <= n2 + 1 <= sleep_max)%Z ->
      (clock w + (n1 + 1) * 1000000 + (n2 + 1) * 1000000 <= deadline)%Z ->
      API.get url params w
      = ([sent_request w GET url None params;
          Log (RateLimitSleep n1); Sleep (n1 + 1); Sleep 0;
          sent_request w GET url None params;
          Log (RateLimitSleep n2); Sleep (n2 + 1); Sleep 0;
          sent_request w GET url None params;
          Log MaxRetryReached],
         Raise (HubspotRateLimited (API.rate_limit_message r3) r3),
         during w rest
           (clock w + (n1 + 1) * 1000000 + 0 * 1000000
            + (n2 + 1) * 1000000 + 0 * 1000000)))
  /\ (status_code r1 = 403%Z ->
      API.get url params w
      = ([sent_request w GET url None params],
         Raise (HubspotSourceUnavailable (content r1)), during w rest1 (clock w)))
  /\ ((400 <= status_code r1 < 600)%Z ->
      status_code r1 <> 403%Z -> status_code r1 <> 429%Z ->
      API.get url params w
      = ([sent_request w GET url None params],
         Raise (HTTPError (status_code r1)), during w rest1 (clock w)))
  /\ (forall e,
      status_code r1 <> 429%Z ->
      API._parse_and_handle_errors r1 = Raise e ->
      API.get url params w
      = ([sent_request w GET url None params], Raise e, during w rest1 (clock w))).
Proof.
  intros Hs Hc Hsc.
  assert (Hother : forall e,
             status_code r1 <> 429%Z ->
             API._parse_and_handle_errors r1 = Raise e ->
             API.get url params w
             = ([sent_request w GET url None params], Raise e, during w rest1 (clock w))).
  { intros e Hne He. unfold API.get, retry_after_handler.
    apply on_exception_pass.
    + rewrite (exchange_first deadline _ _ _ _ _ _ _ Hs Hc Hsc).
      rewrite (classified_raise _ _ _ _ He). reflexivity.
    + intros e' [= <-]. exact (rate_limited_only_429 _ _ Hne He). }
  split; [|split; [|split; [|exact Hother]]].
  - intros r2 r3 rest v1 v2 n1 n2 -> H1 H2 H3 Hh1 Hv1 Hh2 Hv2 Hn1 Hn2 Hd.
    set (t2 := (clock w + (n1 + 1) * 1000000 + 0 * 1000000)%Z).
    set (t3 := (t2 + (n2 + 1) * 1000000 + 0 * 1000000)%Z).
    assert (E1 : API.exchange GET url None params w
                 = ([sent_request w GET url None params],
                    Raise (HubspotRateLimited (API.rate_limit_message r1) r1),
                    during w (r2 :: r3 :: rest) (clock w))).
    { rewrite (exchange_first deadline _ _ _ _ _ _ _ Hs Hc Hsc).
      rewrite (classified_raise _ _ _ _ (parse_429 r1 H1)). reflexivity. }
    assert (E2 : API.exchange GET url None params (during w (r2 :: r3 :: rest) t2)
                 = ([sent_request w GET url None params],
                    Raise (HubspotRateLimited (API.rate_limit_message r2) r2),
                    during w (r3 :: rest) t2)).
    { rewrite (exchange_during deadline) by (try exact Hs; subst t2; lia).
      rewrite (classified_raise _ _ _ _ (parse_429 r2 H2)). reflexivity. }
    assert (E3 : API.exchange GET url None params (during w (r3 :: rest) t3)
                 = ([sent_request w GET url None params],
                    Raise (HubspotRateLimited (API.rate_limit_message r3) r3),
                    during w rest t3)).
    { rewrite (exchange_during deadline) by (try exact Hs; subst t3 t2; lia).
      rewrite (classified_raise _ _ _ _ (parse_429 r3 H3)). reflexivity. }
    assert (Hzero : (0 <= 0 <= sleep_max)%Z) by (unfold sleep_max; lia).
    unfold API.get, retry_after_handler.
    rewrite (on_exception_again _ 2 0 3 1 w _ _ r1 _ v1 n1 E1) by (assumption || lia).
    rewrite !slept_during. fold t2.
    rewrite (on_exception_again _ 1 0 3 2 _ _ _ r2 _ v2 n2 E2) by (assumption || lia).
    rewrite !slept_during. fold t3.
    rewrite (on_exception_giveup _ 1 0 3 _ _ _ r3 _ E3).
    reflexivity.
  - intros H403. apply Hother; [lia|]. apply parse_403, H403.
  - intros Hrange H403 H429. apply Hother; [exact H429|].
    apply parse_other_error; assumption.
Qed.

(** The backoff handler reads the header with [headers["Retry-After"]]: a
    429 without it ends the call with that [KeyError], after one request. *)
Lemma get_429_without_retry_after url params w deadline r rest :
  settled deadline w = true ->
  (clock w <= deadline)%Z ->
  script w = r :: rest ->
  status_code r = 429%Z ->
  header "Retry-After" (headers r) = None ->
  API.get url params w
  = ([sent_request w GET url None params], Raise (KeyError "retry-after"),
     during w rest (clock w)).
Proof.
  intros Hs Hc Hsc H429 Hh. unfold API.get, retry_after_handler.
  cbn [on_exception]. unfold catch.
  rewrite (exchange_first deadline _ _ _ _ _ _ _ Hs Hc Hsc).
  rewrite (classified_raise _ _ _ _ (parse_429 r H429)).
  cbn [is_rate_limited Nat.eqb]. unfold bind, sleep_on_ratelimit. rewrite Hh.
  reflexivity.
Qed.

(** C10: [post] is not under the retry decorator.  A POST answered 429 fails
    with the rate-limit error after that single request: nothing is slept,
    nothing is sent again, the rest of the server's answers stays unread. *)
Theorem C10_post_is_not_retried url data params w deadline r rest :
  settled deadline w = true ->
  (clock w <= deadline)%Z ->
  script w = r :: rest ->
  status_code r = 429%Z ->
  API.post url data params w
  = ([sent_request w POST url (Some data) params],
     Raise (HubspotRateLimited (API.rate_limit_message r) r),
     during w rest (clock w))
  /\ sleeps (trace_of (API.post url data params w)) = []
  /\ requests (trace_of (API.post url data params w)) = [(POST, API.BASE_URL +:+ url)].
Proof.
  intros Hs Hc Hsc H429.
  assert (E : API.post url data params w
              = ([sent_request w POST url (Some data) params],
                 Raise (HubspotRateLimited (API.rate_limit_message r) r),
                 during w rest (clock w))).
  { unfold API.post. rewrite (exchange_first deadline _ _ _ _ _ _ _ Hs Hc Hsc).
    rewrite (classified_raise _ _ _ _ (parse_429 r H429)). reflexivity. }
  rewrite E. repeat split; reflexivity.
Qed.

(** ** Runs that do not depend on the time

    With a static key, or without a stored access token, nothing the client
    does depends on the clock. *)

Lemma timeless_settled w deadline : timeless w = true -> settled deadline w = true.
Proof. unfold timeless, settled. intros ->. reflexivity. Qed.

Section Timeless.
Context (w : world).

Lemma timeless_const {A : Type} (m : M A) tr res :
  (forall u, m u = (tr, res, u)) -> Timeless w m.
Proof.
  intros Hm sc t t'. exists tr, res, sc, 0%Z. rewrite !Z.add_0_r, !Hm. auto.
Qed.

Lemma timeless_ret {A : Type} (a : A) : Timeless w (ret a).
Proof. apply (timeless_const _ [] (Ok a)). reflexivity. Qed.

Lemma timeless_raise {A : Type} e : Timeless w (@raise A e).
Proof. apply (timeless_const _ [] (Raise e)). reflexivity. Qed.

Lemma timeless_lift {A : Type} (r : result A) : Timeless w (lift r).
Proof. apply (timeless_const _ [] r). reflexivity. Qed.

Lemma timeless_emit e : Timeless w (emit e).
Proof. apply (timeless_const _ [e] (Ok tt)). reflexivity. Qed.

Lemma timeless_yield_all rows : Timeless w (yield_all rows).
Proof. apply (timeless_const _ (Yield <$> rows) (Ok tt)). reflexivity. Qed.

Lemma timeless_session_send : Timeless w session_send.
Proof.
  intros [|r rest] t t'.
  - exists [], (Raise ConnectionError), [], 0%Z. rewrite !Z.add_0_r. auto.
  - exists [], (Ok r), rest, 0%Z. rewrite !Z.add_0_r. auto.
Qed.

Lemma timeless_session_authorization : Timeless w session_authorization.
Proof.
  intros sc t t'. exists [], (Ok (sent_header w)), sc, 0%Z. rewrite !Z.add_0_r. auto.
Qed.

Lemma timeless_time_sleep secs : Timeless w (time_sleep secs).
Proof.
  unfold time_sleep. destruct (_ || _); [apply timeless_raise|].
  destruct (secs <? 0)%Z; [apply timeless_raise|].
  intros sc t t'. exists [Sleep secs], (Ok tt), sc, (secs * 1000000)%Z. auto.
Qed.

Lemma timeless_bind {A B : Type} (m : M A) (f : A -> M B) :
  Timeless w m -> (forall a, Timeless w (f a)) -> Timeless w (bind m f).
Proof.
  intros Hm Hf sc t t'. destruct (Hm sc t t') as (tr & res & sc' & d & E & E').
  unfold bind. rewrite E, E'. destruct res as [a|e|].
  - destruct (Hf a sc' (t + d)%Z (t' + d)%Z) as (tr2 & res2 & sc2 & d2 & E2 & E2').
    rewrite E2, E2'. exists (tr ++ tr2), res2, sc2, (d + d2)%Z.
    rewrite !Z.add_assoc. auto.
  - exists tr, (Raise e), sc', d. auto.
  - exists tr, OutOfFuel, sc', d. auto.
Qed.

Lemma timeless_catch {A : Type} (m : M A) handles (h : exn -> M A) :
  Timeless w m -> (forall e, Timeless w (h e)) -> Timeless w (catch m handles h).
Proof.
  intros Hm Hh sc t t'. destruct (Hm sc t t') as (tr & res & sc' & d & E & E').
  unfold catch. rewrite E, E'. destruct res as [a|e|].
  - exists tr, (Ok a), sc', d. auto.
  - destruct (handles e).
    + destruct (Hh e sc' (t + d)%Z (t' + d)%Z) as (tr2 & res2 & sc2 & d2 & E2 & E2').
      rewrite E2, E2'. exists (tr ++ tr2), res2, sc2, (d + d2)%Z.
      rewrite !Z.add_assoc. auto.
    + exists tr, (Raise e), sc', d. auto.
  - exists tr, OutOfFuel, sc', d. auto.
Qed.

Hypothesis Hw : timeless w = true.

Lemma timeless_add_auth params : Timeless w (API._add_auth params).
Proof.
  intros sc t t'. exists [], (Ok (sent_params w params)), sc, 0%Z.
  rewrite !Z.add_0_r.
  rewrite (add_auth_during t w sc t), (add_auth_during t' w sc t');
    auto using timeless_settled, Z.le_refl.
Qed.

Lemma timeless_exchange m url data params : Timeless w (API.exchange m url data params).
Proof.
  unfold API.exchange.
  apply timeless_bind; [apply timeless_add_auth|intros sent].
  apply timeless_bind; [apply timeless_session_authorization|intros auth].
  apply timeless_bind; [apply timeless_emit|intros _].
  apply timeless_bind; [apply timeless_session_send|intros resp].
  apply timeless_bind; [apply timeless_lift|intros body].
  apply timeless_ret.
Qed.

Lemma timeless_sleep_on_ratelimit e : Timeless w (sleep_on_ratelimit e).
Proof.
  unfold sleep_on_ratelimit.
  destruct e; try apply timeless_ret.
  destruct (header _ _); [|apply timeless_raise].
  destruct (py_int _); [|apply timeless_raise].
  apply timeless_bind; [apply timeless_emit|intros _]. apply timeless_time_sleep.
Qed.

Lemma timeless_on_exception {A : Type} fuel interval max_tries tries (target : M A) :
  Timeless w target -> Timeless w (on_exception fuel interval max_tries tries target).
Proof.
  intros Ht. revert tries.
  induction fuel as [|fuel IH]; intros tries; cbn [on_exception];
    (apply timeless_catch; [exact Ht|intros e]);
    (destruct (tries =? max_tries)%nat;
     [apply timeless_bind; [apply timeless_emit|intros _; apply timeless_raise]|]);
    (apply timeless_bind; [apply timeless_sleep_on_ratelimit|intros _]);
    (apply timeless_bind; [apply timeless_time_sleep|intros _]).
  - apply timeless_lift.
  - apply IH.
Qed.

Lemma timeless_api_getter url params : Timeless w (api_getter url params).
Proof. apply timeless_on_exception, timeless_exchange. Qed.

Lemma read_loop_after_response fuel s g params u t r u1 :
  g params u = (t, Ok r, u1) ->
  read_loop (S fuel) s g params u
  = (Call params :: t ++ trace_of (after_response fuel s g r u1),
     result_of (after_response fuel s g r u1),
     world_of (after_response fuel s g r u1)).
Proof.
  intros Hg. cbn [read_loop]. unfold round, after_response, bind, emit, lift, yield_all.
  rewrite Hg. destruct (container s r.2) as [rows|e|]; cbn; try reflexivity;
    try (rewrite app_nil_r; reflexivity).
  destruct (match r.2 with JObj fields => paginate s r.1 fields | _ => Raise AttributeError end)
    as [[params'|]|e|]; cbn; rewrite ?app_nil_r; try reflexivity.
  destruct (read_loop fuel s g params' u1) as [[t' r'] u2]. cbn.
  rewrite <- !app_assoc. reflexivity.
Qed.

Lemma timeless_read_loop fuel s url params :
  Timeless w (read_loop fuel s (api_getter url) params).
Proof.
  revert params. induction fuel as [|fuel IH]; intros params; cbn [read_loop].
  - apply timeless_lift.
  - apply timeless_bind.
    + unfold round.
      apply timeless_bind; [apply timeless_emit|intros _].
      apply timeless_bind; [apply timeless_api_getter|intros r].
      apply timeless_bind; [apply timeless_lift|intros rows].
      apply timeless_bind; [apply timeless_yield_all|intros _].
      apply timeless_lift.
    + intros [params'|]; [apply IH|apply timeless_ret].
Qed.

Lemma timeless_after_response fuel s url r :
  Timeless w (after_response fuel s (api_getter url) r).
Proof.
  unfold after_response.
  apply timeless_bind; [apply timeless_lift|intros rows].
  apply timeless_bind; [apply timeless_yield_all|intros _].
  apply timeless_bind; [apply timeless_lift|intros next].
  destruct next; [apply timeless_read_loop|apply timeless_ret].
Qed.
End Timeless.

(** ** The credential store *)

Lemma acquire_asks_token_endpoint w :
  oauth_configured w ->
  refreshes (trace_of (API._acquire_access_token_from_refresh_token w)) = true.
Proof.
  intros ([a Ha] & [b Hb] & [c Hc] & [d Hd]).
  unfold API._acquire_access_token_from_refresh_token.
  assert (Hitem : forall k v, creds w !! k = Some v -> API.cred_item k w = ([], Ok v, w)).
  { intros k v Hk. unfold API.cred_item. rewrite Hk. reflexivity. }
  rewrite (bind_ok _ _ _ _ _ _ (Hitem _ _ Ha)).
  rewrite (bind_ok _ _ _ _ _ _ (Hitem _ _ Hb)).
  rewrite (bind_ok _ _ _ _ _ _ (Hitem _ _ Hc)).
  rewrite (bind_ok _ _ _ _ _ _ (Hitem _ _ Hd)).
  match goal with
  | |- context [bind (emit ?e) ?k w] =>
      rewrite (bind_ok (emit e) k w [e] tt w eq_refl)
  end.
  reflexivity.
Qed.

(** C5, as the code has it: with OAuth credentials, reading [access_token]
    asks for a refresh exactly when a token is stored and its stored expiry
    is [None] or earlier than now.  Without a stored token the property
    returns [None] and refreshes nothing; a stored token whose expiry is not
    earlier than now is returned as it is. *)
Theorem C5_refresh_when_stored_token_expired w :
  oauth_configured w ->
  (refreshes (trace_of (API.access_token w)) = true <-> refresh_condition w)
  /\ (API.opt_truthy (creds w !! "access_token") = false ->
      API.access_token w = ([], Ok None, w))
  /\ (forall e,
      API.opt_truthy (creds w !! "access_token") = true ->
      token_expires w = Some (ExpTime e) -> (clock w <= e)%Z ->
      API.access_token w = ([], Ok (creds w !! "access_token"), w)).
Proof.
  intros Hoauth.
  assert (Hget : API.cred_get "access_token" w = ([], Ok (creds w !! "access_token"), w))
    by reflexivity.
  assert (Hmissing : API.opt_truthy (creds w !! "access_token") = false ->
                     API.access_token w = ([], Ok None, w)).
  { intros Ht. unfold API.access_token. rewrite (bind_ok _ _ _ _ _ _ Hget), Ht. reflexivity. }
  assert (Hfresh : forall e,
             API.opt_truthy (creds w !! "access_token") = true ->
             token_expires w = Some (ExpTime e) -> (clock w <= e)%Z ->
             API.access_token w = ([], Ok (creds w !! "access_token"), w)).
  { intros e Ht He Hle. unfold API.access_token.
    rewrite (bind_ok _ _ _ _ _ _ Hget), Ht. cbn [negb].
    assert (Hdue : API.refresh_due w = ([], Ok false, w)).
    { unfold API.refresh_due. rewrite He.
      replace (e <? clock w)%Z with false by (symmetry; apply Z.ltb_ge; lia). reflexivity. }
    rewrite (bind_ok _ _ _ _ _ _ Hdue). reflexivity. }
  split; [|split; assumption].
  destruct (API.opt_truthy (creds w !! "access_token")) eqn:Ht.
  - assert (Hdue : forall due, API.refresh_due w = ([], Ok due, w) ->
                refreshes (trace_of (API.access_token w)) = due).
    { intros due Hdue. unfold API.access_token.
      rewrite (bind_ok _ _ _ _ _ _ Hget), Ht. cbn [negb].
      rewrite (bind_ok _ _ _ _ _ _ Hdue). destruct due; [|reflexivity].
      pose proof (acquire_asks_token_endpoint w Hoauth) as Hask.
      unfold bind. unfold trace_of in *.
      destruct (API._acquire_access_token_from_refresh_token w) as [[t r] w1].
      cbn in Hask. destruct r; cbn; try exact Hask.
      unfold refreshes. rewrite existsb_app. unfold refreshes in Hask. rewrite Hask.
      reflexivity. }
    assert (Hfail : forall x, API.refresh_due w = ([], Raise x, w) ->
                refreshes (trace_of (API.access_token w)) = false).
    { intros x Hx. unfold API.access_token.
      rewrite (bind_ok _ _ _ _ _ _ Hget), Ht. cbn [negb].
      rewrite (bind_raise _ _ _ _ _ _ Hx). reflexivity. }
    unfold refresh_condition.
    destruct (token_expires w) as [[j|e]|] eqn:He.
    + destruct j;
        try (rewrite (Hfail TypeError) by (unfold API.refresh_due; rewrite He; reflexivity);
             split; [discriminate|intros [_ [[=]|(e & [=] & _)]]]).
      rewrite (Hdue true) by (unfold API.refresh_due; rewrite He; reflexivity).
      split; auto.
    + rewrite (Hdue (e <? clock w)%Z) by (unfold API.refresh_due; rewrite He; reflexivity).
      split.
      * intros Hlt%Z.ltb_lt. split; [exact Ht|]. right. exists e. auto.
      * intros [_ [[=]|(e' & [= <-] & Hlt)]]. apply Z.ltb_lt, Hlt.
    + rewrite (Hfail (KeyError "token_expires"))
        by (unfold API.refresh_due; rewrite He; reflexivity).
      split; [discriminate|intros [_ [[=]|(e & [=] & _)]]].
  - rewrite (Hmissing eq_refl). unfold refresh_condition. cbn.
    split; [discriminate|intros [H0 _]; congruence].
Qed.

(** C5 as the specification words it fails where no access token is stored:
    the property returns [None] and does not refresh. *)
Lemma C5_counterexample :
  oauth_configured (oauth_world None (Some (ExpJson JNull)) [] [])
  /\ ~ (refreshes (trace_of (API.access_token (oauth_world None (Some (ExpJson JNull)) [] [])))
        = true
        <-> spec_refresh_condition (oauth_world None (Some (ExpJson JNull)) [] [])).
Proof.
  split.
  - repeat split; eexists; reflexivity.
  - intros [_ H]. assert (Hs : spec_refresh_condition (oauth_world None (Some (ExpJson JNull)) [] [])).
    { left. reflexivity. }
    specialize (H Hs). vm_compute in H. discriminate.
Qed.

(** ** The time-chunked reader *)

Lemma in_window_again a b a' b' params :
  in_window a' b' (in_window a b params) = in_window a' b' params.
Proof.
  unfold in_window.
  rewrite (insert_insert_ne _ "startTimestamp" "endTimestamp") by discriminate.
  rewrite !insert_insert_eq. reflexivity.
Qed.

Lemma py_range_three start h :
  (0 < h)%Z ->
  py_range start (start + 5 * h) (2 * h) = Ok [start; (start + 2 * h)%Z; (start + 4 * h)%Z].
Proof.
  intros Hh. unfold py_range.
  replace (2 * h =? 0)%Z with false by (symmetry; apply Z.eqb_neq; lia).
  replace (0 <? 2 * h)%Z with true by (symmetry; apply Z.ltb_lt; lia).
  replace ((start + 5 * h - start + 2 * h - 1) / (2 * h))%Z with 3%Z
    by (apply (Z.div_unique _ _ 3 (h - 1)); lia).
  change (Z.to_nat 3) with 3%nat. cbn [seq fmap list_fmap].
  apply f_equal.
  repeat (apply (f_equal2 cons); [lia|]). reflexivity.
Qed.

(** C4, as the code has it: with the start at [T0], the time at
    [T0 + 2.5 c] and chunks of [c = 2 h] milliseconds, [read_chunked] walks
    three windows, [(T0, T0 + c)], [(T0 + c, T0 + 2 c)] and
    [(T0 + 2 c, T0 + 3 c)]: every window is a whole chunk, the last one
    reaches past the current time.  Each window is one [read] of its own, on
    the caller's params and the two timestamps of that window. *)
Theorem C4_three_whole_windows (s : stream) (g : getter) fuel params w T0 h :
  (0 < h)%Z ->
  chunk_size s = (2 * h)%Z ->
  timestamp_ms (start_date s) = T0 ->
  timestamp_ms (clock w) = (T0 + 5 * h)%Z ->
  windows T0 (T0 + 5 * h) (chunk_size s)
  = Ok [(T0, T0 + 2 * h); (T0 + 2 * h, T0 + 4 * h); (T0 + 4 * h, T0 + 6 * h)]%Z
  /\ read_chunked fuel s g params w
     = (emit (Log (ReadingChunk T0 (T0 + 2 * h)));;
        read fuel s g (Some (in_window T0 (T0 + 2 * h) (default ∅ params)));;
        emit (Log (ReadingChunk (T0 + 2 * h) (T0 + 4 * h)));;
        read fuel s g (Some (in_window (T0 + 2 * h) (T0 + 4 * h) (default ∅ params)));;
        emit (Log (ReadingChunk (T0 + 4 * h) (T0 + 6 * h)));;
        read fuel s g (Some (in_window (T0 + 4 * h) (T0 + 6 * h) (default ∅ params)));;
        ret tt)%M%Z w.
Proof.
  intros Hh Hc Hstart Hnow. split.
  - unfold windows. rewrite Hc, (py_range_three T0 h Hh).
    cbn [rbind fmap list_fmap]. apply f_equal.
    repeat (apply (f_equal2 cons); [apply f_equal; lia|]). reflexivity.
  - unfold read_chunked.
    rewrite (bind_ok _ _ w [] (clock w) w) by reflexivity.
    rewrite Hstart, Hnow, Hc.
    rewrite (bind_ok _ _ w [] _ w (f_equal (fun r => ([], r, w)) (py_range_three T0 h Hh))).
    cbn [app read_windows]. rewrite Hc. fold (in_window T0 (T0 + 2 * h) (default ∅ params)).
    replace (T0 + 2 * h + 2 * h)%Z with (T0 + 4 * h)%Z by lia.
    replace (T0 + 4 * h + 2 * h)%Z with (T0 + 6 * h)%Z by lia.
    repeat match goal with
           | |- context [<["endTimestamp" := JNum ?b]> (<["startTimestamp" := JNum ?a]> ?p)] =>
               progress change (<["endTimestamp" := JNum b]> (<["startTimestamp" := JNum a]> p))
                 with (in_window a b p)
           end.
    rewrite !in_window_again.
    repeat match goal with
           | |- (trace_of ?x, result_of ?x, world_of ?x) = _ => rewrite <- (run_eta x)
           end.
    reflexivity.
Qed.

(** C4 as stated fails on the last window: it ends a whole chunk after its
    start, not at the current time. *)
Lemma C4_counterexample :
  issued_windows
    (trace_of (read_chunked 1 (EmailEventsAPI 0) (repeating_getter empty_events_page) None
                 (with_clock (216000000 * 1000) (keyed_world []))))
  <> [(0, 86400000); (86400000, 172800000); (172800000, 216000000)]%Z.
Proof. vm_compute. discriminate. Qed.

Lemma C4_three_whole_windows_witness :
  windows 0 216000000 86400000
  = Ok [(0, 86400000); (86400000, 172800000); (172800000, 259200000)]%Z.
Proof.
  refine (proj1 (C4_three_whole_windows (EmailEventsAPI 0)
                   (repeating_getter empty_events_page) 1 None
                   (with_clock (216000000 * 1000) (keyed_world [])) 0 43200000 _ _ _ _));
    (lia || reflexivity).
Defined.

Lemma C5_refresh_when_stored_token_expired_witness :
  refreshes (trace_of (API.access_token expired_world)) = true
  /\ result_of (API.access_token expired_world) = Ok (Some (JStr "t1")).
Proof.
  assert (Hoauth : oauth_configured expired_world) by (repeat split; eexists; reflexivity).
  split; [|reflexivity].
  apply (proj1 (C5_refresh_when_stored_token_expired expired_world Hoauth)).
  split; [reflexivity|]. right. exists 1500000000000000%Z. split; [reflexivity|].
  cbn. lia.
Defined.

Lemma C10_post_is_not_retried_witness :
  API.post contacts_url (JObj []) first_params (keyed_world busy_server)
  = ([Request POST (API.BASE_URL +:+ contacts_url)
        (<["hapikey" := JStr "secret"]> first_params) (Some (JObj [])) None],
     Raise (HubspotRateLimited (API.rate_limit_message (rate_limited_response "5"))
              (rate_limited_response "5")),
     with_script [ok_response (JObj [("results", JArr [JNum 1; JNum 2])])]
       (keyed_world busy_server)).
Proof.
  exact (proj1 (C10_post_is_not_retried contacts_url (JObj []) first_params
                  (keyed_world busy_server) 1700000000000000
                  (rate_limited_response "5")
                  [ok_response (JObj [("results", JArr [JNum 1; JNum 2])])]
                  eq_refl ltac:(cbn; lia) eq_refl eq_refl)).
Defined.

(** * Further properties

    What the rest of the client and of the streams does: the classification
    of responses, the refresh of the token, the retry budget, whole
    paginations, the windows of the chunked reader and the [list] methods. *)

Import Streams.

(** ** [_parse_and_handle_errors] *)

(** X1: a response is handed back as parsed JSON exactly when its status is
    outside 400..599 and its body parses; 1xx and 3xx count as success. *)
Theorem parse_succeeds_iff (r : http_response) (body : json) :
  API._parse_and_handle_errors r = Ok body
  <-> ((status_code r < 400)%Z \/ (600 <= status_code r)%Z) /\ json_body r = Some body.
Proof.
  unfold API._parse_and_handle_errors, API.raise_for_status, API.response_json.
  destruct (status_code r =? 403)%Z eqn:E403.
  { apply Z.eqb_eq in E403. split; [discriminate|]. intros [[H|H] _]; lia. }
  destruct (status_code r =? 429)%Z eqn:E429.
  { apply Z.eqb_eq in E429. split; [discriminate|]. intros [[H|H] _]; lia. }
  destruct (400 <=? status_code r)%Z eqn:Elo; destruct (status_code r <? 600)%Z eqn:Ehi;
    cbn; try apply Z.leb_le in Elo; try apply Z.leb_gt in Elo;
    try apply Z.ltb_lt in Ehi; try apply Z.ltb_ge in Ehi.
  - split; [discriminate|]. intros [[H|H] _]; lia.
  - destruct (json_body r); split; try discriminate; try (intros [= ->]; split; auto);
      try (intros [_ [= ->]]; reflexivity); intros [_ [=]].
  - destruct (json_body r); split; try discriminate; try (intros [= ->]; split; auto);
      try (intros [_ [= ->]]; reflexivity); intros [_ [=]].
  - lia.
Qed.

(** X2: the rate-limit error, the only one the retry decorator catches, is
    raised for status 429 and for no other response. *)
Theorem rate_limited_iff_429 (r : http_response) :
  (exists e, API._parse_and_handle_errors r = Raise e /\ is_rate_limited e = true)
  <-> status_code r = 429%Z.
Proof.
  split.
  - intros (e & He & Hrl).
    destruct (Z.eq_dec (status_code r) 429%Z) as [|Hne]; [assumption|].
    unfold API._parse_and_handle_errors, API.raise_for_status, API.response_json in He.
    apply Z.eqb_neq in Hne. rewrite Hne in He.
    destruct (status_code r =? 403)%Z; [injection He as <-; discriminate|].
    destruct ((400 <=? status_code r)%Z && (status_code r <? 600)%Z); cbn in He.
    + injection He as <-. discriminate.
    + destruct (json_body r); [discriminate|]. injection He as <-. discriminate.
  - intros H. eexists. split.
    + unfold API._parse_and_handle_errors. rewrite H. reflexivity.
    + reflexivity.
Qed.

(** ** [_acquire_access_token_from_refresh_token] *)

Lemma cred_item_some w k v : creds w !! k = Some v -> API.cred_item k w = ([], Ok v, w).
Proof. intros Hk. unfold API.cred_item. rewrite Hk. reflexivity. Qed.

(** Run a refresh up to its request. *)
Ltac acquire_start Hf :=
  let Ha := fresh "Ha" in
  let Hb := fresh "Hb" in
  let Hc := fresh "Hc" in
  let Hd := fresh "Hd" in
  destruct Hf as (Ha & Hb & Hc & Hd);
  unfold API._acquire_access_token_from_refresh_token;
  rewrite (bind_ok _ _ _ _ _ _ (cred_item_some _ _ _ Ha));
  rewrite (bind_ok _ _ _ _ _ _ (cred_item_some _ _ _ Hb));
  rewrite (bind_ok _ _ _ _ _ _ (cred_item_some _ _ _ Hc));
  rewrite (bind_ok _ _ _ _ _ _ (cred_item_some _ _ _ Hd));
  match goal with
  | |- context [bind (emit ?e) ?k ?w] =>
      rewrite (bind_ok (emit e) k w [e] tt w eq_refl)
  end;
  cbn [app]; unfold trace_of, result_of, world_of.

Lemma expiry_in_range now secs :
  is_datetime now -> is_datetime (now + secs * 1000000) ->
  rbind (timedelta_seconds secs) (datetime_add now) = Ok (now + secs * 1000000)%Z.
Proof.
  unfold is_datetime, datetime_min, datetime_max, timedelta_seconds, datetime_add.
  intros Hnow Hsum.
  pose proof (Z.div_mod secs 86400 ltac:(lia)) as Hdm.
  pose proof (Z.mod_pos_bound secs 86400 ltac:(lia)) as Hmod.
  destruct (Z.ltb_spec (secs / 86400) (-999999999)); [lia|].
  destruct (Z.ltb_spec 999999999 (secs / 86400)); [lia|].
  cbn [orb rbind]. unfold datetime_add, datetime_min, datetime_max.
  destruct (Z.ltb_spec (now + secs * 1000000) (-62135596800000000)); [lia|].
  destruct (Z.ltb_spec 253402300799999999 (now + secs * 1000000)); [lia|].
  reflexivity.
Qed.

Lemma expiry_out_of_range now secs :
  ~ is_datetime (now + secs * 1000000) ->
  rbind (timedelta_seconds secs) (datetime_add now) = Raise OverflowError.
Proof.
  unfold is_datetime, datetime_min, datetime_max, timedelta_seconds, datetime_add.
  intros Hsum.
  destruct (_ || _); [reflexivity|]. cbn [rbind].
  unfold datetime_add, datetime_min, datetime_max.
  destruct (Z.ltb_spec (now + secs * 1000000) (-62135596800000000)); [reflexivity|].
  destruct (Z.ltb_spec 253402300799999999 (now + secs * 1000000)); [reflexivity|].
  lia.
Qed.

(** A granted refresh, up to the expiry. *)
Lemma refresh_run w r rest auth a b c d tok rtok n :
  refresh_fields w a b c d ->
  token_script w = r :: rest ->
  (status_code r < 400)%Z \/ (600 <= status_code r)%Z ->
  json_body r = Some (JObj auth) ->
  assoc "access_token" auth = Some tok ->
  assoc "refresh_token" auth = Some rtok ->
  assoc "expires_in" auth = Some (JNum n) ->
  API._acquire_access_token_from_refresh_token w
  = match rbind (timedelta_seconds (n - 600)) (datetime_add (clock w)) with
    | Ok expires =>
        ([TokenRequest token_url (refresh_payload a b c d); Log (TokenRefreshed expires)],
         Ok tt, refreshed w rest tok rtok expires)
    | Raise e =>
        ([TokenRequest token_url (refresh_payload a b c d)], Raise e,
         half_refreshed w rest tok rtok)
    | OutOfFuel =>
        ([TokenRequest token_url (refresh_payload a b c d)], OutOfFuel,
         half_refreshed w rest tok rtok)
    end.
Proof.
  intros Hf Hts Hst Hbody Htok Hrtok Hn.
  acquire_start Hf.
  unfold bind, token_send, lift, set_cred, utcnow, set_token_expires, emit, raise.
  rewrite Hts.
  replace (status_code r =? 403)%Z with false by (symmetry; apply Z.eqb_neq; lia).
  unfold API.raise_for_status, API.response_json.
  replace ((400 <=? status_code r)%Z && (status_code r <? 600)%Z) with false
    by (symmetry; apply andb_false_iff; rewrite Z.leb_gt, Z.ltb_ge; lia).
  rewrite Hbody. cbn [py_getitem rbind]. rewrite Htok, Hrtok, Hn.
  cbn [API.minus_600 rbind clock with_creds with_token_script].
  destruct (rbind (timedelta_seconds (n - 600)) (datetime_add (clock w)));
    reflexivity.
Qed.

(** X3: a granted refresh makes one request to the token endpoint, with the
    five form fields, stores the new access and refresh tokens and leaves
    the session's server alone.  When the time 600 seconds before the end of
    the lifetime the server gave, counted from now, is a date, it becomes
    the expiry; when it is none (a lifetime beyond year 9999, or before year
    1), the refresh fails with [OverflowError] after both tokens are stored,
    and the old expiry stays. *)
Theorem refresh_stores_tokens w r rest auth a b c d tok rtok n :
  refresh_fields w a b c d ->
  token_script w = r :: rest ->
  (status_code r < 400)%Z \/ (600 <= status_code r)%Z ->
  json_body r = Some (JObj auth) ->
  assoc "access_token" auth = Some tok ->
  assoc "refresh_token" auth = Some rtok ->
  assoc "expires_in" auth = Some (JNum n) ->
  is_datetime (clock w) ->
  (is_datetime (clock w + (n - 600) * 1000000) ->
   API._acquire_access_token_from_refresh_token w
   = ([TokenRequest token_url (refresh_payload a b c d);
       Log (TokenRefreshed (clock w + (n - 600) * 1000000))],
      Ok tt,
      refreshed w rest tok rtok (clock w + (n - 600) * 1000000)))
  /\ (~ is_datetime (clock w + (n - 600) * 1000000) ->
      API._acquire_access_token_from_refresh_token w
      = ([TokenRequest token_url (refresh_payload a b c d)],
         Raise OverflowError,
         half_refreshed w rest tok rtok)).
Proof.
  intros Hf Hts Hst Hbody Htok Hrtok Hn Hnow.
  split; intros Hexp;
    rewrite (refresh_run w r rest auth a b c d tok rtok n Hf Hts Hst Hbody Htok Hrtok Hn).
  - rewrite (expiry_in_range _ _ Hnow Hexp). reflexivity.
  - rewrite (expiry_out_of_range _ _ Hexp). reflexivity.
Qed.

Lemma refresh_rejected w r rest a b c d :
  refresh_fields w a b c d ->
  token_script w = r :: rest ->
  (400 <= status_code r < 600)%Z ->
  API._acquire_access_token_from_refresh_token w
  = ([TokenRequest token_url (refresh_payload a b c d)],
     Raise (refresh_error r),
     with_token_script rest w).
Proof.
  intros Hf Hts Hst.
  acquire_start Hf.
  unfold bind, token_send, lift, raise, refresh_error. rewrite Hts.
  destruct (status_code r =? 403)%Z; [reflexivity|].
  unfold API.raise_for_status.
  replace ((400 <=? status_code r)%Z && (status_code r <? 600)%Z) with true
    by (symmetry; apply andb_true_iff; rewrite Z.leb_le, Z.ltb_lt; lia).
  reflexivity.
Qed.

(** X4: a token endpoint that answers 4xx or 5xx makes the refresh fail,
    with [HubspotInvalidAuth] for 403 and the plain HTTP error otherwise;
    the stored credentials and expiry stay as they were. *)
Theorem refresh_rejected_keeps_credentials w r rest a b c d :
  refresh_fields w a b c d ->
  token_script w = r :: rest ->
  (400 <= status_code r < 600)%Z ->
  API._acquire_access_token_from_refresh_token w
  = ([TokenRequest token_url (refresh_payload a b c d)],
     Raise (refresh_error r),
     with_token_script rest w)
  /\ creds (with_token_script rest w) = creds w
  /\ token_expires (with_token_script rest w) = token_expires w.
Proof.
  intros Hf Hts Hst. split; [|split; reflexivity].
  exact (refresh_rejected w r rest a b c d Hf Hts Hst).
Qed.

(** X5: when one of the four refresh credentials is missing, the refresh
    raises the [KeyError] of a missing one before anything is sent, and
    changes nothing. *)
Theorem refresh_needs_its_credentials w :
  ~ oauth_configured w ->
  exists k,
    k ∈ ["redirect_uri"; "refresh_token"; "client_id"; "client_secret"]
    /\ creds w !! k = None
    /\ API._acquire_access_token_from_refresh_token w = ([], Raise (KeyError k), w).
Proof.
  intros Hno. unfold oauth_configured in Hno.
  unfold API._acquire_access_token_from_refresh_token, bind, API.cred_item.
  destruct (creds w !! "redirect_uri") eqn:Ha;
    [|exists "redirect_uri"; repeat split; [set_solver|assumption]].
  destruct (creds w !! "refresh_token") eqn:Hb;
    [|exists "refresh_token"; repeat split; [set_solver|assumption]].
  destruct (creds w !! "client_id") eqn:Hc;
    [|exists "client_id"; repeat split; [set_solver|assumption]].
  destruct (creds w !! "client_secret") eqn:Hd;
    [|exists "client_secret"; repeat split; [set_solver|assumption]].
  exfalso. apply Hno. repeat split; eexists; reflexivity.
Qed.

(** X6: a granted response without [refresh_token] fails with that
    [KeyError] after the new access token has been stored: the old refresh
    token and the old expiry remain next to the new access token. *)
Theorem refresh_without_refresh_token_is_torn w r rest auth a b c d tok :
  refresh_fields w a b c d ->
  token_script w = r :: rest ->
  (status_code r < 400)%Z \/ (600 <= status_code r)%Z ->
  json_body r = Some (JObj auth) ->
  assoc "access_token" auth = Some tok ->
  assoc "refresh_token" auth = None ->
  API._acquire_access_token_from_refresh_token w
  = ([TokenRequest token_url (refresh_payload a b c d)],
     Raise (KeyError "refresh_token"),
     with_creds (<["access_token" := tok]> (creds w)) (with_token_script rest w)).
Proof.
  intros Hf Hts Hst Hbody Htok Hrtok.
  acquire_start Hf.
  unfold bind, token_send, lift, set_cred, raise. rewrite Hts.
  replace (status_code r =? 403)%Z with false by (symmetry; apply Z.eqb_neq; lia).
  unfold API.raise_for_status, API.response_json.
  replace ((400 <=? status_code r)%Z && (status_code r <? 600)%Z) with false
    by (symmetry; apply andb_false_iff; rewrite Z.leb_gt, Z.ltb_ge; lia).
  rewrite Hbody. cbn. rewrite Htok, Hrtok. reflexivity.
Qed.

Lemma trace_bind {A B : Type} (m : M A) (f : A -> M B) u :
  trace_of (bind m f u)
  = trace_of (m u)
    ++ match result_of (m u) with
       | Ok a => trace_of (f a (world_of (m u)))
       | _ => []
       end.
Proof.
  unfold bind, trace_of, result_of, world_of.
  destruct (m u) as [[t [a|e|]] u1]; cbn; rewrite ?app_nil_r; try reflexivity.
  destruct (f a u1) as [[t' r'] u2]. reflexivity.
Qed.

Lemma acquire_starts_with_request w a b c d :
  refresh_fields w a b c d ->
  exists later,
    trace_of (API._acquire_access_token_from_refresh_token w)
    = TokenRequest token_url (refresh_payload a b c d) :: later.
Proof.
  intros Hf. acquire_start Hf. cbn [fst]. eexists. reflexivity.
Qed.

(** X7: two uses of [access_token].  The first finds the stored token due,
    refreshes it and returns the new one.  A second use at time [t] asks the
    token endpoint again exactly when [t] is later than the first refresh by
    more than the lifetime the server gave less 600 seconds, and then with
    the refresh token the first refresh stored: a token given less than 600
    seconds is refreshed on every use. *)
Theorem access_token_refreshes_again_after_lifetime_less_600
    w r rest auth a b c d tok rtok n t :
  API.opt_truthy (creds w !! "access_token") = true ->
  expiry_due w ->
  refresh_fields w a b c d ->
  token_script w = r :: rest ->
  (status_code r < 400)%Z \/ (600 <= status_code r)%Z ->
  json_body r = Some (JObj auth) ->
  assoc "access_token" auth = Some tok ->
  assoc "refresh_token" auth = Some rtok ->
  assoc "expires_in" auth = Some (JNum n) ->
  truthy tok = true ->
  is_datetime (clock w) ->
  is_datetime (clock w + (n - 600) * 1000000) ->
  result_of (API.access_token w) = Ok (Some tok)
  /\ (refreshes (trace_of (API.access_token
                             (with_clock t (world_of (API.access_token w))))) = true
      <-> (clock w + (n - 600) * 1000000 < t)%Z)
  /\ ((clock w + (n - 600) * 1000000 < t)%Z ->
      exists later,
        trace_of (API.access_token (with_clock t (world_of (API.access_token w))))
        = TokenRequest token_url (refresh_payload a rtok c d) :: later).
Proof.
  intros Hstored Hdue Hf Hts Hst Hbody Htok Hrtok Hn Htruthy Hnow Hexp.
  set (e := (clock w + (n - 600) * 1000000)%Z) in *.
  set (w1 := refreshed w rest tok rtok e).
  assert (Hfirst : API.access_token w
                   = ([TokenRequest token_url (refresh_payload a b c d);
                       Log (TokenRefreshed e)],
                      Ok (Some tok), w1)).
  { unfold API.access_token.
    rewrite (bind_ok (API.cred_get "access_token") _ w [] (creds w !! "access_token") w
               eq_refl), Hstored.
    cbn [negb].
    assert (Hd : API.refresh_due w = ([], Ok true, w)).
    { unfold API.refresh_due. destruct Hdue as [->|(x & -> & Hx)]; [reflexivity|].
      replace (x <? clock w)%Z with true by (symmetry; apply Z.ltb_lt; lia). reflexivity. }
    rewrite (bind_ok _ _ _ _ _ _ Hd). cbn [app].
    pose proof (refresh_run w r rest auth a b c d tok rtok n Hf Hts Hst Hbody Htok Hrtok Hn)
      as Hrun.
    rewrite (expiry_in_range _ _ Hnow Hexp) in Hrun.
    unfold trace_of, result_of, world_of. cbn [fst snd].
    rewrite (bind_ok _ _ _ _ _ _ Hrun).
    unfold API.cred_get, trace_of, result_of, world_of. cbn [fst snd]. fold e. fold w1.
    assert (Hnew : creds w1 !! "access_token" = Some tok).
    { subst w1. unfold refreshed. cbn [creds].
      rewrite lookup_insert_ne by discriminate. apply lookup_insert_eq. }
    rewrite Hnew, app_nil_r. reflexivity. }
  rewrite Hfirst. unfold result_of, world_of. cbn [fst snd].
  split; [reflexivity|].
  assert (Hf1 : refresh_fields (with_clock t w1) a rtok c d).
  { destruct Hf as (Ha & Hb & Hc & Hd). unfold refresh_fields. cbn.
    repeat split.
    - rewrite !lookup_insert_ne by discriminate. exact Ha.
    - apply lookup_insert_eq.
    - rewrite !lookup_insert_ne by discriminate. exact Hc.
    - rewrite !lookup_insert_ne by discriminate. exact Hd. }
  assert (Hstored1 : API.cred_get "access_token" (with_clock t w1)
                     = ([], Ok (Some tok), with_clock t w1)).
  { unfold API.cred_get. cbn.
    rewrite lookup_insert_ne by discriminate. rewrite lookup_insert_eq. reflexivity. }
  assert (Hdue1 : API.refresh_due (with_clock t w1) = ([], Ok (e <? t)%Z, with_clock t w1))
    by reflexivity.
  assert (Hsecond : trace_of (API.access_token (with_clock t w1))
                    = if (e <? t)%Z
                      then trace_of (bind API._acquire_access_token_from_refresh_token
                                       (fun _ => API.cred_get "access_token")
                                       (with_clock t w1))
                      else []).
  { unfold API.access_token.
    rewrite (bind_ok _ _ _ _ _ _ Hstored1). cbn [API.opt_truthy]. rewrite Htruthy.
    cbn [negb app]. rewrite (bind_ok _ _ _ _ _ _ Hdue1).
    unfold trace_of at 1. cbn [fst app]. destruct (e <? t)%Z; reflexivity. }
  destruct (acquire_starts_with_request _ _ _ _ _ Hf1) as (later & Hlater).
  rewrite Hsecond. destruct (Z.ltb_spec e t) as [Hlt|Hge].
  - rewrite trace_bind, Hlater. split.
    + split; [intros _; exact Hlt|reflexivity].
    + intros _. eexists. reflexivity.
  - split; [|lia]. split; [discriminate|lia].
Qed.

(** ** [_add_auth] *)

(** X8: the authentication goes either into the params or into the header.
    With a static key the key is added as [hapikey] and nothing else
    happens, whatever token is stored; without one the params come back as
    they were and the header carries what [access_token] returned. *)
Theorem add_auth_key_or_bearer params w :
  (static_key w = true ->
   exists k, creds w !! "api_key" = Some k
             /\ API._add_auth params w = ([], Ok (<["hapikey" := k]> params), w))
  /\ (static_key w = false ->
      forall sent, result_of (API._add_auth params w) = Ok sent ->
        sent = params
        /\ authorization (world_of (API._add_auth params w))
           = Some (if API.opt_truthy (creds w !! "access_token")
                   then creds (world_of (API._add_auth params w)) !! "access_token"
                   else None)).
Proof.
  unfold static_key. split; intros Hk.
  - destruct (creds w !! "api_key") as [k|] eqn:Ek; [|discriminate].
    exists k. split; [reflexivity|].
    unfold API._add_auth, API.api_key, API.cred_get, bind. cbn. rewrite Ek, Hk. cbn.
    rewrite Ek. reflexivity.
  - intros sent.
    unfold API._add_auth, API.api_key, API.cred_get, bind. cbn. rewrite Hk.
    unfold API.access_token, API.cred_get, bind. cbn.
    destruct (API.opt_truthy (creds w !! "access_token")); cbn.
    + destruct (API.refresh_due w) as [[t [due|e|]] w1] eqn:Hdue; cbn;
        try discriminate.
      assert (w1 = w) as ->.
      { unfold API.refresh_due in Hdue.
        destruct (token_expires w) as [[[]|]|]; injection Hdue; auto. }
      destruct due; cbn.
      * destruct (API._acquire_access_token_from_refresh_token w) as [[t' [[]|e|]] w2];
          cbn; try discriminate.
        intros [= <-]. auto.
      * intros [= <-]. auto.
    + intros [= <-]. auto.
Qed.

(** X9: a refresh that fails while a GET authenticates ends the GET: the
    error of the token endpoint (a 429 there included) is not a rate-limit
    error, so nothing is retried and no request reaches the API. *)
Theorem get_refresh_failure_is_not_retried url params w r rest a b c d :
  static_key w = false ->
  API.opt_truthy (creds w !! "access_token") = true ->
  expiry_due w ->
  refresh_fields w a b c d ->
  token_script w = r :: rest ->
  (400 <= status_code r < 600)%Z ->
  API.get url params w
  = ([TokenRequest token_url (refresh_payload a b c d)],
     Raise (refresh_error r),
     with_token_script rest w).
Proof.
  intros Hk Htok Hdue Hf Hts Hst.
  assert (Hd : API.refresh_due w = ([], Ok true, w)).
  { unfold API.refresh_due. destruct Hdue as [->|(e & -> & Hlt)]; [reflexivity|].
    replace (e <? clock w)%Z with true by (symmetry; apply Z.ltb_lt; lia). reflexivity. }
  assert (Hat : API.access_token w
                = ([TokenRequest token_url (refresh_payload a b c d)],
                   Raise (refresh_error r), with_token_script rest w)).
  { unfold API.access_token.
    rewrite (bind_ok _ _ w [] (creds w !! "access_token") w) by reflexivity.
    rewrite Htok. cbn [negb].
    rewrite (bind_ok _ _ _ _ _ _ Hd). cbv beta iota.
    rewrite (bind_raise _ _ _ _ _ _
               (refresh_rejected w r rest a b c d Hf Hts Hst)).
    reflexivity. }
  assert (Hauth : API._add_auth params w
                  = ([TokenRequest token_url (refresh_payload a b c d)],
                     Raise (refresh_error r), with_token_script rest w)).
  { unfold API._add_auth, API.api_key.
    rewrite (bind_ok _ _ w [] (creds w !! "api_key") w) by reflexivity.
    unfold static_key in Hk. rewrite Hk.
    rewrite (bind_raise _ _ _ _ _ _ Hat). reflexivity. }
  unfold API.get, retry_after_handler. apply on_exception_pass.
  - unfold API.exchange. apply bind_raise, Hauth.
  - intros e [= <-]. unfold refresh_error. destruct (status_code r =? 403)%Z; reflexivity.
Qed.

(** ** Invariants and traces *)

Lemma trace_catch {A : Type} (m : M A) handles (h : exn -> M A) u :
  trace_of (catch m handles h u)
  = trace_of (m u)
    ++ match result_of (m u) with
       | Raise e => if handles e then trace_of (h e (world_of (m u))) else []
       | _ => []
       end.
Proof.
  unfold catch, trace_of, result_of, world_of.
  destruct (m u) as [[t [a|e|]] u1]; cbn; rewrite ?app_nil_r; try reflexivity.
  destruct (handles e); cbn; rewrite ?app_nil_r; try reflexivity.
  destruct (h e u1) as [[t' r'] u2]. reflexivity.
Qed.

Lemma no_token_request_refreshes t :
  forallb no_token_request t = true -> refreshes t = false.
Proof.
  induction t as [|e t IH]; [reflexivity|]. cbn.
  intros [He Ht]%andb_prop. unfold no_token_request in He.
  apply negb_true_iff in He. rewrite He. cbn. auto.
Qed.

Lemma no_request_requests t : forallb no_request t = true -> requests t = [].
Proof.
  induction t as [|e t IH]; [reflexivity|]. cbn.
  intros [He Ht]%andb_prop. destruct e; try discriminate; cbn; auto.
Qed.

Section Keeps.
Context (I : world -> Prop) (P : event -> bool).

Lemma keeps_silent {A : Type} (m : M A) :
  (forall u, trace_of (m u) = []) -> (forall u, I u -> I (world_of (m u))) -> Keeps I P m.
Proof. intros Ht Hi u Hu. rewrite Ht. split; [reflexivity|auto]. Qed.

Lemma keeps_ret {A : Type} (a : A) : Keeps I P (ret a).
Proof. apply keeps_silent; [reflexivity|auto]. Qed.

Lemma keeps_raise {A : Type} e : Keeps I P (@raise A e).
Proof. apply keeps_silent; [reflexivity|auto]. Qed.

Lemma keeps_lift {A : Type} (r : result A) : Keeps I P (lift r).
Proof. apply keeps_silent; [reflexivity|auto]. Qed.

Lemma keeps_emit e : P e = true -> Keeps I P (emit e).
Proof. intros He u Hu. cbn. rewrite He. auto. Qed.

Lemma keeps_bind {A B : Type} (m : M A) (f : A -> M B) :
  Keeps I P m -> (forall a, Keeps I P (f a)) -> Keeps I P (bind m f).
Proof.
  intros Hm Hf u Hu. destruct (Hm u Hu) as [Ht Hi]. unfold bind.
  destruct (m u) as [[t [a|e|]] u1]; cbn in *; auto.
  destruct (Hf a u1 Hi) as [Ht' Hi']. destruct (f a u1) as [[t' r'] u2]. cbn in *.
  rewrite forallb_app, Ht, Ht'. auto.
Qed.

Lemma keeps_catch {A : Type} (m : M A) handles (h : exn -> M A) :
  Keeps I P m -> (forall e, Keeps I P (h e)) -> Keeps I P (catch m handles h).
Proof.
  intros Hm Hh u Hu. destruct (Hm u Hu) as [Ht Hi]. unfold catch.
  destruct (m u) as [[t [a|e|]] u1]; cbn in *; auto.
  destruct (handles e); cbn; auto.
  destruct (Hh e u1 Hi) as [Ht' Hi']. destruct (h e u1) as [[t' r'] u2]. cbn in *.
  rewrite forallb_app, Ht, Ht'. auto.
Qed.

Hypothesis I_script : forall u sc, I u -> I (with_script sc u).
Hypothesis I_clock : forall u t, I u -> I (with_clock t u).
Hypothesis P_sleep : forall s, P (Sleep s) = true.
Hypothesis P_log_sleep : forall secs, P (Log (RateLimitSleep secs)) = true.
Hypothesis P_log_giveup : P (Log MaxRetryReached) = true.
Hypothesis P_request : forall m url params data auth, P (Request m url params data auth) = true.
Hypothesis P_call : forall params, P (Call params) = true.
Hypothesis P_yield : forall row, P (Yield row) = true.
Hypothesis add_auth_keeps : forall params, Keeps I P (API._add_auth params).

Lemma keeps_session_send : Keeps I P session_send.
Proof.
  intros u Hu. unfold session_send. destruct (script u); cbn; auto.
Qed.

Lemma keeps_time_sleep secs : Keeps I P (time_sleep secs).
Proof.
  intros u Hu. unfold time_sleep. destruct (_ || _); [cbn; auto|].
  destruct (secs <? 0)%Z; cbn; auto.
  rewrite P_sleep. auto.
Qed.

Lemma keeps_sleep_on_ratelimit e : Keeps I P (sleep_on_ratelimit e).
Proof.
  unfold sleep_on_ratelimit. destruct e; try apply keeps_ret.
  destruct (header _ _); [|apply keeps_raise].
  destruct (py_int _); [|apply keeps_raise].
  apply keeps_bind; [apply keeps_emit, P_log_sleep|intros _; apply keeps_time_sleep].
Qed.

Lemma keeps_on_exception {A : Type} fuel interval max_tries tries (target : M A) :
  Keeps I P target -> Keeps I P (on_exception fuel interval max_tries tries target).
Proof.
  intros Ht. revert tries.
  induction fuel as [|fuel IH]; intros tries; cbn [on_exception];
    (apply keeps_catch; [exact Ht|intros e]);
    (destruct (tries =? max_tries)%nat;
     [apply keeps_bind; [apply keeps_emit, P_log_giveup|intros _; apply keeps_raise]|]);
    (apply keeps_bind; [apply keeps_sleep_on_ratelimit|intros _]);
    (apply keeps_bind; [apply keeps_time_sleep|intros _]).
  - apply keeps_lift.
  - apply IH.
Qed.

Lemma keeps_exchange m url data params : Keeps I P (API.exchange m url data params).
Proof.
  unfold API.exchange.
  apply keeps_bind; [apply add_auth_keeps|intros sent].
  apply keeps_bind; [apply keeps_silent; [reflexivity|auto]|intros auth].
  apply keeps_bind; [apply keeps_emit, P_request|intros _].
  apply keeps_bind; [apply keeps_session_send|intros resp].
  apply keeps_bind; [apply keeps_lift|intros body]. apply keeps_ret.
Qed.

Lemma keeps_get url params : Keeps I P (API.get url params).
Proof. apply keeps_on_exception, keeps_exchange. Qed.

Lemma keeps_post url data params : Keeps I P (API.post url data params).
Proof. apply keeps_exchange. Qed.

Lemma keeps_default_params s : Keeps I P (default_params s).
Proof.
  unfold default_params, properties.
  apply keeps_bind; [|intros props; apply keeps_bind; [apply keeps_lift|intros; apply keeps_ret]].
  destruct (entity s) as [[|c e]|]; try apply keeps_ret.
  apply keeps_bind; [apply keeps_get|intros r].
  apply keeps_bind; [apply keeps_lift|intros rows]. apply keeps_lift.
Qed.

Lemma keeps_for_each rows body :
  (forall row, Keeps I P (body row)) -> Keeps I P (for_each rows body).
Proof.
  intros Hb. induction rows as [|row rows IH]; cbn [for_each]; [apply keeps_ret|].
  apply keeps_bind; [apply Hb|intros _; apply IH].
Qed.

Lemma keeps_yield_all rows : Keeps I P (yield_all rows).
Proof.
  intros u Hu. cbn. split; [|assumption].
  induction rows as [|row rows IH]; [reflexivity|]. cbn. rewrite P_yield. exact IH.
Qed.

Lemma keeps_read_loop fuel s url params : Keeps I P (read_loop fuel s (api_getter url) params).
Proof.
  revert params. induction fuel as [|fuel IH]; intros params; cbn [read_loop].
  - apply keeps_lift.
  - apply keeps_bind.
    + unfold round.
      apply keeps_bind; [apply keeps_emit, P_call|intros _].
      apply keeps_bind; [apply keeps_get|intros r].
      apply keeps_bind; [apply keeps_lift|intros rows].
      apply keeps_bind; [apply keeps_yield_all|intros _]. apply keeps_lift.
    + intros [params'|]; [apply IH|apply keeps_ret].
Qed.

Lemma keeps_read fuel s url params : Keeps I P (read fuel s (api_getter url) params).
Proof.
  unfold read. apply keeps_bind; [apply keeps_default_params|intros dp].
  apply keeps_read_loop.
Qed.

Hypothesis P_log_chunk : forall ts end_ts, P (Log (ReadingChunk ts end_ts)) = true.

Lemma keeps_read_windows fuel s url params starts :
  Keeps I P (read_windows fuel s (api_getter url) params starts).
Proof.
  revert params. induction starts as [|ts starts IH]; intros params; cbn [read_windows].
  - apply keeps_ret.
  - apply keeps_bind; [apply keeps_emit, P_log_chunk|intros _].
    apply keeps_bind; [apply keeps_read|intros _]. apply IH.
Qed.

Lemma keeps_read_chunked fuel s url params :
  Keeps I P (read_chunked fuel s (api_getter url) params).
Proof.
  unfold read_chunked.
  apply keeps_bind; [apply keeps_silent; [reflexivity|auto]|intros now].
  apply keeps_bind; [apply keeps_lift|intros starts]. apply keeps_read_windows.
Qed.

Lemma keeps_consume fuel s url params body :
  (forall row, Keeps I P (body row)) ->
  Keeps I P (consume fuel s (api_getter url) params body).
Proof.
  intros Hb. unfold consume.
  apply keeps_bind; [apply keeps_default_params|intros dp].
  generalize (merge_params params dp) as q.
  induction fuel as [|fuel IH]; intros q; cbn [consume_loop]; [apply keeps_lift|].
  apply keeps_bind; [apply keeps_emit, P_call|intros _].
  apply keeps_bind; [apply keeps_get|intros r].
  apply keeps_bind; [apply keeps_lift|intros rows].
  apply keeps_bind; [apply keeps_for_each, Hb|intros _].
  apply keeps_bind; [apply keeps_lift|intros [q'|]]; [apply IH|apply keeps_ret].
Qed.
End Keeps.

(** ** A static key *)

Lemma add_auth_static_keeps w params :
  Keeps (same_credentials w) no_token_request (API._add_auth params).
Proof.
  intros u Hu. pose proof Hu as (Hk & _).
  unfold API._add_auth, API.api_key, API.cred_get, bind. cbn.
  unfold static_key in Hk. rewrite Hk. cbn. auto.
Qed.

Lemma static_keeps {A : Type} w (m : M A) :
  static_key w = true ->
  Keeps (same_credentials w) no_token_request m -> untouched w m.
Proof.
  intros Hk Hm. destruct (Hm w) as [Ht Hi]; [repeat split; auto|].
  split; [apply no_token_request_refreshes, Ht|exact Hi].
Qed.

(** X10: with a static key nothing ever asks the token endpoint: a GET with
    all its retries, a POST, a whole [read] or [read_chunked] and the [list]
    methods built on them make no refresh and leave the stored credentials,
    the expiry and the [Authorization] header untouched, whatever the stored
    token and whatever the server answers. *)
Theorem static_key_never_refreshes w :
  static_key w = true ->
  forall fuel s url params data start,
    untouched w (API.get url params)
    /\ untouched w (API.post url data params)
    /\ untouched w (read fuel s (api_getter url) (Some params))
    /\ untouched w (read_chunked fuel s (api_getter url) (Some params))
    /\ untouched w (campaigns_list fuel start)
    /\ untouched w (engagements_list fuel start)
    /\ untouched w (contacts_by_company_list fuel start)
    /\ untouched w workflows_list.
Proof.
  intros Hk fuel s url params data start.
  assert (Hs : forall u sc, same_credentials w u -> same_credentials w (with_script sc u))
    by (intros u sc Hu; exact Hu).
  assert (Hc : forall u t, same_credentials w u -> same_credentials w (with_clock t u))
    by (intros u t Hu; exact Hu).
  pose proof (add_auth_static_keeps w) as Ha.
  assert (Hget : forall u p, Keeps (same_credentials w) no_token_request (API.get u p))
    by (intros; apply keeps_get; auto).
  assert (Hyield : forall row, Keeps (same_credentials w) no_token_request (yield row))
    by (intros; apply keeps_emit; reflexivity).
  assert (Hrun : forall A (m : M A),
             Keeps (same_credentials w) no_token_request m -> untouched w m)
    by (intros A m; apply static_keeps, Hk).
  assert (Hitems : forall rows, Keeps (same_credentials w) no_token_request (for_each rows yield))
    by (intros; apply keeps_for_each, Hyield).
  split; [apply Hrun, Hget|].
  split; [apply Hrun, keeps_post; auto|].
  split; [apply Hrun, keeps_read; auto|].
  split; [apply Hrun, keeps_read_chunked; auto|].
  split.
  { apply Hrun, keeps_consume; auto. intros row.
    apply keeps_bind; [apply keeps_lift|intros id].
    apply keeps_bind; [apply Hget|intros record]. apply Hyield. }
  split.
  { apply Hrun, keeps_consume; auto. intros row.
    apply keeps_bind; [apply keeps_lift|intros record]. apply Hyield. }
  split.
  { apply Hrun, keeps_consume; auto. intros row.
    apply keeps_bind; [apply keeps_lift|intros id]. unfold _contacts_by_company.
    apply keeps_bind; [apply Hget|intros r].
    destruct r.2 as [| | | | |fields]; try apply keeps_raise.
    destruct (assoc "vids" fields) as [[]|]; try apply keeps_raise.
    all: apply keeps_bind; [apply keeps_lift|intros rows].
    all: apply keeps_for_each; intros v; apply Hyield. }
  apply Hrun. unfold workflows_list.
  apply keeps_bind; [apply Hget|intros r].
  apply keeps_bind; [apply keeps_lift|intros workflows].
  apply keeps_bind; [apply keeps_lift|intros rows]. apply Hitems.
Qed.

(** ** The number of requests of a GET *)

Lemma add_auth_token_events (P : event -> bool) params :
  (forall url payload, P (TokenRequest url payload) = true) ->
  (forall expires, P (Log (TokenRefreshed expires)) = true) ->
  Keeps (fun _ => True) P (API._add_auth params).
Proof.
  intros P_token P_log_token.
  assert (Hsilent : forall A (m : M A),
             (forall u, trace_of (m u) = []) -> Keeps (fun _ => True) P m)
    by (intros A m Hm; apply keeps_silent; auto).
  assert (Hitem : forall k, Keeps (fun _ => True) P (API.cred_item k)).
  { intros k. apply Hsilent. intros u. unfold API.cred_item.
    destruct (creds u !! k); reflexivity. }
  assert (Hacquire : Keeps (fun _ => True) P
                       API._acquire_access_token_from_refresh_token).
  { unfold API._acquire_access_token_from_refresh_token.
    repeat (apply keeps_bind; [apply Hitem|intros ?]).
    apply keeps_bind; [apply keeps_emit; auto|intros _].
    apply keeps_bind.
    { apply Hsilent. intros u. unfold token_send. destruct (token_script u); reflexivity. }
    intros resp. destruct (status_code resp =? 403)%Z; [apply keeps_raise|].
    repeat first
      [ apply keeps_bind; [|intros ?]
      | apply keeps_lift
      | apply keeps_emit; auto
      | apply Hsilent; intros u; reflexivity ]. }
  unfold API._add_auth, API.api_key, API.access_token, API.cred_get.
  apply keeps_bind; [apply Hsilent; reflexivity|intros key].
  destruct (API.opt_truthy key).
  - apply keeps_bind; [apply Hsilent; reflexivity|intros key']. apply keeps_ret.
  - apply keeps_bind; [|intros tok; apply keeps_bind;
                         [apply Hsilent; reflexivity|intros; apply keeps_ret]].
    apply keeps_bind; [apply Hsilent; reflexivity|intros tok].
    destruct (negb (API.opt_truthy tok)); [apply keeps_ret|].
    apply keeps_bind.
    { apply Hsilent. intros u. unfold API.refresh_due.
      destruct (token_expires u) as [[[]|]|]; reflexivity. }
    intros due. apply keeps_bind; [destruct due; [apply Hacquire|apply keeps_ret]|intros _].
    apply Hsilent. reflexivity.
Qed.

Lemma add_auth_sends_no_request params :
  Keeps (fun _ => True) no_request (API._add_auth params).
Proof. apply add_auth_token_events; reflexivity. Qed.

(** One exchange sends at most one request. *)
Lemma exchange_at_most_one_request m url data params u :
  length (requests (trace_of (API.exchange m url data params u))) <= 1.
Proof.
  unfold API.exchange. rewrite trace_bind.
  destruct (add_auth_sends_no_request params u Logic.I) as [Hauth _].
  unfold requests at 1. rewrite omap_app. fold (requests (trace_of (API._add_auth params u))).
  rewrite (no_request_requests _ Hauth). cbn [app].
  generalize (world_of (API._add_auth params u)) as u1. intros u1.
  destruct (result_of (API._add_auth params u)) as [sent| |]; [|cbn; lia..].
  unfold session_authorization, emit, session_send, bind, trace_of, lift, ret.
  destruct (script u1) as [|r rest]; cbn; [lia|].
  destruct (API._parse_and_handle_errors r); cbn; lia.
Qed.

Lemma handlers_send_no_request e interval u :
  requests (trace_of ((sleep_on_ratelimit e;; time_sleep interval)%M u)) = [].
Proof.
  apply no_request_requests.
  assert (H : Keeps (fun _ => True) no_request (sleep_on_ratelimit e;; time_sleep interval)%M).
  { apply keeps_bind; [apply keeps_sleep_on_ratelimit|intros _; apply keeps_time_sleep];
      auto. }
  apply (H u Logic.I).
Qed.

Lemma handled_request_budget {A : Type} (rec : M A) e interval u n :
  (forall v, length (requests (trace_of (rec v))) <= n) ->
  length (requests (trace_of ((sleep_on_ratelimit e;; time_sleep interval;; rec)%M u))) <= n.
Proof.
  intros Hrec.
  pose proof (handlers_send_no_request e interval u) as Hh.
  rewrite trace_bind in Hh. rewrite trace_bind.
  unfold requests in *. rewrite omap_app in Hh. rewrite omap_app.
  apply app_eq_nil in Hh as [Hh1 Hh2]. rewrite Hh1. cbn [app].
  destruct (result_of (sleep_on_ratelimit e u)) as [[]| |]; [|cbn; lia..].
  rewrite trace_bind, omap_app, Hh2. cbn [app].
  destruct (result_of (time_sleep interval _)) as [[]| |]; [|cbn; lia..].
  apply Hrec.
Qed.

Lemma on_exception_request_budget {A : Type} (target : M A) fuel interval max_tries :
  (forall u, length (requests (trace_of (target u))) <= 1) ->
  forall tries u,
    tries <= max_tries ->
    length (requests (trace_of (on_exception fuel interval max_tries tries target u)))
    <= S (max_tries - tries).
Proof.
  intros Ht.
  assert (Hstep : forall (rec : M A) n u,
             (forall v, length (requests (trace_of (rec v))) <= n) ->
             length (requests (trace_of
               (catch target is_rate_limited (fun e =>
                  sleep_on_ratelimit e;; time_sleep interval;; rec)%M u)))
             <= S n).
  { intros rec n u Hrec. rewrite trace_catch.
    unfold requests. rewrite omap_app, length_app.
    pose proof (Ht u) as H1. unfold requests in H1.
    destruct (result_of (target u)) as [a|e|]; [cbn; lia| |cbn; lia].
    destruct (is_rate_limited e); [|cbn; lia].
    pose proof (handled_request_budget rec e interval (world_of (target u)) n Hrec) as H2.
    unfold requests in H2. lia. }
  assert (Hlast : forall u,
             length (requests (trace_of
               (catch target is_rate_limited (fun e => log_giveup;; raise e)%M u))) <= 1).
  { intros u. rewrite trace_catch. unfold requests. rewrite omap_app, length_app.
    pose proof (Ht u) as H1. unfold requests in H1.
    destruct (result_of (target u)) as [a|e|]; [cbn; lia| |cbn; lia].
    destruct (is_rate_limited e); cbn; lia. }
  induction fuel as [|fuel IH]; intros tries u Hle; cbn [on_exception].
  - destruct (tries =? max_tries)%nat eqn:Etries.
    + etransitivity; [apply Hlast|lia].
    + apply (Hstep (lift OutOfFuel) (max_tries - tries) u).
      intros v. cbn. lia.
  - destruct (tries =? max_tries)%nat eqn:Etries.
    + etransitivity; [apply Hlast|lia].
    + apply Nat.eqb_neq in Etries.
      apply (Hstep (on_exception fuel interval max_tries (S tries) target)
               (max_tries - tries) u).
      intros v. etransitivity; [apply (IH (S tries) v); lia|lia].
Qed.

(** X11: whatever the world and whatever the server answers, one call of
    [get] sends at most three requests to the API. *)
Theorem get_sends_at_most_three_requests url params u :
  length (requests (trace_of (API.get url params u))) <= 3.
Proof.
  unfold API.get, retry_after_handler.
  apply (on_exception_request_budget _ 3 0 3
           (exchange_at_most_one_request GET url None params) 1 u).
  lia.
Qed.

(** ** The retry decorator at its edges *)

(** X12: a 429 without a [Retry-After] header ends the GET with the
    [KeyError] of the header lookup in the backoff handler, after that one
    request: nothing is slept, nothing is sent again, and the rate-limit
    error itself is lost. *)
Theorem get_429_missing_retry_after_is_not_retried url params w deadline r rest :
  settled deadline w = true ->
  (clock w <= deadline)%Z ->
  script w = r :: rest ->
  status_code r = 429%Z ->
  header "Retry-After" (headers r) = None ->
  result_of (API.get url params w) = Raise (KeyError "retry-after")
  /\ requests (trace_of (API.get url params w)) = [(GET, API.BASE_URL +:+ url)]
  /\ sleeps (trace_of (API.get url params w)) = []
  /\ script (world_of (API.get url params w)) = rest.
Proof.
  intros Hs Hc Hsc H429 Hh.
  rewrite (get_429_without_retry_after url params w deadline r rest Hs Hc Hsc H429 Hh).
  repeat split; reflexivity.
Qed.

Lemma time_sleep_refused secs u :
  (- sleep_max <= secs < 0)%Z -> time_sleep secs u = ([], Raise ValueError, u).
Proof.
  intros Hsecs. unfold time_sleep.
  destruct (Z.ltb_spec secs (- sleep_max)); [lia|].
  destruct (Z.ltb_spec sleep_max secs); [unfold sleep_max in *; lia|].
  destruct (Z.ltb_spec secs 0); [reflexivity|lia].
Qed.

Lemma time_sleep_overflow secs u :
  (secs < - sleep_max)%Z \/ (sleep_max < secs)%Z ->
  time_sleep secs u = ([], Raise OverflowError, u).
Proof.
  intros Hsecs. unfold time_sleep.
  destruct (Z.ltb_spec secs (- sleep_max)); [reflexivity|].
  destruct (Z.ltb_spec sleep_max secs); [reflexivity|lia].
Qed.

(** X13: a 429 whose [Retry-After] is no integer ([int] fails) or an integer
    [n] whose [n + 1] is no length [time.sleep] takes ends the GET after
    that one request: with [ValueError] when [int] fails or [n + 1] is
    negative, with [OverflowError] when [n + 1] does not fit the 64-bit
    count of nanoseconds.  Nothing is slept, nothing is sent again. *)
Theorem get_429_with_bad_retry_after url params w deadline r rest v e :
  settled deadline w = true ->
  (clock w <= deadline)%Z ->
  script w = r :: rest ->
  status_code r = 429%Z ->
  header "Retry-After" (headers r) = Some v ->
  (py_int v = None /\ e = ValueError)
  \/ (exists n, py_int v = Some n
                /\ (((- sleep_max <= n + 1 < 0)%Z /\ e = ValueError)
                    \/ (((n + 1 < - sleep_max)%Z \/ (sleep_max < n + 1)%Z)
                        /\ e = OverflowError))) ->
  result_of (API.get url params w) = Raise e
  /\ requests (trace_of (API.get url params w)) = [(GET, API.BASE_URL +:+ url)]
  /\ sleeps (trace_of (API.get url params w)) = []
  /\ script (world_of (API.get url params w)) = rest.
Proof.
  intros Hs Hc Hsc H429 Hh Hbad. unfold API.get, retry_after_handler.
  cbn [on_exception]. unfold catch.
  rewrite (exchange_first deadline _ _ _ _ _ _ _ Hs Hc Hsc).
  rewrite (classified_raise _ _ _ _ (parse_429 r H429)).
  cbn [is_rate_limited Nat.eqb]. unfold bind at 1 2 3 4, sleep_on_ratelimit. rewrite Hh.
  destruct Hbad as [[-> ->]|(n & -> & [[Hn ->]|[Hn ->]])].
  - repeat split; reflexivity.
  - unfold bind, emit. rewrite (time_sleep_refused _ _ Hn). repeat split; reflexivity.
  - unfold bind, emit. rewrite (time_sleep_overflow _ _ Hn). repeat split; reflexivity.
Qed.

(** X14: the budget counts attempts, so two 429s still leave one: a GET
    answered 429, 429, 200, each 429 asking for a wait that [time.sleep]
    takes, sleeps after each 429 and returns the body of the 200 from its
    third request. *)
Theorem get_succeeds_on_third_attempt url params w deadline r1 r2 r3 rest v1 v2 n1 n2 body :
  settled deadline w = true ->
  script w = r1 :: r2 :: r3 :: rest ->
  status_code r1 = 429%Z -> status_code r2 = 429%Z ->
  header "Retry-After" (headers r1) = Some v1 -> py_int v1 = Some n1 ->
  header "Retry-After" (headers r2) = Some v2 -> py_int v2 = Some n2 ->
  (0 <= n1 + 1 <= sleep_max)%Z -> (0 <= n2 + 1 <= sleep_max)%Z ->
  API._parse_and_handle_errors r3 = Ok body ->
  (clock w + (n1 + 1) * 1000000 + (n2 + 1) * 1000000 <= deadline)%Z ->
  API.get url params w
  = ([sent_request w GET url None params;
      Log (RateLimitSleep n1); Sleep (n1 + 1); Sleep 0;
      sent_request w GET url None params;
      Log (RateLimitSleep n2); Sleep (n2 + 1); Sleep 0;
      sent_request w GET url None params],
     Ok (kept_params w params, body),
     during w rest
       (clock w + (n1 + 1) * 1000000 + 0 * 1000000 + (n2 + 1) * 1000000 + 0 * 1000000)).
Proof.
  intros Hs Hsc H1 H2 Hh1 Hv1 Hh2 Hv2 Hn1 Hn2 Hbody Hd.
  set (t2 := (clock w + (n1 + 1) * 1000000 + 0 * 1000000)%Z).
  set (t3 := (t2 + (n2 + 1) * 1000000 + 0 * 1000000)%Z).
  assert (E1 : API.exchange GET url None params w
               = ([sent_request w GET url None params],
                  Raise (HubspotRateLimited (API.rate_limit_message r1) r1),
                  during w (r2 :: r3 :: rest) (clock w))).
  { rewrite (exchange_first deadline _ _ _ _ _ _ _ Hs ltac:(lia) Hsc).
    rewrite (classified_raise _ _ _ _ (parse_429 r1 H1)). reflexivity. }
  assert (E2 : API.exchange GET url None params (during w (r2 :: r3 :: rest) t2)
               = ([sent_request w GET url None params],
                  Raise (HubspotRateLimited (API.rate_limit_message r2) r2),
                  during w (r3 :: rest) t2)).
  { rewrite (exchange_during deadline) by (try exact Hs; subst t2; lia).
    rewrite (classified_raise _ _ _ _ (parse_429 r2 H2)). reflexivity. }
  assert (E3 : API.exchange GET url None params (during w (r3 :: rest) t3)
               = ([sent_request w GET url None params], Ok (kept_params w params, body),
                  during w rest t3)).
  { rewrite (exchange_during deadline) by (try exact Hs; subst t3 t2; lia).
    unfold classified. rewrite Hbody. reflexivity. }
  assert (Hzero : (0 <= 0 <= sleep_max)%Z) by (unfold sleep_max; lia).
  unfold API.get, retry_after_handler.
  rewrite (on_exception_again _ 2 0 3 1 w _ _ r1 _ v1 n1 E1) by (assumption || lia).
  rewrite !slept_during. fold t2.
  rewrite (on_exception_again _ 1 0 3 2 _ _ _ r2 _ v2 n2 E2) by (assumption || lia).
  rewrite !slept_during. fold t3.
  rewrite (on_exception_pass _ 1 0 3 3 _ _ _ _ E3) by discriminate.
  reflexivity.
Qed.

(** ** Whole paginations *)

Lemma yielded_yields rows : yielded (Yield <$> rows) = rows.
Proof. induction rows as [|x l IH]; [reflexivity|]. cbn. f_equal. exact IH. Qed.

Lemma calls_yields rows : calls (Yield <$> rows) = [].
Proof. induction rows as [|x l IH]; [reflexivity|]. exact IH. Qed.

Lemma requests_yields rows : requests (Yield <$> rows) = [].
Proof. induction rows as [|x l IH]; [reflexivity|]. exact IH. Qed.

Lemma sleeps_yields rows : sleeps (Yield <$> rows) = [].
Proof. induction rows as [|x l IH]; [reflexivity|]. exact IH. Qed.

Lemma requests_app t1 t2 : requests (t1 ++ t2) = requests t1 ++ requests t2.
Proof. apply omap_app. Qed.

Lemma sleeps_app t1 t2 : sleeps (t1 ++ t2) = sleeps t1 ++ sleeps t2.
Proof. apply omap_app. Qed.

Section Pages.
Context (s : stream) (url : string) (w : world) (deadline : Z).
Hypothesis Hsettled : settled deadline w = true.

Lemma exchange_in_call m data params u r rest :
  in_call w u -> (clock u <= deadline)%Z -> script u = r :: rest ->
  API.exchange m url data params u
  = ([sent_request w m url data params], classified w params r, during w rest (clock u)).
Proof.
  intros [|sc t] Hc Hsc.
  - apply (exchange_first deadline); assumption.
  - cbn in Hsc. subst sc. apply (exchange_during deadline); assumption.
Qed.

Lemma get_in_call params u r rest body :
  in_call w u -> (clock u <= deadline)%Z -> script u = r :: rest ->
  API._parse_and_handle_errors r = Ok body ->
  API.get url params u
  = ([sent_request w GET url None params], Ok (kept_params w params, body),
     during w rest (clock u)).
Proof.
  intros Hu Hc Hsc Hbody. unfold API.get, retry_after_handler.
  apply on_exception_pass; [|discriminate].
  rewrite (exchange_in_call _ _ _ _ _ _ Hu Hc Hsc). unfold classified. rewrite Hbody.
  reflexivity.
Qed.

Lemma get_in_call_dropped params u :
  in_call w u -> (clock u <= deadline)%Z -> script u = [] ->
  exists u', API.get url params u
             = ([sent_request w GET url None params], Raise ConnectionError, u')
             /\ in_call w u' /\ script u' = [] /\ clock u' = clock u.
Proof.
  intros Hu Hc Hsc.
  assert (Hauth : exists u', API._add_auth params u = ([], Ok (sent_params w params), u')
                             /\ in_call w u' /\ script u' = [] /\ clock u' = clock u
                             /\ authorization u' = sent_header w).
  { destruct Hu as [|sc t].
    - exists (during w [] (clock w)).
      split; [rewrite (add_auth_settled deadline) by assumption; rewrite Hsc; reflexivity|].
      repeat split. constructor.
    - cbn in Hsc. subst sc. exists (during w [] t).
      split; [apply (add_auth_during deadline); assumption|].
      repeat split. constructor. }
  destruct Hauth as (u' & Hauth & Hu' & Hsc' & Hc' & Hh). exists u'.
  split; [|auto]. unfold API.get, retry_after_handler.
  apply on_exception_pass; [|intros e [= <-]; reflexivity].
  unfold API.exchange. rewrite (bind_ok _ _ _ _ _ _ Hauth).
  unfold session_authorization, emit, session_send, bind, trace_of, result_of, world_of.
  cbn. rewrite Hsc', Hh. reflexivity.
Qed.

Lemma round_in_call params u r rest fields rows next :
  in_call w u -> (clock u <= deadline)%Z -> script u = r :: rest ->
  API._parse_and_handle_errors r = Ok (JObj fields) ->
  container s (JObj fields) = Ok rows ->
  paginate s (kept_params w params) fields = Ok next ->
  round s (api_getter url) params u
  = (Call params :: [sent_request w GET url None params] ++ (Yield <$> rows), Ok next,
     during w rest (clock u)).
Proof.
  intros Hu Hc Hsc Hbody Hrows Hnext.
  apply (round_ok s (api_getter url) _ _ _ _ _ _ _ _
           (get_in_call params u r rest _ Hu Hc Hsc Hbody) Hrows Hnext).
Qed.

(** A run of [read] over pages that continue: the rows of the pages, in
    order, one request each, and then the run on what the server says
    next. *)
Lemma read_pages_prefix pages : forall params u fuel rest,
  in_call w u -> (clock u <= deadline)%Z ->
  Forall (continues s) pages ->
  script u = page_responses pages ++ rest ->
  exists tp u',
    in_call w u' /\ script u' = rest /\ clock u' = clock u
    /\ yielded tp = concat (page_rows <$> pages)
    /\ calls tp = page_calls w pages params
    /\ requests tp = replicate (length pages) (GET, API.BASE_URL +:+ url)
    /\ sleeps tp = []
    /\ read_loop (length pages + fuel) s (api_getter url) params u
       = (tp ++ trace_of (read_loop fuel s (api_getter url) (after_pages w pages params) u'),
          result_of (read_loop fuel s (api_getter url) (after_pages w pages params) u'),
          world_of (read_loop fuel s (api_getter url) (after_pages w pages params) u')).
Proof.
  induction pages as [|pg pages IH]; intros params u fuel rest Hu Hc Hpages Hsc.
  - exists [], u. repeat split; auto. cbn. apply run_eta.
  - apply Forall_cons in Hpages as [[Hrows Hnext] Hpages]. cbn in Hsc.
    match type of Hsc with _ = ?r :: _ => set (r0 := r) in * end.
    assert (Hround := round_in_call params u r0 (page_responses pages ++ rest)
                        (page_fields pg) (page_rows pg) _ Hu Hc Hsc eq_refl Hrows
                        (Hnext (kept_params w params))).
    destruct (IH (page_next pg (kept_params w params))
                (during w (page_responses pages ++ rest) (clock u)) fuel rest
                (in_call_during w _ _) Hc Hpages eq_refl)
      as (tp & u' & Hu' & Hsc' & Hc' & Hy & Hcalls & Hreq & Hsl & Hrun).
    exists ((Call params :: [sent_request w GET url None params] ++ (Yield <$> page_rows pg))
              ++ tp), u'.
    split; [exact Hu'|]. split; [exact Hsc'|]. split; [exact Hc'|].
    split.
    { rewrite yielded_app, Hy. cbn. rewrite yielded_yields. reflexivity. }
    split.
    { rewrite calls_app, Hcalls. cbn. rewrite calls_yields. reflexivity. }
    split.
    { rewrite requests_app, Hreq. cbn. rewrite requests_yields. reflexivity. }
    split.
    { rewrite sleeps_app, Hsl. cbn. rewrite sleeps_yields. reflexivity. }
    cbn [length Nat.add].
    rewrite (read_loop_continue s (api_getter url) _ _ _ _ _ _ Hround).
    cbn [after_pages]. rewrite Hrun. unfold trace_of, result_of, world_of. cbn [fst snd].
    rewrite <- app_assoc. reflexivity.
Qed.
End Pages.

Lemma read_pages_in_call s url w deadline pages last rest params fuel u :
  settled deadline w = true ->
  in_call w u ->
  (clock u <= deadline)%Z ->
  Forall (continues s) pages ->
  stops s (page_fields last) (page_rows last) ->
  script u = page_responses (pages ++ [last]) ++ rest ->
  length pages < fuel ->
  yielded (trace_of (read_loop fuel s (api_getter url) params u))
  = concat (page_rows <$> pages) ++ page_rows last
  /\ result_of (read_loop fuel s (api_getter url) params u) = Ok tt
  /\ requests (trace_of (read_loop fuel s (api_getter url) params u))
     = replicate (S (length pages)) (GET, API.BASE_URL +:+ url)
  /\ sleeps (trace_of (read_loop fuel s (api_getter url) params u)) = []
  /\ script (world_of (read_loop fuel s (api_getter url) params u)) = rest.
Proof.
  intros Hs Hu Hc Hpages [Hrows Hstop] Hsc Hfuel.
  destruct (Nat.le_exists_sub (S (length pages)) fuel Hfuel) as (k & -> & _).
  replace (k + S (length pages)) with (length pages + S k) by lia.
  unfold page_responses in Hsc. rewrite fmap_app, <- app_assoc in Hsc. cbn in Hsc.
  destruct (read_pages_prefix s url w deadline Hs pages params u (S k) _
              Hu Hc Hpages Hsc)
    as (tp & u' & Hu' & Hsc' & Hc' & Hy & Hcalls & Hreq & Hsl & ->).
  assert (Hlast : read_loop (S k) s (api_getter url) (after_pages w pages params) u'
                  = (Call (after_pages w pages params)
                       :: [sent_request w GET url None (after_pages w pages params)]
                       ++ (Yield <$> page_rows last),
                     Ok tt, during w rest (clock u'))).
  { apply read_loop_stop.
    eapply (round_in_call s url w deadline Hs);
      [exact Hu'|lia|exact Hsc'|reflexivity|exact Hrows|apply Hstop]. }
  rewrite Hlast. unfold trace_of, result_of, world_of. cbn [fst snd].
  rewrite yielded_app, requests_app, sleeps_app, Hy, Hreq, Hsl.
  cbn. rewrite yielded_yields, requests_yields, sleeps_yields.
  repeat split; try reflexivity.
  cbn [replicate]. symmetry. apply replicate_cons_app.
Qed.

Lemma read_pages_complete s url w deadline pages last rest params fuel :
  settled deadline w = true ->
  (clock w <= deadline)%Z ->
  Forall (continues s) pages ->
  stops s (page_fields last) (page_rows last) ->
  script w = page_responses (pages ++ [last]) ++ rest ->
  length pages < fuel ->
  yielded (trace_of (read_loop fuel s (api_getter url) params w))
  = concat (page_rows <$> pages) ++ page_rows last
  /\ result_of (read_loop fuel s (api_getter url) params w) = Ok tt
  /\ calls (trace_of (read_loop fuel s (api_getter url) params w))
     = page_calls w pages params ++ [after_pages w pages params]
  /\ requests (trace_of (read_loop fuel s (api_getter url) params w))
     = replicate (S (length pages)) (GET, API.BASE_URL +:+ url)
  /\ sleeps (trace_of (read_loop fuel s (api_getter url) params w)) = []
  /\ script (world_of (read_loop fuel s (api_getter url) params w)) = rest.
Proof.
  intros Hs Hc Hpages [Hrows Hstop] Hsc Hfuel.
  destruct (Nat.le_exists_sub (S (length pages)) fuel Hfuel) as (k & -> & _).
  replace (k + S (length pages)) with (length pages + S k) by lia.
  unfold page_responses in Hsc. rewrite fmap_app, <- app_assoc in Hsc. cbn in Hsc.
  destruct (read_pages_prefix s url w deadline Hs pages params w (S k) _
              (in_call_start w) Hc Hpages Hsc)
    as (tp & u' & Hu' & Hsc' & Hc' & Hy & Hcalls & Hreq & Hsl & ->).
  assert (Hlast : read_loop (S k) s (api_getter url) (after_pages w pages params) u'
                  = (Call (after_pages w pages params)
                       :: [sent_request w GET url None (after_pages w pages params)]
                       ++ (Yield <$> page_rows last),
                     Ok tt, during w rest (clock u'))).
  { apply read_loop_stop.
    eapply (round_in_call s url w deadline Hs);
      [exact Hu'|lia|exact Hsc'|reflexivity|exact Hrows|apply Hstop]. }
  rewrite Hlast. unfold trace_of, result_of, world_of. cbn [fst snd].
  rewrite yielded_app, calls_app, requests_app, sleeps_app, Hy, Hcalls, Hreq, Hsl.
  cbn. rewrite yielded_yields, calls_yields, requests_yields, sleeps_yields.
  repeat split; try reflexivity.
  cbn [replicate]. symmetry. apply replicate_cons_app.
Qed.

(** X15: a pagination as a whole.  When the server answers with pages that
    each make [read] go on and then with one that makes it stop, [read]
    yields the rows of all pages in page order and in the order within each
    page, sends one request per page and none after the last, never sleeps,
    and ends normally. *)
Theorem read_yields_pages_in_order s url w deadline pages last rest params fuel :
  settled deadline w = true ->
  (clock w <= deadline)%Z ->
  Forall (continues s) pages ->
  stops s (page_fields last) (page_rows last) ->
  script w = page_responses (pages ++ [last]) ++ rest ->
  length pages < fuel ->
  yielded (trace_of (read_loop fuel s (api_getter url) params w))
  = concat (page_rows <$> pages) ++ page_rows last
  /\ result_of (read_loop fuel s (api_getter url) params w) = Ok tt
  /\ calls (trace_of (read_loop fuel s (api_getter url) params w))
     = page_calls w pages params ++ [after_pages w pages params]
  /\ requests (trace_of (read_loop fuel s (api_getter url) params w))
     = replicate (S (length pages)) (GET, API.BASE_URL +:+ url)
  /\ sleeps (trace_of (read_loop fuel s (api_getter url) params w)) = []
  /\ script (world_of (read_loop fuel s (api_getter url) params w)) = rest.
Proof.
  exact (read_pages_complete s url w deadline pages last rest params fuel).
Qed.

(** X16: whatever the server does after them, the rows of the pages that
    made [read] go on have been yielded, in order, before anything else:
    a later failure takes nothing back. *)
Theorem read_yields_pages_before_anything_else s url w deadline pages rest params fuel :
  settled deadline w = true ->
  (clock w <= deadline)%Z ->
  Forall (continues s) pages ->
  script w = page_responses pages ++ rest ->
  length pages <= fuel ->
  exists later,
    yielded (trace_of (read_loop fuel s (api_getter url) params w))
    = concat (page_rows <$> pages) ++ later.
Proof.
  intros Hs Hc Hpages Hsc Hfuel.
  destruct (Nat.le_exists_sub (length pages) fuel Hfuel) as (k & -> & _).
  replace (k + length pages) with (length pages + k) by lia.
  destruct (read_pages_prefix s url w deadline Hs pages params w k rest
              (in_call_start w) Hc Hpages Hsc)
    as (tp & u' & _ & _ & _ & Hy & _ & _ & _ & ->).
  eexists. unfold trace_of at 1. cbn [fst]. rewrite yielded_app, Hy. reflexivity.
Qed.

Lemma cursor_page_continues s fields rows after :
  container s (JObj fields) = Ok rows -> has_after fields after ->
  continues s (cursor_page fields rows after).
Proof.
  intros Hrows (paging & next & Hp & Hn & Ha). split; [exact Hrows|].
  intros params. unfold paginate. cbn. rewrite Hp. cbn. rewrite Hn. cbn. rewrite Ha.
  reflexivity.
Qed.

Lemma legacy_page_continues s fields rows offset :
  container s (JObj fields) = Ok rows -> has_more s fields offset ->
  continues s (legacy_page s fields rows offset).
Proof.
  intros Hrows (Hp & Hm & Ho). split; [exact Hrows|].
  intros params. unfold paginate. cbn. rewrite Hp, Hm, Ho. reflexivity.
Qed.

(** The continuation values the requests carry under [key], when every page
    puts its own there. *)
Lemma continuation_values w key (l : list (list (string * json) * list json * json)) :
  forall params,
    (fun q : gmap string json => q !! key)
      <$> (page_calls w ((fun x => {| page_fields := x.1.1; page_rows := x.1.2;
                                      page_next := insert key x.2 |}) <$> l) params
           ++ [after_pages w ((fun x => {| page_fields := x.1.1; page_rows := x.1.2;
                                           page_next := insert key x.2 |}) <$> l) params])
    = params !! key :: (Some <$> l.*2).
Proof.
  induction l as [|x l IH]; intros params; [reflexivity|].
  cbn. f_equal. rewrite IH. rewrite lookup_insert_eq. reflexivity.
Qed.

(** X17: under the cursor protocol every request after the first carries,
    as [after], the [paging.next.after] of the page before it; the rows of
    all pages come out in order. *)
Theorem cursor_requests_carry_after s url w deadline l last rest params fuel :
  settled deadline w = true ->
  (clock w <= deadline)%Z ->
  Forall (fun x => container s (JObj x.1.1) = Ok x.1.2 /\ has_after x.1.1 x.2) l ->
  stops s (page_fields last) (page_rows last) ->
  script w = page_responses (cursor_pages l ++ [last]) ++ rest ->
  length l < fuel ->
  (fun q : gmap string json => q !! "after")
    <$> calls (trace_of (read_loop fuel s (api_getter url) params w))
  = params !! "after" :: (Some <$> l.*2)
  /\ yielded (trace_of (read_loop fuel s (api_getter url) params w))
     = concat (l.*1.*2) ++ page_rows last.
Proof.
  intros Hs Hc Hl Hlast Hsc Hfuel.
  assert (Hpages : Forall (continues s) (cursor_pages l)).
  { unfold cursor_pages. apply Forall_fmap. eapply Forall_impl; [exact Hl|].
    intros x [Hrows Ha]. apply cursor_page_continues; assumption. }
  destruct (read_pages_complete s url w deadline (cursor_pages l) last rest params fuel
              Hs Hc Hpages Hlast Hsc)
    as (Hy & _ & Hcalls & _); [unfold cursor_pages; rewrite length_fmap; exact Hfuel|].
  rewrite Hy, Hcalls. split.
  - apply (continuation_values w "after" l).
  - f_equal. unfold cursor_pages. rewrite <- !list_fmap_compose. reflexivity.
Qed.

(** X18: under the legacy protocol every request after the first carries,
    under the stream's [page_filter], the value the page before it had under
    [page_field]; the rows of all pages come out in order. *)
Theorem legacy_requests_carry_offset s url w deadline l last rest params fuel :
  settled deadline w = true ->
  (clock w <= deadline)%Z ->
  Forall (fun x => container s (JObj x.1.1) = Ok x.1.2 /\ has_more s x.1.1 x.2) l ->
  stops s (page_fields last) (page_rows last) ->
  script w = page_responses (legacy_pages s l ++ [last]) ++ rest ->
  length l < fuel ->
  (fun q : gmap string json => q !! page_filter s)
    <$> calls (trace_of (read_loop fuel s (api_getter url) params w))
  = params !! page_filter s :: (Some <$> l.*2)
  /\ yielded (trace_of (read_loop fuel s (api_getter url) params w))
     = concat (l.*1.*2) ++ page_rows last.
Proof.
  intros Hs Hc Hl Hlast Hsc Hfuel.
  assert (Hpages : Forall (continues s) (legacy_pages s l)).
  { unfold legacy_pages. apply Forall_fmap. eapply Forall_impl; [exact Hl|].
    intros x [Hrows Ha]. apply legacy_page_continues; assumption. }
  destruct (read_pages_complete s url w deadline (legacy_pages s l) last rest params fuel
              Hs Hc Hpages Hlast Hsc)
    as (Hy & _ & Hcalls & _); [unfold legacy_pages; rewrite length_fmap; exact Hfuel|].
  rewrite Hy, Hcalls. split.
  - apply (continuation_values w (page_filter s) l).
  - f_equal. unfold legacy_pages. rewrite <- !list_fmap_compose. reflexivity.
Qed.

(** ** The pagination block at its edges *)

Section Edges.
Context (s : stream) (g : getter).

(** X19: a response with a [paging] object that has no [next] ends the
    read after its rows, whatever the legacy fields say: a true "more" flag
    and a continuation field are not looked at. *)
Theorem paging_without_next_stops fuel params w t1 params' fields w1 rows paging :
  g params w = (t1, Ok (params', JObj fields), w1) ->
  container s (JObj fields) = Ok rows ->
  assoc "paging" fields = Some (JObj paging) ->
  assoc "next" paging = None ->
  read_loop (S fuel) s g params w = (Call params :: t1 ++ (Yield <$> rows), Ok tt, w1).
Proof.
  intros Hg Hrows Hp Hn.
  apply read_loop_stop, (round_ok s g _ _ _ _ _ _ _ None Hg Hrows).
  unfold paginate. rewrite Hp. cbn. rewrite Hn. reflexivity.
Qed.

(** X20: a [paging.next] object without [after] makes the read fail with
    [KeyError] on that key, after the rows of the page have been yielded. *)
Theorem next_without_after_raises fuel params w t1 params' fields w1 rows paging next :
  g params w = (t1, Ok (params', JObj fields), w1) ->
  container s (JObj fields) = Ok rows ->
  assoc "paging" fields = Some (JObj paging) ->
  assoc "next" paging = Some (JObj next) ->
  assoc "after" next = None ->
  read_loop (S fuel) s g params w
  = (Call params :: t1 ++ (Yield <$> rows), Raise (KeyError "after"), w1).
Proof.
  intros Hg Hrows Hp Hn Ha. apply read_loop_raise. unfold round.
  rewrite (bind_ok _ _ w [Call params] tt w) by reflexivity.
  rewrite (bind_ok _ _ w t1 (params', JObj fields) w1) by exact Hg.
  cbn [fst snd]. rewrite Hrows. unfold paginate. rewrite Hp. cbn. rewrite Hn. cbn.
  rewrite Ha. cbn. rewrite app_nil_r. reflexivity.
Qed.

(** X21: a records container that is present but [null] is treated like a
    missing one: the same [RuntimeError], whose list of keys then names the
    container itself, and no row. *)
Theorem null_container_raises fuel params w t1 params' fields w1 :
  g params w = (t1, Ok (params', JObj fields), w1) ->
  assoc (data_path s) fields = Some JNull ->
  read_loop (S fuel) s g params w
  = (Call params :: t1,
     Raise (RuntimeError ("Unexpected API response: " +:+ data_path s +:+ " not in "
                          +:+ repr_keys (keys fields))),
     w1)
  /\ data_path s ∈ keys fields.
Proof.
  intros Hg Hnull. split.
  - apply read_loop_raise. unfold round.
    rewrite (bind_ok _ _ w [Call params] tt w) by reflexivity.
    rewrite (bind_ok _ _ w t1 (params', JObj fields) w1) by exact Hg.
    cbn [fst snd container]. rewrite Hnull. cbn. rewrite app_nil_r. reflexivity.
  - clear Hg. induction fields as [|[k v] fields IH]; [discriminate|].
    cbn in Hnull. destruct (String.eqb (data_path s) k) eqn:E.
    + apply String.eqb_eq in E. subst k. cbn. left.
    + cbn. right. apply IH, Hnull.
Qed.

(** X22: a response that is not a JSON object (a bare array, say) makes
    the read fail with [AttributeError] before any row is yielded. *)
Theorem non_object_response_raises fuel params w t1 params' response w1 :
  g params w = (t1, Ok (params', response), w1) ->
  (forall fields, response <> JObj fields) ->
  read_loop (S fuel) s g params w = (Call params :: t1, Raise AttributeError, w1).
Proof.
  intros Hg Hobj. apply read_loop_raise. unfold round.
  rewrite (bind_ok _ _ w [Call params] tt w) by reflexivity.
  rewrite (bind_ok _ _ w t1 (params', response) w1) by exact Hg.
  cbn [fst snd]. destruct response; try (cbn; rewrite app_nil_r; reflexivity).
  exfalso. eapply Hobj. reflexivity.
Qed.
End Edges.

(** ** [properties] and the default params *)

Lemma first_occurrences_from ks names :
  NoDup ks ->
  NoDup (foldl add_name ks names)
  /\ (forall n, n ∈ foldl add_name ks names <-> n ∈ ks \/ n ∈ names)
  /\ (NoDup (ks ++ names) -> foldl add_name ks names = ks ++ names).
Proof.
  revert ks. induction names as [|x names IH]; intros ks Hks; cbn.
  - rewrite app_nil_r. repeat split; auto. set_solver.
  - unfold add_name at 2 4 6. case_bool_decide as Hx.
    + destruct (IH ks Hks) as (H1 & H2 & H3). repeat split; auto.
      * intros Hn. apply H2 in Hn. set_solver.
      * intros Hn. apply H2. set_solver.
      * intros Hnd. exfalso. apply NoDup_app in Hnd as (_ & Hnd & _).
        apply (Hnd x Hx). left.
    + assert (Hks' : NoDup (ks ++ [x])).
      { apply NoDup_app. repeat split; auto; [set_solver|apply NoDup_singleton]. }
      destruct (IH (ks ++ [x]) Hks') as (H1 & H2 & H3). repeat split; auto.
      * intros Hn. apply H2 in Hn. set_solver.
      * intros Hn. apply H2. set_solver.
      * intros Hnd. rewrite H3; rewrite <- app_assoc; [reflexivity|exact Hnd].
Qed.

(** The names come out once each, in the order in which they first occur;
    a list without repetition comes out as it is. *)
Lemma first_occurrences_spec names :
  NoDup (first_occurrences names)
  /\ (forall n, n ∈ first_occurrences names <-> n ∈ names)
  /\ (NoDup names -> first_occurrences names = names).
Proof.
  destruct (first_occurrences_from [] names (NoDup_nil_2)) as (H1 & H2 & H3).
  repeat split; auto.
  - intros Hn. apply H2 in Hn. set_solver.
  - intros Hn. apply H2. auto.
Qed.

Lemma dict_set_string_keyed props ks n v :
  string_keyed props ks -> string_keyed (dict_set (JStr n) v props) (add_name ks n).
Proof.
  unfold string_keyed, add_name. revert ks.
  induction props as [|[k v'] props IH]; intros ks Hks.
  - destruct ks; [|discriminate]. reflexivity.
  - destruct ks as [|k0 ks]; [discriminate|]. cbn in Hks. injection Hks as -> Hks.
    cbn. destruct (String.eqb n k0) eqn:E.
    + apply String.eqb_eq in E. subst k0.
      rewrite bool_decide_eq_true_2 by left. cbn. rewrite Hks. reflexivity.
    + apply String.eqb_neq in E. specialize (IH ks Hks). cbn.
      destruct (decide (n ∈ ks)) as [Hn|Hn].
      * rewrite bool_decide_eq_true_2 in IH by exact Hn.
        rewrite bool_decide_eq_true_2 by (right; exact Hn).
        rewrite IH. reflexivity.
      * rewrite bool_decide_eq_false_2 in IH by exact Hn.
        rewrite bool_decide_eq_false_2
          by (intros Hin; apply elem_of_cons in Hin as [?|?]; [apply E|apply Hn]; assumption).
        rewrite IH. reflexivity.
Qed.

Lemma str_keys_string_keyed props ks : string_keyed props ks -> str_keys props = Ok ks.
Proof.
  unfold string_keyed. revert ks. induction props as [|[k v] props IH]; intros ks Hks.
  - destruct ks; [|discriminate]. reflexivity.
  - destruct ks as [|k0 ks]; [discriminate|]. cbn in Hks. injection Hks as -> Hks.
    cbn. rewrite (IH ks Hks). reflexivity.
Qed.

Lemma collect_schema_rows rows names : forall props ks,
  Forall2 schema_row rows names ->
  string_keyed props ks ->
  exists props',
    collect_properties rows props = Ok props'
    /\ string_keyed props' (foldl add_name ks names).
Proof.
  intros props ks Hrows. revert props ks.
  induction Hrows as [|row n rows names (fields & ty & -> & Hn & Ht) _ IH]; intros props ks Hks.
  - exists props. split; [reflexivity|exact Hks].
  - cbn. rewrite Ht, Hn. cbn. apply IH, dict_set_string_keyed, Hks.
Qed.

Lemma collect_properties_app good names rest : forall props ks,
  Forall2 schema_row good names ->
  string_keyed props ks ->
  exists props',
    collect_properties (good ++ rest) props = collect_properties rest props'
    /\ string_keyed props' (foldl add_name ks names).
Proof.
  intros props ks Hrows. revert props ks.
  induction Hrows as [|row n rows names (fields & ty & -> & Hn & Ht) _ IH]; intros props ks Hks.
  - exists props. split; [reflexivity|exact Hks].
  - cbn. rewrite Ht, Hn. cbn. apply IH, dict_set_string_keyed, Hks.
Qed.

Section Schema.
Context (s : stream) (e : string) (w : world) (deadline : Z).
Hypothesis Hsettled : settled deadline w = true.
Hypothesis Hentity : entity s = Some e.
Hypothesis He : e <> "".

Lemma properties_in_call u r rest rows :
  in_call w u -> (clock u <= deadline)%Z -> script u = r :: rest ->
  API._parse_and_handle_errors r = Ok (JArr rows) ->
  properties s u
  = ([sent_request w GET (properties_url e) None ∅], collect_properties rows [],
     during w rest (clock u)).
Proof.
  intros Hu Hc Hsc Hbody. unfold properties. rewrite Hentity.
  destruct e as [|c e']; [congruence|].
  pose proof (get_in_call (properties_url (String c e')) w deadline Hsettled ∅ u r rest
                (JArr rows) Hu Hc Hsc Hbody) as Hget.
  unfold properties_url in Hget.
  rewrite (bind_ok _ _ _ _ _ _ Hget). cbn [snd py_iter].
  unfold lift, bind, trace_of, result_of, world_of. cbn.
  destruct (collect_properties rows []); reflexivity.
Qed.

Lemma default_params_in_call u r rest rows names :
  in_call w u -> (clock u <= deadline)%Z -> script u = r :: rest ->
  API._parse_and_handle_errors r = Ok (JArr rows) ->
  Forall2 schema_row rows names ->
  default_params s u
  = ([sent_request w GET (properties_url e) None ∅],
     Ok (<["properties" := JStr (join "," (first_occurrences names))]>
           {["limit" := JNum (limit s)]}),
     during w rest (clock u)).
Proof.
  intros Hu Hc Hsc Hbody Hrows.
  destruct (collect_schema_rows rows names [] [] Hrows eq_refl) as (props & Hprops & Hkeys).
  pose proof (properties_in_call u r rest rows Hu Hc Hsc Hbody) as Hp.
  rewrite Hprops in Hp. unfold default_params.
  rewrite (bind_ok _ _ _ _ _ _ Hp). rewrite (str_keys_string_keyed _ _ Hkeys).
  unfold lift, bind, ret, trace_of, result_of, world_of. cbn.
  reflexivity.
Qed.

(** X23: for a stream with an entity, the default params are built from one
    GET of the entity's property schema, sent without params of its own:
    [limit] is the stream's limit, and [properties] joins the names of the
    schema with commas, each name once, in the order of the schema. *)
Theorem default_params_join_the_schema_names u r rest rows names :
  in_call w u -> (clock u <= deadline)%Z -> script u = r :: rest ->
  API._parse_and_handle_errors r = Ok (JArr rows) ->
  Forall2 schema_row rows names ->
  exists ks,
    default_params s u
    = ([sent_request w GET (properties_url e) None ∅],
       Ok (<["properties" := JStr (join "," ks)]> {["limit" := JNum (limit s)]}),
       during w rest (clock u))
    /\ NoDup ks
    /\ (forall n, n ∈ ks <-> n ∈ names)
    /\ (NoDup names -> ks = names).
Proof.
  intros Hu Hc Hsc Hbody Hrows. exists (first_occurrences names).
  split; [|apply first_occurrences_spec].
  apply (default_params_in_call u r rest rows names); assumption.
Qed.

(** X24: a row of the schema without [type], or with [type] and without
    [name], ends [read] with the [KeyError] of the missing key ([type] is
    looked up first), whatever the rows after it hold: the schema request is
    the only event, and the getter of the stream is never called. *)
Theorem read_stops_at_a_broken_schema_row
    fuel g params u r rest good names fields more key :
  in_call w u -> (clock u <= deadline)%Z -> script u = r :: rest ->
  API._parse_and_handle_errors r = Ok (JArr (good ++ JObj fields :: more)) ->
  Forall2 schema_row good names ->
  (assoc "type" fields = None /\ key = "type")
  \/ (assoc "type" fields <> None /\ assoc "name" fields = None /\ key = "name") ->
  read fuel s g params u
  = ([sent_request w GET (properties_url e) None ∅], Raise (KeyError key),
     during w rest (clock u)).
Proof.
  intros Hu Hc Hsc Hbody Hgood Hkey.
  destruct (collect_properties_app good names (JObj fields :: more) [] [] Hgood eq_refl)
    as (props & Hprops & _).
  assert (Hraise : collect_properties (good ++ JObj fields :: more) [] = Raise (KeyError key)).
  { rewrite Hprops. cbn. destruct Hkey as [[Ht ->]|(Ht & Hn & ->)].
    - rewrite Ht. reflexivity.
    - destruct (assoc "type" fields); [|congruence]. cbn. rewrite Hn. reflexivity. }
  pose proof (properties_in_call u r rest _ Hu Hc Hsc Hbody) as Hp.
  rewrite Hraise in Hp. unfold read, default_params.
  assert (Hdp : forall A (k : list (json * json) -> M A),
             bind (properties s) k u
             = ([sent_request w GET (properties_url e) None ∅], Raise (KeyError key),
                during w rest (clock u))).
  { intros A k. exact (bind_raise _ _ _ _ _ _ Hp). }
  unfold bind at 1. rewrite Hdp. reflexivity.
Qed.

End Schema.

(** X25: the first call of the getter gets the caller's params laid over
    the default params: a key of the caller keeps the caller's value, every
    other key has its default. *)
Theorem read_first_call_overrides_defaults fuel s g p w t0 dp w0 :
  default_params s w = (t0, Ok dp, w0) ->
  exists first later,
    calls (trace_of (read (S fuel) s g (Some p) w)) = first :: later
    /\ forall k, first !! k = match p !! k with Some v => Some v | None => dp !! k end.
Proof.
  intros Hdp. exists (merge_params (Some p) dp).
  unfold read. rewrite (bind_ok _ _ _ _ _ _ Hdp).
  pose proof (quiet_default_params s w) as Hq. rewrite Hdp in Hq.
  unfold trace_of at 1 in Hq. cbn [fst] in Hq.
  unfold trace_of at 1. cbn [fst]. rewrite calls_app, (quiet_calls _ Hq). cbn [app].
  cbn [read_loop]. rewrite trace_bind.
  destruct (round_calls_first s g (merge_params (Some p) dp) w0) as (t1 & Ht1).
  rewrite Ht1. cbn. eexists. split; [reflexivity|].
  intros k. unfold merge_params. destruct (decide (p = ∅)) as [->|_].
  - rewrite lookup_empty. reflexivity.
  - rewrite lookup_union. destruct (p !! k), (dp !! k); reflexivity.
Qed.

(** ** The windows of [read_chunked] *)

Lemma no_chunk_logged t : forallb no_chunk t = true -> logged_chunks t = [].
Proof.
  induction t as [|e t IH]; [reflexivity|]. cbn. intros [He Ht]%andb_prop.
  destruct e as [| | |[]| |]; try discriminate; cbn; auto.
Qed.

Lemma logged_chunks_app t1 t2 : logged_chunks (t1 ++ t2) = logged_chunks t1 ++ logged_chunks t2.
Proof. apply omap_app. Qed.

Lemma logged_chunks_cons a b t :
  logged_chunks (Log (ReadingChunk a b) :: t) = (a, b) :: logged_chunks t.
Proof. reflexivity. Qed.

Lemma read_logs_no_chunk fuel s url params u :
  logged_chunks (trace_of (read fuel s (api_getter url) params u)) = [].
Proof.
  apply no_chunk_logged.
  assert (H : Keeps (fun _ => True) no_chunk (read fuel s (api_getter url) params)).
  { apply keeps_read; auto. intros p. apply add_auth_token_events; reflexivity. }
  apply (H u Logic.I).
Qed.

Lemma read_windows_chunks fuel s url starts : forall params u,
  exists k,
    k <= length starts
    /\ logged_chunks (trace_of (read_windows fuel s (api_getter url) params starts u))
       = (fun ts => (ts, ts + chunk_size s)%Z) <$> take k starts
    /\ (result_of (read_windows fuel s (api_getter url) params starts u) = Ok tt ->
        k = length starts).
Proof.
  induction starts as [|ts starts IH]; intros params u.
  - exists 0. repeat split; auto.
  - cbn [read_windows].
    set (q := <["endTimestamp" := JNum (ts + chunk_size s)]> (<["startTimestamp" := JNum ts]> params)).
    rewrite (bind_ok _ _ u [Log (ReadingChunk ts (ts + chunk_size s))] tt u) by reflexivity.
    unfold trace_of at 1, result_of at 1. cbn [fst snd app].
    pose proof (read_logs_no_chunk fuel s url (Some q) u) as Hread.
    unfold bind at 1 3.
    destruct (read fuel s (api_getter url) (Some q) u) as [[t1 [[]|e|]] u1] eqn:E;
      unfold trace_of at 1 in Hread; cbn [fst] in Hread.
    + destruct (IH q u1) as (k & Hk & Hlog & Hres). exists (S k).
      destruct (read_windows fuel s (api_getter url) q starts u1) as [[t2 r2] u2].
      unfold trace_of, result_of in *. cbn [fst snd] in *.
      split; [cbn; lia|]. split.
      * rewrite logged_chunks_cons, logged_chunks_app, Hread, Hlog. reflexivity.
      * intros Hr. cbn. rewrite (Hres Hr). reflexivity.
    + exists 1. split; [cbn; lia|]. split; [|discriminate].
      cbn [trace_of fst]. rewrite logged_chunks_cons, Hread.
      cbn. rewrite take_0. reflexivity.
    + exists 1. split; [cbn; lia|]. split; [|discriminate].
      cbn [trace_of fst]. rewrite logged_chunks_cons, Hread.
      cbn. rewrite take_0. reflexivity.
Qed.

(** X26: [read_chunked] walks abutting windows of one chunk each, the
    first one at the milliseconds the code computes for the start date
    (through a float, so they can be one less than the exact ones): the
    windows it announces are the first [k] of that tiling, every one of them
    starts before the milliseconds of the current time, and a run that comes
    to its end has reached them.  So no window is read when the start date
    is not in the past. *)
Theorem read_chunked_walks_abutting_windows fuel s url params w :
  is_datetime (start_date s) ->
  is_datetime (clock w) ->
  (0 < chunk_size s)%Z ->
  exists k,
    logged_chunks (trace_of (read_chunked fuel s (api_getter url) params w))
    = nth_window (timestamp_ms (start_date s)) (chunk_size s) <$> seq 0 k
    /\ (forall i, i < k ->
        (timestamp_ms (start_date s) + Z.of_nat i * chunk_size s < timestamp_ms (clock w))%Z)
    /\ (result_of (read_chunked fuel s (api_getter url) params w) = Ok tt ->
        (timestamp_ms (clock w) <= timestamp_ms (start_date s) + Z.of_nat k * chunk_size s)%Z).
Proof.
  intros _ _ Hc.
  set (a := timestamp_ms (start_date s)). set (b := timestamp_ms (clock w)).
  set (c := chunk_size s) in *.
  set (n := Z.to_nat ((b - a + c - 1) / c)).
  assert (Hrange : py_range a b c = Ok ((fun i => a + Z.of_nat i * c)%Z <$> seq 0 n)).
  { unfold py_range. replace (c =? 0)%Z with false by (symmetry; apply Z.eqb_neq; lia).
    replace (0 <? c)%Z with true by (symmetry; apply Z.ltb_lt; lia). reflexivity. }
  assert (Hrun : read_chunked fuel s (api_getter url) params w
                 = read_windows fuel s (api_getter url) (default ∅ params)
                     ((fun i => a + Z.of_nat i * c)%Z <$> seq 0 n) w).
  { unfold read_chunked.
    rewrite (bind_ok _ _ w [] (clock w) w) by reflexivity.
    fold a b c.
    rewrite (bind_ok _ _ w [] _ w (f_equal (fun r => ([], r, w)) Hrange)).
    cbn [app].
    destruct (read_windows fuel s (api_getter url) (default ∅ params) _ w) as [[t r] u].
    reflexivity. }
  rewrite Hrun.
  destruct (read_windows_chunks fuel s url ((fun i => a + Z.of_nat i * c)%Z <$> seq 0 n)
              (default ∅ params) w) as (k & Hk & Hlog & Hres).
  rewrite length_fmap, length_seq in Hk, Hres.
  exists k.
  assert (Hq : (0 <= (b - a + c - 1) / c -> c * ((b - a + c - 1) / c) <= b - a + c - 1
                /\ b - a + c - 1 < c * ((b - a + c - 1) / c) + c)%Z).
  { intros _. pose proof (Z.div_mod (b - a + c - 1) c ltac:(lia)) as Hdm.
    pose proof (Z.mod_pos_bound (b - a + c - 1) c Hc). lia. }
  split; [|split].
  - rewrite Hlog, <- fmap_take, take_seq, Nat.min_l by lia.
    rewrite <- list_fmap_compose. reflexivity.
  - intros i Hi.
    assert (Hn : (Z.of_nat i + 1 <= (b - a + c - 1) / c)%Z) by (subst n; lia).
    destruct Hq as [Hlo _]; [lia|]. nia.
  - intros Hr. rewrite (Hres Hr).
    destruct (Z.le_gt_cases 0 ((b - a + c - 1) / c)) as [Hpos|Hneg].
    + destruct (Hq Hpos) as [_ Hhi]. subst n. rewrite Z2Nat.id by exact Hpos. lia.
    + assert (b - a + c - 1 < 0)%Z.
      { destruct (Z.lt_ge_cases (b - a + c - 1) 0) as [|Hge]; [assumption|].
        pose proof (Z.div_pos (b - a + c - 1) c Hge Hc). lia. }
      subst n. rewrite Z2Nat.nonpos by lia. lia.
Qed.

(** ** The [list] methods *)

Lemma for_each_yield rows u : for_each rows yield u = (Yield <$> rows, Ok tt, u).
Proof.
  induction rows as [|row rows IH]; [reflexivity|].
  cbn [for_each]. rewrite (bind_ok _ _ u [Yield row] tt u) by reflexivity.
  rewrite IH. reflexivity.
Qed.

Lemma assoc_obj_set_eq k v d : assoc k (obj_set k v d) = Some v.
Proof.
  induction d as [|[k' v'] d IH]; cbn.
  - rewrite String.eqb_refl. reflexivity.
  - destruct (String.eqb k k') eqn:E; cbn; rewrite E; auto.
Qed.

Lemma assoc_obj_set_ne k k0 v d : k0 <> k -> assoc k0 (obj_set k v d) = assoc k0 d.
Proof.
  intros Hne. induction d as [|[k' v'] d IH]; cbn.
  - apply String.eqb_neq in Hne. rewrite Hne. reflexivity.
  - destruct (String.eqb k k') eqn:E; cbn.
    + apply String.eqb_eq in E. subst k'. apply String.eqb_neq in Hne. rewrite Hne.
      reflexivity.
    + rewrite IH. reflexivity.
Qed.

Lemma with_engagement_id_tagged row id :
  engagement row id -> exists row', with_engagement_id row = Ok row' /\ tagged row row'.
Proof.
  intros (fields & e & -> & He & Hid).
  exists (JObj (obj_set "engagement_id" id fields)). split.
  - unfold with_engagement_id. cbn. rewrite He. cbn. rewrite Hid. reflexivity.
  - exists fields, (obj_set "engagement_id" id fields), id.
    split; [reflexivity|]. split; [reflexivity|].
    split; [exists fields, e; auto|].
    split; [apply assoc_obj_set_eq|]. intros k Hk. apply assoc_obj_set_ne, Hk.
Qed.

Lemma engagement_rows rows u :
  Forall (fun row => exists id, engagement row id) rows ->
  exists rows',
    for_each rows (fun record => record' <- lift (with_engagement_id record);; yield record')%M u
    = (Yield <$> rows', Ok tt, u)
    /\ Forall2 tagged rows rows'.
Proof.
  induction 1 as [|row rows [id Hid] _ (rows' & Hrun & Htag)].
  - exists []. split; [reflexivity|constructor].
  - destruct (with_engagement_id_tagged row id Hid) as (row' & Hrow & Ht).
    exists (row' :: rows'). split; [|constructor; assumption].
    cbn [for_each]. rewrite Hrow.
    rewrite (bind_ok _ _ u [Yield row'] tt u) by reflexivity.
    rewrite Hrun. reflexivity.
Qed.

Section Lists.
Context (w : world) (deadline : Z).
Hypothesis Hsettled : settled deadline w = true.

(** X27: the [list] methods that make one request.  Those of deal
    pipelines and forms yield the items of the answer when it is a list,
    and the names of its fields when it is an object; that of workflows
    yields the items under [workflows], and raises [KeyError] when the
    answer has no such field. *)
Theorem lists_of_one_request url u r rest body :
  in_call w u -> (clock u <= deadline)%Z -> script u = r :: rest ->
  API._parse_and_handle_errors r = Ok body ->
  (forall rows, body = JArr rows ->
     items_list url u
     = (sent_request w GET url None ∅ :: (Yield <$> rows), Ok tt, during w rest (clock u)))
  /\ (forall fields, body = JObj fields ->
        items_list url u
        = (sent_request w GET url None ∅ :: (Yield <$> (JStr <$> keys fields)), Ok tt,
           during w rest (clock u)))
  /\ (forall fields rows, body = JObj fields -> assoc "workflows" fields = Some (JArr rows) ->
        workflows_list u
        = (sent_request w GET "/automation/v3/workflows" None ∅ :: (Yield <$> rows), Ok tt,
           during w rest (clock u)))
  /\ (forall fields, body = JObj fields -> assoc "workflows" fields = None ->
        workflows_list u
        = ([sent_request w GET "/automation/v3/workflows" None ∅],
           Raise (KeyError "workflows"), during w rest (clock u))).
Proof.
  intros Hu Hc Hsc Hbody.
  assert (Hget : forall url', API.get url' ∅ u
                 = ([sent_request w GET url' None ∅], Ok (kept_params w ∅, body),
                    during w rest (clock u)))
    by (intros url'; apply (get_in_call url' w deadline Hsettled ∅ u r rest body); assumption).
  assert (Hitems : forall rows, py_iter body = Ok rows ->
            items_list url u
            = (sent_request w GET url None ∅ :: (Yield <$> rows), Ok tt,
               during w rest (clock u))).
  { intros rows Hrows. unfold items_list. rewrite (bind_ok _ _ _ _ _ _ (Hget url)).
    cbn [snd]. rewrite Hrows.
    rewrite (bind_ok _ _ _ [] rows _ eq_refl). rewrite for_each_yield. reflexivity. }
  split; [intros rows ->; apply Hitems; reflexivity|].
  split; [intros fields ->; apply Hitems; reflexivity|].
  split.
  - intros fields rows -> Hw. unfold workflows_list.
    rewrite (bind_ok _ _ _ _ _ _ (Hget _)). cbn [snd py_getitem]. rewrite Hw.
    rewrite (bind_ok _ _ _ [] (JArr rows) _ eq_refl).
    rewrite (bind_ok _ _ _ [] rows _ eq_refl). rewrite for_each_yield. reflexivity.
  - intros fields -> Hw. unfold workflows_list.
    rewrite (bind_ok _ _ _ _ _ _ (Hget _)). cbn [snd py_getitem]. rewrite Hw.
    reflexivity.
Qed.

(** X28: [_contacts_by_company] asks for the contacts of the company with
    [count = 100] and yields one record per contact, made of the id of the
    company and the contact; an answer without [vids], or with a null
    there, raises the [RuntimeError] that names the fields of the answer,
    and nothing is yielded. *)
Theorem contacts_by_company_pairs company_id u r rest fields :
  in_call w u -> (clock u <= deadline)%Z -> script u = r :: rest ->
  API._parse_and_handle_errors r = Ok (JObj fields) ->
  (forall vids, assoc "vids" fields = Some (JArr vids) ->
     _contacts_by_company company_id u
     = (sent_request w GET (vids_url company_id) None {["count" := JNum 100]}
          :: (Yield <$> (contact_of company_id <$> vids)),
        Ok tt, during w rest (clock u)))
  /\ (assoc "vids" fields = None \/ assoc "vids" fields = Some JNull ->
      _contacts_by_company company_id u
      = ([sent_request w GET (vids_url company_id) None {["count" := JNum 100]}],
         Raise (RuntimeError ("Unexpected API response: vids not in "
                              +:+ repr_keys (keys fields))),
         during w rest (clock u))).
Proof.
  intros Hu Hc Hsc Hbody.
  pose proof (get_in_call (vids_url company_id) w deadline Hsettled
                {["count" := JNum 100]} u r rest (JObj fields) Hu Hc Hsc Hbody) as Hget.
  unfold _contacts_by_company. fold (vids_url company_id).
  rewrite (bind_ok _ _ _ _ _ _ Hget). cbn [snd]. split.
  - intros vids Hv. rewrite Hv. cbn [py_iter].
    rewrite (bind_ok _ _ _ [] vids _ eq_refl).
    assert (Hrows : forall v, for_each vids
                      (fun row => yield (JObj [("company-id", company_id); ("contact-id", row)])) v
                    = (Yield <$> (contact_of company_id <$> vids), Ok tt, v)).
    { clear Hv. intros v. induction vids as [|x vids IH]; [reflexivity|].
      cbn [for_each]. rewrite (bind_ok _ _ v [Yield (contact_of company_id x)] tt v)
        by reflexivity.
      rewrite IH. reflexivity. }
    rewrite Hrows. reflexivity.
  - intros [Hv|Hv]; rewrite Hv; reflexivity.
Qed.

End Lists.

Section Consumers.
Context (w : world) (deadline : Z).
Hypothesis Hsettled : settled deadline w = true.

(** The last page of a [read] whose consumer does [body] with every row. *)
Lemma consume_last_page s url body fuel params u r rest fields rows tb rb u2 :
  in_call w u -> (clock u <= deadline)%Z -> script u = r :: rest ->
  API._parse_and_handle_errors r = Ok (JObj fields) ->
  stops s fields rows ->
  for_each rows body (during w rest (clock u)) = (tb, rb, u2) ->
  consume_loop (S fuel) s (api_getter url) params body u
  = (Call params :: sent_request w GET url None params :: tb, rb, u2).
Proof.
  intros Hu Hc Hsc Hbody [Hrows Hnext] Hfor. cbn [consume_loop].
  rewrite (bind_ok _ _ u [Call params] tt u) by reflexivity.
  pose proof (get_in_call url w deadline Hsettled params u r rest (JObj fields)
                Hu Hc Hsc Hbody) as Hget.
  unfold api_getter. rewrite (bind_ok _ _ _ _ _ _ Hget). cbn [snd fst].
  rewrite Hrows. rewrite (bind_ok _ _ _ [] rows _ eq_refl).
  destruct rb as [[]|e|].
  - rewrite (bind_ok _ _ _ _ _ _ Hfor). rewrite Hnext.
    rewrite (bind_ok (lift (Ok None)) _ _ [] None _ eq_refl). cbn. rewrite app_nil_r.
    reflexivity.
  - rewrite (bind_raise _ _ _ _ _ _ Hfor). reflexivity.
  - assert (Hout : forall k : unit -> M unit,
               bind (for_each rows body) k (during w rest (clock u)) = (tb, OutOfFuel, u2))
      by (intros k; unfold bind; rewrite Hfor; reflexivity).
    rewrite Hout. reflexivity.
Qed.

Lemma campaign_details rest rows : forall ids ds bodies u,
  in_call w u -> (clock u <= deadline)%Z -> script u = ds ++ rest ->
  Forall2 (fun row id => py_getitem row "id" = Ok id) rows ids ->
  Forall2 (fun d body => API._parse_and_handle_errors d = Ok body) ds bodies ->
  length ds = length rows ->
  exists t u',
    for_each rows
      (fun row =>
         id <- lift (py_getitem row "id");;
         record <- API.get ("/email/public/v1/campaigns/" +:+ py_str id) ∅;;
         yield record.2)%M u
    = (t, Ok tt, u')
    /\ script u' = rest
    /\ yielded t = bodies
    /\ requests t = (fun id => (GET, API.BASE_URL +:+ campaign_url id)) <$> ids.
Proof.
  induction rows as [|row rows IH]; intros ids ds bodies u Hu Hc Hsc Hids Hds Hlen.
  - destruct ds; [|discriminate]. apply Forall2_nil_inv_l in Hids, Hds. subst.
    exists [], u. repeat split; auto.
  - destruct ds as [|d ds]; [discriminate|].
    apply Forall2_cons_inv_l in Hids as (id & ids' & Hid & Hids & ->).
    apply Forall2_cons_inv_l in Hds as (body & bodies' & Hd & Hds & ->).
    cbn in Hsc. injection Hlen as Hlen.
    pose proof (get_in_call (campaign_url id) w deadline Hsettled ∅ u d (ds ++ rest) body
                  Hu Hc Hsc Hd) as Hget.
    destruct (IH ids' ds bodies' (during w (ds ++ rest) (clock u))
                (in_call_during w _ _) Hc eq_refl Hids Hds Hlen)
      as (t & u' & Hrun & Hsc' & Hy & Hreq).
    exists (sent_request w GET (campaign_url id) None ∅ :: Yield body :: t), u'.
    split; [|split; [exact Hsc'|split; [cbn; rewrite <- Hy; reflexivity|
                                         cbn; rewrite <- Hreq; reflexivity]]].
    assert (Hrow : (id <- lift (py_getitem row "id");;
                    record <- API.get ("/email/public/v1/campaigns/" +:+ py_str id) ∅;;
                    yield record.2)%M u
                   = ([sent_request w GET (campaign_url id) None ∅; Yield body], Ok tt,
                      during w (ds ++ rest) (clock u))).
    { rewrite Hid. rewrite (bind_ok (lift (Ok id)) _ u [] id u eq_refl).
      unfold campaign_url in Hget. rewrite (bind_ok _ _ u _ _ _ Hget). reflexivity. }
    cbn [for_each]. rewrite (bind_ok _ _ u _ _ _ Hrow). rewrite Hrun. reflexivity.
Qed.

(** X29: [CampaignsAPI.list] looks every row of the campaign index up by
    its id and yields what the lookups return, not the rows: after the
    schema and the index, one request per row, to the endpoint of that
    row's id, in the order of the rows. *)
Theorem campaigns_list_yields_the_lookups
    fuel start u r0 r1 rest schema names fields rows ids ds bodies :
  in_call w u -> (clock u <= deadline)%Z ->
  script u = r0 :: r1 :: ds ++ rest ->
  API._parse_and_handle_errors r0 = Ok (JArr schema) ->
  Forall2 schema_row schema names ->
  API._parse_and_handle_errors r1 = Ok (JObj fields) ->
  stops (CampaignsAPI start) fields rows ->
  Forall2 (fun row id => py_getitem row "id" = Ok id) rows ids ->
  Forall2 (fun d body => API._parse_and_handle_errors d = Ok body) ds bodies ->
  length ds = length rows ->
  yielded (trace_of (campaigns_list (S fuel) start u)) = bodies
  /\ result_of (campaigns_list (S fuel) start u) = Ok tt
  /\ requests (trace_of (campaigns_list (S fuel) start u))
     = (GET, API.BASE_URL +:+ properties_url "campaign")
       :: (GET, API.BASE_URL +:+ "/email/public/v1/campaigns/by-id")
       :: ((fun id => (GET, API.BASE_URL +:+ campaign_url id)) <$> ids)
  /\ script (world_of (campaigns_list (S fuel) start u)) = rest.
Proof.
  intros Hu Hc Hsc H0 Hschema H1 Hstops Hids Hds Hlen.
  pose proof (default_params_in_call (CampaignsAPI start) "campaign" w deadline Hsettled
                eq_refl ltac:(discriminate) u r0 (r1 :: ds ++ rest) schema names
                Hu Hc Hsc H0 Hschema) as Hdp.
  destruct (campaign_details rest rows ids ds bodies (during w (ds ++ rest) (clock u))
              (in_call_during w _ _) Hc eq_refl Hids Hds Hlen)
    as (t & u' & Hrun & Hsc' & Hy & Hreq).
  unfold campaigns_list, consume. rewrite (bind_ok _ _ _ _ _ _ Hdp).
  rewrite (consume_last_page _ _ _ fuel _ (during w (r1 :: ds ++ rest) (clock u))
             r1 (ds ++ rest) fields rows t (Ok tt) u'
             (in_call_during w _ _) Hc eq_refl H1 Hstops Hrun).
  cbn [trace_of result_of world_of fst snd].
  split; [exact Hy|]. split; [reflexivity|]. split; [|exact Hsc'].
  cbn. fold (requests t). rewrite Hreq. reflexivity.
Qed.

(** X30: [EngagementsAPI.list] yields every record of the page with the id
    of its engagement added under [engagement_id] and its other fields as
    they came, in the order of the page. *)
Theorem engagements_list_adds_the_engagement_id
    fuel start u r0 r1 rest schema names fields rows :
  in_call w u -> (clock u <= deadline)%Z ->
  script u = r0 :: r1 :: rest ->
  API._parse_and_handle_errors r0 = Ok (JArr schema) ->
  Forall2 schema_row schema names ->
  API._parse_and_handle_errors r1 = Ok (JObj fields) ->
  stops (EngagementsAPI start) fields rows ->
  Forall (fun row => exists id, engagement row id) rows ->
  Forall2 tagged rows (yielded (trace_of (engagements_list (S fuel) start u)))
  /\ result_of (engagements_list (S fuel) start u) = Ok tt
  /\ requests (trace_of (engagements_list (S fuel) start u))
     = [(GET, API.BASE_URL +:+ properties_url "engagement");
        (GET, API.BASE_URL +:+ "/engagements/v1/engagements/paged")].
Proof.
  intros Hu Hc Hsc H0 Hschema H1 Hstops Hrows.
  pose proof (default_params_in_call (EngagementsAPI start) "engagement" w deadline Hsettled
                eq_refl ltac:(discriminate) u r0 (r1 :: rest) schema names
                Hu Hc Hsc H0 Hschema) as Hdp.
  destruct (engagement_rows rows (during w rest (clock u)) Hrows) as (rows' & Hrun & Htag).
  unfold engagements_list, consume. rewrite (bind_ok _ _ _ _ _ _ Hdp).
  rewrite (consume_last_page _ _ _ fuel _ (during w (r1 :: rest) (clock u))
             r1 rest fields rows _ (Ok tt) _
             (in_call_during w _ _) Hc eq_refl H1 Hstops Hrun).
  cbn [trace_of result_of world_of fst snd].
  repeat split.
  - cbn. rewrite yielded_yields. exact Htag.
  - cbn. rewrite requests_yields. reflexivity.
Qed.

End Consumers.

(** ** The further properties at concrete inputs *)

Lemma expired_world_dates :
  is_datetime (clock expired_world)
  /\ is_datetime (clock expired_world + (21600 - 600) * 1000000).
Proof. unfold is_datetime, datetime_min, datetime_max. cbn. lia. Defined.

Lemma refresh_stores_tokens_witness :
  API._acquire_access_token_from_refresh_token expired_world
  = ([TokenRequest token_url
        (refresh_payload (JStr "https://example.com") (JStr "r0") (JStr "id") (JStr "cs"));
      Log (TokenRefreshed (clock expired_world + (21600 - 600) * 1000000))],
     Ok tt,
     refreshed expired_world [] (JStr "t1") (JStr "r1")
       (clock expired_world + (21600 - 600) * 1000000)).
Proof.
  apply (proj1 (refresh_stores_tokens expired_world granted_token []
                  [("access_token", JStr "t1"); ("refresh_token", JStr "r1");
                   ("expires_in", JNum 21600)]
                  (JStr "https://example.com") (JStr "r0") (JStr "id") (JStr "cs")
                  (JStr "t1") (JStr "r1") 21600
                  ltac:(repeat split; reflexivity) eq_refl ltac:(left; reflexivity)
                  eq_refl eq_refl eq_refl eq_refl (proj1 expired_world_dates))).
  exact (proj2 expired_world_dates).
Defined.

Lemma refresh_rejected_keeps_credentials_witness :
  API._acquire_access_token_from_refresh_token refused_world
  = ([TokenRequest token_url
        (refresh_payload (JStr "https://example.com") (JStr "r0") (JStr "id") (JStr "cs"))],
     Raise (HubspotInvalidAuth "denied"),
     with_token_script [] refused_world).
Proof.
  apply (proj1 (refresh_rejected_keeps_credentials refused_world (status_response 403) []
                  (JStr "https://example.com") (JStr "r0") (JStr "id") (JStr "cs")
                  ltac:(repeat split; reflexivity) eq_refl ltac:(cbn; lia))).
Defined.

Lemma refresh_needs_its_credentials_witness :
  exists k,
    k ∈ ["redirect_uri"; "refresh_token"; "client_id"; "client_secret"]
    /\ creds (keyed_world []) !! k = None
    /\ API._acquire_access_token_from_refresh_token (keyed_world [])
       = ([], Raise (KeyError k), keyed_world []).
Proof.
  apply (refresh_needs_its_credentials (keyed_world [])).
  intros [[x Hx] _]. vm_compute in Hx. discriminate.
Defined.

Lemma refresh_without_refresh_token_is_torn_witness :
  API._acquire_access_token_from_refresh_token torn_world
  = ([TokenRequest token_url
        (refresh_payload (JStr "https://example.com") (JStr "r0") (JStr "id") (JStr "cs"))],
     Raise (KeyError "refresh_token"),
     with_creds (<["access_token" := JStr "t1"]> (creds torn_world))
       (with_token_script [] torn_world)).
Proof.
  apply (refresh_without_refresh_token_is_torn torn_world token_without_refresh []
           [("access_token", JStr "t1"); ("expires_in", JNum 21600)]);
    first [reflexivity | repeat split; reflexivity | left; reflexivity].
Defined.

Lemma short_lived_world_due : expiry_due short_lived_world.
Proof. right. exists 1500000000000000%Z. split; [reflexivity|cbn; lia]. Defined.

Lemma short_lived_world_dates :
  is_datetime (clock short_lived_world)
  /\ is_datetime (clock short_lived_world + (300 - 600) * 1000000).
Proof. unfold is_datetime, datetime_min, datetime_max. cbn. lia. Defined.

Lemma access_token_refreshes_again_after_lifetime_less_600_witness :
  result_of (API.access_token short_lived_world) = Ok (Some (JStr "t1"))
  /\ (refreshes (trace_of (API.access_token
                             (with_clock (clock short_lived_world)
                                (world_of (API.access_token short_lived_world))))) = true
      <-> (clock short_lived_world + (300 - 600) * 1000000 < clock short_lived_world)%Z).
Proof.
  pose proof (access_token_refreshes_again_after_lifetime_less_600 short_lived_world
                short_lived_token [granted_token]
                [("access_token", JStr "t1"); ("refresh_token", JStr "r1");
                 ("expires_in", JNum 300)]
                (JStr "https://example.com") (JStr "r0") (JStr "id") (JStr "cs")
                (JStr "t1") (JStr "r1") 300 (clock short_lived_world)
                eq_refl short_lived_world_due ltac:(repeat split; reflexivity) eq_refl
                ltac:(left; reflexivity) eq_refl eq_refl eq_refl eq_refl eq_refl
                (proj1 short_lived_world_dates) (proj2 short_lived_world_dates)) as H.
  destruct H as (H1 & H2 & _). split; assumption.
Defined.

Lemma get_refresh_failure_is_not_retried_witness :
  API.get contacts_url first_params refused_world
  = ([TokenRequest token_url
        (refresh_payload (JStr "https://example.com") (JStr "r0") (JStr "id") (JStr "cs"))],
     Raise (HubspotInvalidAuth "denied"),
     with_token_script [] refused_world).
Proof.
  apply (get_refresh_failure_is_not_retried contacts_url first_params refused_world
           (status_response 403) []);
    first [reflexivity | repeat split; reflexivity | cbn; lia | idtac].
  right. exists 1500000000000000%Z. split; [reflexivity|cbn; lia].
Defined.

Lemma static_key_never_refreshes_witness :
  untouched (keyed_world busy_server) (API.get contacts_url first_params)
  /\ untouched (keyed_world busy_server) (campaigns_list 2 0).
Proof.
  pose proof (static_key_never_refreshes (keyed_world busy_server) eq_refl
                2 (StreamAPI 0) contacts_url first_params JNull 0) as H.
  split; [apply H|apply H].
Defined.

Lemma get_429_missing_retry_after_is_not_retried_witness :
  result_of (API.get contacts_url first_params (keyed_world [status_response 429]))
  = Raise (KeyError "retry-after")
  /\ requests (trace_of (API.get contacts_url first_params (keyed_world [status_response 429])))
     = [(GET, API.BASE_URL +:+ contacts_url)]
  /\ sleeps (trace_of (API.get contacts_url first_params (keyed_world [status_response 429])))
     = []
  /\ script (world_of (API.get contacts_url first_params (keyed_world [status_response 429])))
     = [].
Proof.
  apply (get_429_missing_retry_after_is_not_retried contacts_url first_params
           (keyed_world [status_response 429]) 1600000000000000 (status_response 429) []);
    first [reflexivity | cbn; lia].
Defined.

Lemma get_429_with_bad_retry_after_witness :
  (result_of (API.get contacts_url first_params (keyed_world [rate_limited_response "soon"]))
   = Raise ValueError
   /\ requests (trace_of (API.get contacts_url first_params
                            (keyed_world [rate_limited_response "soon"])))
      = [(GET, API.BASE_URL +:+ contacts_url)])
  /\ (result_of (API.get contacts_url first_params
                   (keyed_world [rate_limited_response "10000000000"]))
      = Raise OverflowError
      /\ sleeps (trace_of (API.get contacts_url first_params
                             (keyed_world [rate_limited_response "10000000000"])))
         = []).
Proof.
  split.
  - destruct (get_429_with_bad_retry_after contacts_url first_params
                (keyed_world [rate_limited_response "soon"]) 1600000000000000
                (rate_limited_response "soon") [] "soon" ValueError
                eq_refl ltac:(cbn; lia) eq_refl eq_refl eq_refl
                ltac:(left; split; reflexivity))
      as (H1 & H2 & _).
    split; assumption.
  - destruct (get_429_with_bad_retry_after contacts_url first_params
                (keyed_world [rate_limited_response "10000000000"]) 1600000000000000
                (rate_limited_response "10000000000") [] "10000000000" OverflowError
                eq_refl ltac:(cbn; lia) eq_refl eq_refl eq_refl)
      as (H1 & _ & H3 & _).
    + right. exists 10000000000%Z. split; [reflexivity|]. right.
      split; [|reflexivity]. right. unfold sleep_max. lia.
    + split; assumption.
Defined.

Lemma get_succeeds_on_third_attempt_witness :
  result_of (API.get contacts_url first_params (keyed_world recovering_server))
  = Ok (kept_params (keyed_world recovering_server) first_params,
        JObj [("results", JArr [JNum 1])]).
Proof.
  rewrite (get_succeeds_on_third_attempt contacts_url first_params
             (keyed_world recovering_server) 1700000000000000
             (rate_limited_response "5") (rate_limited_response "2")
             (ok_response (JObj [("results", JArr [JNum 1])])) [] "5" "2" 5 2
             (JObj [("results", JArr [JNum 1])]));
    first [reflexivity | cbn; lia | unfold sleep_max; lia].
Defined.


Lemma read_yields_pages_in_order_witness :
  yielded (trace_of (read_loop 2 (StreamAPI 0) (api_getter contacts_url) first_params
                       (keyed_world (page_responses [first_cursor_page; last_cursor_page]))))
  = [JStr "a"; JStr "b"; JStr "c"].
Proof.
  apply (read_yields_pages_in_order (StreamAPI 0) contacts_url
           (keyed_world (page_responses [first_cursor_page; last_cursor_page]))
           1600000000000000 [first_cursor_page] last_cursor_page [] first_params 2);
    first [reflexivity | cbn; lia | idtac].
  - repeat constructor.
  - split; reflexivity.
Defined.

Lemma read_yields_pages_before_anything_else_witness :
  exists later,
    yielded (trace_of (read_loop 2 (StreamAPI 0) (api_getter contacts_url) first_params
                         (keyed_world (page_responses [first_cursor_page]
                                         ++ [status_response 500]))))
    = [JStr "a"; JStr "b"] ++ later.
Proof.
  apply (read_yields_pages_before_anything_else (StreamAPI 0) contacts_url
           (keyed_world (page_responses [first_cursor_page] ++ [status_response 500]))
           1600000000000000 [first_cursor_page] [status_response 500] first_params 2);
    first [reflexivity | cbn; lia | idtac].
  repeat constructor.
Defined.

Lemma cursor_requests_carry_after_witness :
  (fun q : gmap string json => q !! "after")
    <$> calls (trace_of (read_loop 2 (StreamAPI 0) (api_getter contacts_url) first_params
                           (keyed_world (page_responses
                                           [first_cursor_page; last_cursor_page]))))
  = [None; Some (JStr "X")].
Proof.
  apply (cursor_requests_carry_after (StreamAPI 0) contacts_url
           (keyed_world (page_responses [first_cursor_page; last_cursor_page]))
           1600000000000000 [(cursor_fields, [JStr "a"; JStr "b"], JStr "X")]
           last_cursor_page [] first_params 2);
    first [reflexivity | cbn; lia | idtac].
  - repeat constructor. exists [("next", JObj [("after", JStr "X")])], [("after", JStr "X")].
    repeat split; reflexivity.
  - split; reflexivity.
Defined.

Lemma legacy_requests_carry_offset_witness :
  (fun q : gmap string json => q !! "offset")
    <$> calls (trace_of (read_loop 2 (CampaignsAPI 0)
                           (api_getter "/email/public/v1/campaigns/by-id") first_params
                           (keyed_world (page_responses
                                           [legacy_page (CampaignsAPI 0) legacy_fields
                                              [JNum 0] (JNum 7);
                                            last_campaigns_page]))))
  = [None; Some (JNum 7)].
Proof.
  apply (legacy_requests_carry_offset (CampaignsAPI 0) "/email/public/v1/campaigns/by-id"
           (keyed_world (page_responses
                           [legacy_page (CampaignsAPI 0) legacy_fields [JNum 0] (JNum 7);
                            last_campaigns_page]))
           1600000000000000 [(legacy_fields, [JNum 0], JNum 7)]
           last_campaigns_page [] first_params 2);
    first [reflexivity | cbn; lia | idtac].
  - repeat constructor.
  - split; reflexivity.
Defined.

Lemma paging_without_next_stops_witness :
  read_loop 1 (EmailEventsAPI 0) (repeating_getter (JObj fields_with_empty_paging))
    first_params (keyed_world [])
  = ([Call first_params; Yield (JNum 1)], Ok tt, keyed_world []).
Proof.
  apply (paging_without_next_stops (EmailEventsAPI 0)
           (repeating_getter (JObj fields_with_empty_paging)) 0 first_params (keyed_world [])
           [] first_params fields_with_empty_paging (keyed_world []) [JNum 1] []);
    reflexivity.
Defined.

Lemma next_without_after_raises_witness :
  read_loop 1 (StreamAPI 0) (repeating_getter (JObj fields_with_empty_next))
    first_params (keyed_world [])
  = ([Call first_params; Yield (JNum 1)], Raise (KeyError "after"), keyed_world []).
Proof.
  apply (next_without_after_raises (StreamAPI 0)
           (repeating_getter (JObj fields_with_empty_next)) 0 first_params (keyed_world [])
           [] first_params fields_with_empty_next (keyed_world []) [JNum 1]
           [("next", JObj [])] []);
    reflexivity.
Defined.

Lemma null_container_raises_witness :
  read_loop 1 (StreamAPI 0) (repeating_getter (JObj fields_with_null_container))
    first_params (keyed_world [])
  = ([Call first_params],
     Raise (RuntimeError "Unexpected API response: results not in dict_keys(['status', 'results'])"),
     keyed_world []).
Proof.
  apply (proj1 (null_container_raises (StreamAPI 0)
                  (repeating_getter (JObj fields_with_null_container)) 0 first_params
                  (keyed_world []) [] first_params fields_with_null_container
                  (keyed_world []) eq_refl eq_refl)).
Defined.

Lemma non_object_response_raises_witness :
  read_loop 1 (StreamAPI 0) (repeating_getter (JArr [JNum 1])) first_params (keyed_world [])
  = ([Call first_params], Raise AttributeError, keyed_world []).
Proof.
  apply (non_object_response_raises (StreamAPI 0) (repeating_getter (JArr [JNum 1])) 0
           first_params (keyed_world []) [] first_params (JArr [JNum 1]) (keyed_world [])
           eq_refl).
  intros fields. discriminate.
Defined.


Lemma contacts_settled answers : settled 1600000000000000 (keyed_world answers) = true.
Proof. reflexivity. Defined.

Lemma contact_schema_rows : Forall2 schema_row contact_schema ["email"; "age"].
Proof.
  repeat constructor.
  - exists [("name", JStr "email"); ("type", JStr "string")], (JStr "string").
    repeat split; reflexivity.
  - exists [("name", JStr "age"); ("type", JStr "number")], (JStr "number").
    repeat split; reflexivity.
Defined.

Lemma default_params_join_the_schema_names_witness :
  exists ks,
    default_params (ContactsAPI 0) (keyed_world contacts_server)
    = ([sent_request (keyed_world contacts_server) GET (properties_url "contact") None ∅],
       Ok (<["properties" := JStr (join "," ks)]> {["limit" := JNum 100]}),
       during (keyed_world contacts_server) (tail contacts_server) 1600000000000000)
    /\ NoDup ks
    /\ (forall n, n ∈ ks <-> n ∈ ["email"; "age"])
    /\ (NoDup ["email"; "age"] -> ks = ["email"; "age"]).
Proof.
  apply (default_params_join_the_schema_names (ContactsAPI 0) "contact"
           (keyed_world contacts_server) 1600000000000000 (contacts_settled _) eq_refl
           ltac:(discriminate) (keyed_world contacts_server)
           (ok_response (JArr contact_schema)) (tail contacts_server) contact_schema
           ["email"; "age"]);
    first [reflexivity | cbn; lia | exact contact_schema_rows | constructor].
Defined.

Lemma read_stops_at_a_broken_schema_row_witness :
  read 1 (ContactsAPI 0) (api_getter contacts_url) None (keyed_world broken_schema_server)
  = ([sent_request (keyed_world broken_schema_server) GET (properties_url "contact") None ∅],
     Raise (KeyError "type"),
     during (keyed_world broken_schema_server) [] 1600000000000000).
Proof.
  apply (read_stops_at_a_broken_schema_row (ContactsAPI 0) "contact"
           (keyed_world broken_schema_server) 1600000000000000
           (contacts_settled _) eq_refl ltac:(discriminate) 1 (api_getter contacts_url) None
           (keyed_world broken_schema_server)
           (ok_response (JArr [JObj [("name", JStr "email"); ("type", JStr "string")];
                               JObj broken_schema_row]))
           [] [JObj [("name", JStr "email"); ("type", JStr "string")]] ["email"]
           broken_schema_row [] "type");
    first [reflexivity | cbn; lia | apply in_call_start | idtac].
  - repeat constructor.
    exists [("name", JStr "email"); ("type", JStr "string")], (JStr "string").
    repeat split; reflexivity.
  - left. split; reflexivity.
Defined.

Lemma read_first_call_overrides_defaults_witness :
  exists first later,
    calls (trace_of (read 1 (OwnersAPI 0) (repeating_getter (JObj [("results", JArr [])]))
                       (Some {["limit" := JNum 5]}) (keyed_world [])))
    = first :: later
    /\ forall k, first !! k
                 = match ({["limit" := JNum 5]} : gmap string json) !! k with
                   | Some v => Some v
                   | None => first_params !! k
                   end.
Proof.
  apply (read_first_call_overrides_defaults 0 (OwnersAPI 0)
           (repeating_getter (JObj [("results", JArr [])])) {["limit" := JNum 5]}
           (keyed_world []) [] first_params (keyed_world [])).
  reflexivity.
Defined.

Lemma read_chunked_walks_abutting_windows_witness :
  exists k,
    logged_chunks
      (trace_of (read_chunked 1 (EmailEventsAPI 1001000)
                   (api_getter "/email/public/v1/events") None
                   (with_clock (216000000 * 1000) (keyed_world []))))
    = nth_window 1000 86400000 <$> seq 0 k
    /\ (forall i, i < k -> (1000 + Z.of_nat i * 86400000 < 216000000)%Z)
    /\ (result_of (read_chunked 1 (EmailEventsAPI 1001000)
                     (api_getter "/email/public/v1/events")
                     None (with_clock (216000000 * 1000) (keyed_world [])))
        = Ok tt ->
        (216000000 <= 1000 + Z.of_nat k * 86400000)%Z).
Proof.
  apply (read_chunked_walks_abutting_windows 1 (EmailEventsAPI 1001000)
           "/email/public/v1/events" None (with_clock (216000000 * 1000) (keyed_world [])));
    first [reflexivity | unfold is_datetime, datetime_min, datetime_max; cbn; lia].
Defined.

Lemma lists_of_one_request_witness :
  items_list "/forms/v2/forms" (keyed_world forms_server)
  = (sent_request (keyed_world forms_server) GET "/forms/v2/forms" None ∅
       :: (Yield <$> [JObj [("guid", JStr "f1")]; JObj [("guid", JStr "f2")]]),
     Ok tt, during (keyed_world forms_server) [] 1600000000000000).
Proof.
  apply (proj1 (lists_of_one_request (keyed_world forms_server) 1600000000000000
                  (contacts_settled _) "/forms/v2/forms" (keyed_world forms_server)
                  (ok_response (JArr [JObj [("guid", JStr "f1")]; JObj [("guid", JStr "f2")]]))
                  [] (JArr [JObj [("guid", JStr "f1")]; JObj [("guid", JStr "f2")]])
                  (in_call_start _) ltac:(cbn; lia) eq_refl eq_refl)).
  reflexivity.
Defined.

Lemma contacts_by_company_pairs_witness :
  _contacts_by_company (JNum 7) (keyed_world [ok_response (JObj vids_fields)])
  = (sent_request (keyed_world [ok_response (JObj vids_fields)]) GET (vids_url (JNum 7)) None
       {["count" := JNum 100]}
       :: (Yield <$> [contact_of (JNum 7) (JNum 5); contact_of (JNum 7) (JNum 6)]),
     Ok tt, during (keyed_world [ok_response (JObj vids_fields)]) [] 1600000000000000).
Proof.
  exact (proj1 (contacts_by_company_pairs (keyed_world [ok_response (JObj vids_fields)])
                  1600000000000000 (contacts_settled _) (JNum 7)
                  (keyed_world [ok_response (JObj vids_fields)])
                  (ok_response (JObj vids_fields)) [] vids_fields
                  (in_call_start _) ltac:(cbn; lia) eq_refl eq_refl)
           [JNum 5; JNum 6] eq_refl).
Defined.

Lemma campaigns_list_yields_the_lookups_witness :
  yielded (trace_of (campaigns_list 1 0 (keyed_world campaigns_server))) = campaign_lookups
  /\ result_of (campaigns_list 1 0 (keyed_world campaigns_server)) = Ok tt
  /\ requests (trace_of (campaigns_list 1 0 (keyed_world campaigns_server)))
     = (GET, API.BASE_URL +:+ properties_url "campaign")
       :: (GET, API.BASE_URL +:+ "/email/public/v1/campaigns/by-id")
       :: ((fun id => (GET, API.BASE_URL +:+ campaign_url id)) <$> [JNum 1; JNum 2])
  /\ script (world_of (campaigns_list 1 0 (keyed_world campaigns_server))) = [].
Proof.
  apply (campaigns_list_yields_the_lookups (keyed_world campaigns_server) 1600000000000000
           (contacts_settled _) 0 0 (keyed_world campaigns_server)
           (ok_response (JArr contact_schema)) (ok_response (JObj campaign_index)) []
           contact_schema ["email"; "age"] campaign_index campaign_rows [JNum 1; JNum 2]
           campaign_answers campaign_lookups
           (in_call_start _) ltac:(cbn; lia) eq_refl eq_refl
           contact_schema_rows eq_refl
           ltac:(split; reflexivity) ltac:(repeat constructor) ltac:(repeat constructor)
           eq_refl).
Defined.

Lemma engagements_list_adds_the_engagement_id_witness :
  Forall2 tagged engagement_rows_page
    (yielded (trace_of (engagements_list 1 0 (keyed_world engagements_server))))
  /\ result_of (engagements_list 1 0 (keyed_world engagements_server)) = Ok tt.
Proof.
  pose proof (engagements_list_adds_the_engagement_id (keyed_world engagements_server)
                1600000000000000 (contacts_settled _) 0 0 (keyed_world engagements_server)
                (ok_response (JArr contact_schema)) (ok_response (JObj engagements_page)) []
                contact_schema ["email"; "age"] engagements_page engagement_rows_page
                (in_call_start _) ltac:(cbn; lia) eq_refl eq_refl contact_schema_rows eq_refl
                ltac:(split; reflexivity)) as H.
  destruct H as (H1 & H2 & _); [|split; assumption].
  repeat constructor. exists (JNum 11).
  exists [("engagement", JObj [("id", JNum 11)]); ("note", JStr "call")], (JObj [("id", JNum 11)]).
  repeat split; reflexivity.
Defined.


(** ** The amended claims at concrete inputs *)

(** C6 as it was stated fails where the 429s carry no [Retry-After]: every
    attempt is answered 429, and the call ends after one request with the
    [KeyError] of the backoff handler, not with the rate-limit error after
    three. *)
Lemma C6_counterexample :
  Forall (fun r => status_code r = 429%Z) (replicate 3 (status_response 429))
  /\ ~ (exists e,
          result_of (API.get contacts_url first_params
                       (keyed_world (replicate 3 (status_response 429)))) = Raise e
          /\ is_rate_limited e = true
          /\ length (requests (trace_of (API.get contacts_url first_params
                                           (keyed_world (replicate 3 (status_response 429))))))
             = 3).
Proof.
  split; [repeat constructor|].
  intros (e & He & Hrl & _). vm_compute in He. injection He as <-. discriminate.
Qed.

Lemma C6_budget_of_three_with_retry_after_witness :
  (requests (trace_of (API.get contacts_url first_params (keyed_world overloaded_server)))
   = replicate 3 (GET, API.BASE_URL +:+ contacts_url)
   /\ sleeps (trace_of (API.get contacts_url first_params (keyed_world overloaded_server)))
      = [6; 0; 3; 0]%Z
   /\ result_of (API.get contacts_url first_params (keyed_world overloaded_server))
      = Raise (HubspotRateLimited
                 (API.rate_limit_message (rate_limited_response "1"))
                 (rate_limited_response "1"))
   /\ script (world_of (API.get contacts_url first_params (keyed_world overloaded_server)))
      = [ok_response (JObj [("results", JArr [])])])
  /\ (requests (trace_of (API.get contacts_url first_params (keyed_world denying_server)))
      = [(GET, API.BASE_URL +:+ contacts_url)]
      /\ result_of (API.get contacts_url first_params (keyed_world denying_server))
         = Raise (HubspotSourceUnavailable "denied"))
  /\ (requests (trace_of (API.get contacts_url first_params
                            (keyed_world [status_response 500])))
      = [(GET, API.BASE_URL +:+ contacts_url)]
      /\ result_of (API.get contacts_url first_params (keyed_world [status_response 500]))
         = Raise (HTTPError 500)).
Proof.
  split; [|split].
  - rewrite (proj1 (C6_budget_of_three_with_retry_after contacts_url first_params
                      (keyed_world overloaded_server) 1700000000000000
                      (rate_limited_response "5")
                      [rate_limited_response "2"; rate_limited_response "1";
                       ok_response (JObj [("results", JArr [])])]
                      eq_refl ltac:(cbn; lia) eq_refl)
               (rate_limited_response "2") (rate_limited_response "1")
               [ok_response (JObj [("results", JArr [])])] "5" "2" 5%Z 2%Z
               eq_refl eq_refl eq_refl eq_refl eq_refl eq_refl eq_refl eq_refl
               ltac:(unfold sleep_max; lia) ltac:(unfold sleep_max; lia) ltac:(cbn; lia)).
    repeat split; reflexivity.
  - rewrite (proj1 (proj2 (C6_budget_of_three_with_retry_after contacts_url first_params
                             (keyed_world denying_server) 1700000000000000
                             (status_response 403)
                             [ok_response (JObj [("results", JArr [])])]
                             eq_refl ltac:(cbn; lia) eq_refl))
               eq_refl).
    split; reflexivity.
  - rewrite (proj1 (proj2 (proj2 (C6_budget_of_three_with_retry_after
                                    contacts_url first_params
                                    (keyed_world [status_response 500]) 1700000000000000
                                    (status_response 500) []
                                    eq_refl ltac:(cbn; lia) eq_refl)))
               ltac:(cbn; lia) ltac:(cbn; lia) ltac:(cbn; lia)).
    split; reflexivity.
Defined.


(** ** C3: two pages under the cursor protocol, with their requests *)

Lemma two_cursor_pages_in_call s url w deadline fuel q u a b c X r1 r2 rest :
  settled deadline w = true ->
  in_call w u -> (clock u <= deadline)%Z ->
  data_path s = "results" ->
  more_key s = None ->
  script u = r1 :: r2 :: rest ->
  API._parse_and_handle_errors r1
  = Ok (JObj [("results", JArr [a; b]); ("paging", JObj [("next", JObj [("after", X)])])]) ->
  API._parse_and_handle_errors r2 = Ok (JObj [("results", JArr [c])]) ->
  read_loop (S (S fuel)) s (api_getter url) q u
  = ([Call q; sent_request w GET url None q; Yield a; Yield b;
      Call (<["after" := X]> (kept_params w q));
      sent_request w GET url None (<["after" := X]> (kept_params w q)); Yield c],
     Ok tt, during w rest (clock u)).
Proof.
  intros Hs Hu Hc Hpath Hmore Hsc H1 H2.
  assert (R1 : round s (api_getter url) q u
               = (Call q :: [sent_request w GET url None q] ++ (Yield <$> [a; b]),
                  Ok (Some (<["after" := X]> (kept_params w q))),
                  during w (r2 :: rest) (clock u))).
  { eapply (round_in_call s url w deadline Hs);
      [exact Hu|exact Hc|exact Hsc|exact H1| |reflexivity].
    unfold container. cbn. rewrite Hpath. reflexivity. }
  assert (R2 : round s (api_getter url) (<["after" := X]> (kept_params w q))
                 (during w (r2 :: rest) (clock u))
               = (Call (<["after" := X]> (kept_params w q))
                    :: [sent_request w GET url None (<["after" := X]> (kept_params w q))]
                    ++ (Yield <$> [c]),
                  Ok None, during w rest (clock u))).
  { eapply (round_in_call s url w deadline Hs _ (during w (r2 :: rest) (clock u)));
      [apply in_call_during|exact Hc|reflexivity|exact H2| |].
    - unfold container. cbn. rewrite Hpath. reflexivity.
    - unfold paginate, more_flag. cbn. rewrite Hmore. reflexivity. }
  rewrite (read_loop_continue _ _ _ _ _ _ _ _ R1).
  rewrite (read_loop_stop _ _ _ _ _ _ _ R2). reflexivity.
Qed.






(** ** C7: a 429 and then the pages *)

(** What is left of a read once its first GET has returned the first of
    the pages, whatever the time: the rows of all the pages, no sleep. *)
Lemma pages_after_first_get s url w deadline params fuel t r2 body rest pages last rest' :
  settled deadline w = true ->
  (t <= deadline)%Z ->
  API._parse_and_handle_errors r2 = Ok body ->
  r2 :: rest = page_responses (pages ++ [last]) ++ rest' ->
  Forall (continues s) pages ->
  stops s (page_fields last) (page_rows last) ->
  length pages < S fuel ->
  yielded (trace_of (after_response fuel s (api_getter url) (kept_params w params, body)
                       (during w rest t)))
  = concat (page_rows <$> pages) ++ page_rows last
  /\ result_of (after_response fuel s (api_getter url) (kept_params w params, body)
                  (during w rest t)) = Ok tt
  /\ sleeps (trace_of (after_response fuel s (api_getter url) (kept_params w params, body)
                         (during w rest t))) = [].
Proof.
  intros Hs Ht Hbody Hsc Hpages Hstops Hfuel.
  pose proof (get_in_call url w deadline Hs params (during w (r2 :: rest) t) r2 rest body
                (in_call_during w _ _) Ht eq_refl Hbody) as Hget.
  pose proof (read_loop_after_response fuel s (api_getter url) params
                (during w (r2 :: rest) t) _ _ _ Hget) as Hloop.
  destruct (read_pages_in_call s url w deadline pages last rest' params (S fuel)
              (during w (r2 :: rest) t) Hs (in_call_during w _ _) Ht Hpages Hstops Hsc Hfuel)
    as (Hy & Hr & _ & Hsl & _).
  rewrite Hloop in Hy, Hr, Hsl.
  unfold trace_of at 1 in Hy. unfold result_of at 1 in Hr. unfold trace_of at 1 in Hsl.
  cbn [fst snd] in Hy, Hr, Hsl. auto.
Qed.




